(** * Numpy_NN: a fully connected classifier written on numpy arrays

    A shallow embedding of [Numpy_NN.py] and the properties of its
    forward pass, backward pass, cost, optimizer step and training loop.

    Modelling choices.
    - A two dimensional numpy array is a record of its shape and its rows.
      A one dimensional array of length [n] (the result of [np.sum] or
      [np.mean] along an axis) is kept as an array of shape [(1, n)], which
      is how numpy aligns it when it broadcasts against a matrix.
    - Array entries live in a number type [num] that provides the operations
      the program uses.  Two instances are given: the reals (arithmetic
      without rounding, used for the algebraic properties) and binary64
      floats for the operations Rocq's kernel provides (used to run the
      model).  Sums are taken left to right.
    - Python exceptions are values of [exception]; a function that may raise
      returns a [result].
    - The parameter and gradient dictionaries are finite maps from the
      string keys the program builds ("W1", "b1", "dW1", ...). *)

From Stdlib Require PrimFloat Uint63.
Import PrimFloat.
From Stdlib Require Import ZArith List Lia Reals Lra.
From stdpp Require Import base numbers list strings pretty gmap.

(** * The program *)

(** ** Exceptions *)

Inductive exception : Set :=
  | ValueError
  | AssertionError
  | IndexError
  | KeyError
  | UnboundLocalError
  | ZeroDivisionError
  | OverflowError.

Inductive result (A : Type) : Type :=
  | Ok (a : A)
  | Raise (e : exception).
Arguments Ok {A} a.
Arguments Raise {A} e.

#[export] Instance result_ret : MRet result := fun _ a => Ok a.
#[export] Instance result_bind : MBind result := fun _ _ k r =>
  match r with
  | Ok a => k a
  | Raise e => Raise e
  end.

(** [assert(c)] *)
Definition assert (c : bool) : result unit :=
  if c then Ok tt else Raise AssertionError.

(** ** Numbers *)

(** The arithmetic the program performs on array entries.  [decimal m e]
    is the literal [m * 10^-e]; [of_nat] converts a Python integer;
    [np_isfinite] tells a number from an infinity or a NaN (the reals have
    neither: there a division by zero is a number the model says nothing
    about, and the statements over the reals keep away from it). *)
Class Arith (num : Type) : Type := {
  zero : num;
  one : num;
  num_add : num -> num -> num;
  num_sub : num -> num -> num;
  num_mul : num -> num -> num;
  num_div : num -> num -> num;
  num_neg : num -> num;
  num_leb : num -> num -> bool;
  num_ltb : num -> num -> bool;
  np_maximum : num -> num -> num;
  np_minimum : num -> num -> num;
  np_sqrt : num -> num;
  np_isfinite : num -> bool;
  of_nat : nat -> num;
  decimal : Z -> nat -> num
}.

(** [np.exp] and [np.log]. *)
Class Transcendental (num : Type) : Type := {
  np_exp : num -> num;
  np_log : num -> num
}.

Declare Scope num_scope.
Delimit Scope num_scope with num.
Infix "+" := num_add : num_scope.
Infix "-" := num_sub : num_scope.
Infix "*" := num_mul : num_scope.
Infix "/" := num_div : num_scope.
Notation "- x" := (num_neg x) : num_scope.
Infix "<=?" := num_leb : num_scope.
Infix "<?" := num_ltb : num_scope.

(** *** The reals *)

Definition Rleb (x y : R) : bool := if Rle_dec x y then true else false.
Definition Rltb (x y : R) : bool := if Rlt_dec x y then true else false.

#[export] Instance R_arith : Arith R := {|
  zero := 0%R;
  one := 1%R;
  num_add := Rplus;
  num_sub := Rminus;
  num_mul := Rmult;
  num_div := Rdiv;
  num_neg := Ropp;
  num_leb := Rleb;
  num_ltb := Rltb;
  np_maximum := Rmax;
  np_minimum := Rmin;
  np_sqrt := R_sqrt.sqrt;
  np_isfinite := fun _ => true;
  of_nat := INR;
  decimal := fun m e => (IZR m / 10 ^ e)%R
|}.

#[export] Instance R_transcendental : Transcendental R := {|
  np_exp := exp;
  np_log := ln
|}.

(** *** Binary64 floats *)

Definition float_of_Z (z : Z) : PrimFloat.float :=
  if (z <? 0)%Z then PrimFloat.opp (PrimFloat.of_uint63 (Uint63.of_Z (- z)))
  else PrimFloat.of_uint63 (Uint63.of_Z z).

(** [np.maximum] and [np.minimum] propagate NaN. *)
Definition float_maximum (x y : PrimFloat.float) : PrimFloat.float :=
  if PrimFloat.is_nan x then x
  else if PrimFloat.is_nan y then y
  else if PrimFloat.ltb x y then y else x.

Definition float_minimum (x y : PrimFloat.float) : PrimFloat.float :=
  if PrimFloat.is_nan x then x
  else if PrimFloat.is_nan y then y
  else if PrimFloat.ltb y x then y else x.

#[export] Instance float_arith : Arith PrimFloat.float := {|
  zero := PrimFloat.zero;
  one := PrimFloat.one;
  num_add := PrimFloat.add;
  num_sub := PrimFloat.sub;
  num_mul := PrimFloat.mul;
  num_div := PrimFloat.div;
  num_neg := PrimFloat.opp;
  num_leb := PrimFloat.leb;
  num_ltb := PrimFloat.ltb;
  np_maximum := float_maximum;
  np_minimum := float_minimum;
  np_sqrt := PrimFloat.sqrt;
  np_isfinite := PrimFloat.is_finite;
  of_nat := fun n => float_of_Z (Z.of_nat n);
  decimal := fun m e => PrimFloat.div (float_of_Z m) (float_of_Z (10 ^ Z.of_nat e))
|}.

(** ** Arrays *)

Record ndarray (num : Type) : Type := mk_ndarray {
  nrows : nat;
  ncols : nat;
  data : list (list num)
}.
Arguments mk_ndarray {num} nrows ncols data.
Arguments nrows {num} _.
Arguments ncols {num} _.
Arguments data {num} _.

Section Arrays.
Context {num : Type} `{Arith num}.

Definition shape (A : ndarray num) : nat * nat := (nrows A, ncols A).

Definition shape_eqb (s t : nat * nat) : bool :=
  (fst s =? fst t) && (snd s =? snd t).

(** [A[i, j]] for indices in range. *)
Definition item (A : ndarray num) (i j : nat) : num :=
  nth j (nth i (data A) []) zero.

(** The array of shape [(r, c)] whose entry at [(i, j)] is [f i j]. *)
Definition fromfunction (r c : nat) (f : nat -> nat -> num) : ndarray num :=
  mk_ndarray r c (map (fun i => map (fun j => f i j) (seq 0 c)) (seq 0 r)).

(** The rows have the lengths the shape announces. *)
Definition wf (A : ndarray num) : Prop :=
  length (data A) = nrows A /\ Forall (fun row => length row = ncols A) (data A).

(** [f 0 + f 1 + ... + f (n-1)], starting from 0. *)
Definition sum_upto (n : nat) (f : nat -> num) : num :=
  fold_left num_add (map f (seq 0 n)) zero.

Definition np_zeros (r c : nat) : ndarray num :=
  fromfunction r c (fun _ _ => zero).

(** [A.T] *)
Definition transpose (A : ndarray num) : ndarray num :=
  fromfunction (ncols A) (nrows A) (fun i j => item A j i).

(** Entrywise application, and a Python scalar combined with an array. *)
Definition np_map (f : num -> num) (A : ndarray num) : ndarray num :=
  fromfunction (nrows A) (ncols A) (fun i j => f (item A i j)).

(** numpy's broadcasting rule for one axis. *)
Definition broadcast_dim (a b : nat) : result nat :=
  if a =? b then Ok a
  else if a =? 1 then Ok b
  else if b =? 1 then Ok a
  else Raise ValueError.

Definition broadcast_index (a i : nat) : nat := if a =? 1 then 0 else i.

(** A binary entrywise operation on two arrays, with broadcasting. *)
Definition broadcast (f : num -> num -> num) (A B : ndarray num)
  : result (ndarray num) :=
  r ← broadcast_dim (nrows A) (nrows B) ;
  c ← broadcast_dim (ncols A) (ncols B);
  Ok (fromfunction r c (fun i j =>
        f (item A (broadcast_index (nrows A) i) (broadcast_index (ncols A) j))
          (item B (broadcast_index (nrows B) i) (broadcast_index (ncols B) j)))).

(** [np.dot(A, B)] on matrices. *)
Definition np_dot (A B : ndarray num) : result (ndarray num) :=
  if ncols A =? nrows B then
    Ok (fromfunction (nrows A) (ncols B) (fun i j =>
          sum_upto (ncols A) (fun k => (item A i k * item B k j)%num)))
  else Raise ValueError.

(** [np.sum(A, axis=0)]: the column sums, a one dimensional array. *)
Definition np_sum_axis0 (A : ndarray num) : ndarray num :=
  fromfunction 1 (ncols A) (fun _ j => sum_upto (nrows A) (fun i => item A i j)).

(** [np.sum(A, axis=1, keepdims=True)]: the row sums, as a column. *)
Definition np_sum_axis1_keepdims (A : ndarray num) : ndarray num :=
  fromfunction (nrows A) 1 (fun i _ => sum_upto (ncols A) (fun j => item A i j)).

(** [np.sum(A)] *)
Definition np_sum (A : ndarray num) : num :=
  sum_upto (nrows A) (fun i => sum_upto (ncols A) (fun j => item A i j)).

End Arrays.

(** ** Python containers and loops *)

(** [l[i]] for a non-negative index. *)
Definition getitem {A : Type} (l : list A) (i : nat) : result A :=
  match l !! i with
  | Some x => Ok x
  | None => Raise IndexError
  end.

(** [d[k]] *)
Definition dict_get {V : Type} (d : gmap string V) (k : string) : result V :=
  match d !! k with
  | Some v => Ok v
  | None => Raise KeyError
  end.

(** [for i in l: s = body(i, s)], leaving the loop at the first exception. *)
Fixpoint for_in {I S : Type} (l : list I) (body : I -> S -> result S) (s : S)
  : result S :=
  match l with
  | [] => Ok s
  | i :: l' => s' ← body i s; for_in l' body s'
  end.

(** [range(a, b)] *)
Definition range (a b : nat) : list nat := seq a (b - a).

(** [str(i)] *)
Definition str (i : nat) : string := pretty i.

(** ** Random numbers *)

(** The state of numpy's global generator.  [random_sample] draws one number
    of the half-open unit interval and steps the generator. *)
Class RandomState (num rng : Type) : Type := {
  random_sample : rng -> num * rng
}.

(** ** Forward propagation *)

(** The tag of an activation; the program passes the strings ["softmax"]
    and ["relu"] and no other. *)
Inductive activation : Set := Softmax | Relu.

(** The tuples [(A, W, b)] and [((A, W, b), Z)] kept for the backward pass. *)
Abbreviation linear_cache num :=
  (prod (prod (ndarray num) (ndarray num)) (ndarray num)).
Abbreviation cache num := (prod (linear_cache num) (ndarray num)).

Section Forward.
Context {num : Type} `{Arith num} `{Transcendental num}.

Local Abbreviation array := (ndarray num).
Local Abbreviation params := (gmap string (ndarray num)).


Section Initialize.
Context {rng : Type} `{RandomState num rng}.

(** [n] successive draws. *)
Fixpoint random_samples (n : nat) (g : rng) : list num * rng :=
  match n with
  | O => ([], g)
  | S n' =>
      let (u, g1) := random_sample g in
      let (us, g2) := random_samples n' g1 in
      (u :: us, g2)
  end.

(** [np.random.uniform(low, high, (r, c))]: the array is filled in row
    order with [low + (high - low) * u] for successive draws [u]; numpy
    rejects a range that is not finite. *)
Definition np_random_uniform (low high : num) (r c : nat) (g : rng)
  : result (array * rng) :=
  if np_isfinite (high - low)%num then
    let (us, g') := random_samples (r * c) g in
    Ok (fromfunction r c (fun i j =>
          (low + (high - low) * nth (i * c + j) us zero)%num), g')
  else Raise OverflowError.

(** The body of the loop of [initialize_parameters]. *)
Definition initialize_layer (layers_dim : list nat) (i : nat)
    (st : params * rng) : result (params * rng) :=
  let '(W_b_dict, g) := st in
  n ← getitem layers_dim i;
  n_prev ← getitem layers_dim (i - 1);
  let bound := (one / np_sqrt (of_nat n))%num in
  '(W, g') ← np_random_uniform (- bound)%num bound n n_prev g;
  let W_b_dict := <["W" +:+ str i := W]> W_b_dict in
  let W_b_dict := <["b" +:+ str i := np_zeros n 1]> W_b_dict in
  Wi ← dict_get W_b_dict ("W" +:+ str i);
  _ ← assert (shape_eqb (shape Wi) (n, n_prev));
  bi ← dict_get W_b_dict ("b" +:+ str i);
  _ ← assert (shape_eqb (shape bi) (n, 1));
  Ok (W_b_dict, g').

Definition initialize_parameters (layers_dim : list nat) (g : rng)
  : result (params * rng) :=
  for_in (range 1 (length layers_dim)) (initialize_layer layers_dim) (∅, g).

End Initialize.

Definition linear_forward (A W b : array) : result (array * linear_cache num) :=
  WA ← np_dot W A;
  Z ← broadcast num_add WA b;
  _ ← assert (shape_eqb (shape Z) (nrows W, ncols A));
  Ok (Z, (A, W, b)).

(** The column-wise softmax [np.exp(Z) / np.sum(np.exp(Z), axis=0)]. *)
Definition softmax_values (Z : array) : result array :=
  let T := np_map np_exp Z in
  broadcast num_div T (np_sum_axis0 T).

Definition softmax (Z : array) : result (array * array) :=
  A ← softmax_values Z;
  Ok (A, Z).

Definition relu (Z : array) : result (array * array) :=
  let A := np_map (np_maximum zero) Z in
  _ ← assert (shape_eqb (shape A) (shape Z));
  Ok (A, Z).

Definition linear_activation_forward (A_prev W b : array) (act : activation)
  : result (array * cache num) :=
  '(Z, lin_cache) ← linear_forward A_prev W b;
  '(A, activation_cache) ←
      match act with
      | Softmax => softmax Z
      | Relu => relu Z
      end;
  _ ← assert (shape_eqb (shape A) (nrows W, ncols A_prev));
  Ok (A, (lin_cache, activation_cache)).

(** [np.mean(B, axis=0)]: the mean of every column. *)
Definition np_mean_axis0 (B : array) : array :=
  fromfunction 1 (ncols B) (fun _ j =>
    (sum_upto (nrows B) (fun i => item B i j) / of_nat (nrows B))%num).

(** [np.std(B, axis=0)]: the population standard deviation of every column,
    the square root of the mean squared distance to the column's mean. *)
Definition np_std_axis0 (B : array) : array :=
  fromfunction 1 (ncols B) (fun _ j =>
    let mean := item (np_mean_axis0 B) 0 j in
    np_sqrt (sum_upto (nrows B) (fun i =>
               ((item B i j - mean) * (item B i j - mean))%num)
             / of_nat (nrows B))%num).

Definition batchnorm (A : array) : result array :=
  let means := np_mean_axis0 (transpose A) in
  let std_vat := np_std_axis0 (transpose A) in
  centred ← broadcast num_sub (transpose A) means;
  NA ← broadcast num_div centred
         (np_map (fun s => (s + decimal 1 4)%num) std_vat);
  _ ← assert (shape_eqb (shape (transpose NA)) (shape A));
  Ok (transpose NA).

(** The state of the loop over the hidden layers of [L_model_forward]: the
    activations, the caches, and the loop variable [l], which is unbound
    until the loop body has run once. *)
Definition forward_state : Type := array * list (cache num) * option nat.

Definition forward_layer (W_b_dict : params) (use_batchnorm : bool)
    (l : nat) (st : forward_state) : result forward_state :=
  let '(A, caches, _) := st in
  let A_prev := A in
  W ← dict_get W_b_dict ("W" +:+ str l);
  b ← dict_get W_b_dict ("b" +:+ str l);
  '(A, c) ← linear_activation_forward A_prev W b Relu;
  A ← (if use_batchnorm then batchnorm A else Ok A);
  Ok (A, caches ++ [c], Some l).

Definition L_model_forward (X : array) (W_b_dict : params)
    (use_batchnorm : bool) : result (array * list (cache num)) :=
  let layers_num := size W_b_dict / 2 in
  '(A, caches, l) ←
      for_in (range 1 layers_num) (forward_layer W_b_dict use_batchnorm)
             (X, [], None);
  l ← match l with
      | Some l => Ok l
      | None => Raise UnboundLocalError
      end;
  W ← dict_get W_b_dict ("W" +:+ str (l + 1));
  b ← dict_get W_b_dict ("b" +:+ str (l + 1));
  '(AL, c) ← linear_activation_forward A W b Softmax;
  let caches := caches ++ [c] in
  W ← dict_get W_b_dict ("W" +:+ str (l + 1));
  _ ← assert (shape_eqb (shape AL) (nrows W, ncols X));
  Ok (AL, caches).

(** [np.clip(A, lo, hi)] *)
Definition np_clip (A : array) (lo hi : num) : array :=
  np_map (fun a => np_minimum (np_maximum a lo) hi) A.

Definition epsilon : num := decimal 1 10.

Definition compute_cost (AL Y : array) : result num :=
  _ ← assert (shape_eqb (shape AL) (shape Y));
  let pred := np_clip AL epsilon (one - epsilon)%num in
  let m := ncols Y in
  if m =? 0 then Raise ZeroDivisionError
  else
    P ← broadcast num_mul Y (np_map np_log pred);
    Ok ((- one / of_nat m) * np_sum P)%num.

End Forward.

(** ** Backward propagation *)

Section Backward.
Context {num : Type} `{Arith num} `{Transcendental num}.

Local Abbreviation array := (ndarray num).
Local Abbreviation params := (gmap string (ndarray num)).

(** A Python scalar times an array. *)
Definition scale (s : num) (A : array) : array := np_map (fun a => (s * a)%num) A.

Definition linear_backward (dZ : array) (c : linear_cache num)
  : result (array * array * array) :=
  let '(A_prev, W, b) := c in
  let m := ncols A_prev in
  dA_prev ← np_dot (transpose W) dZ;
  if m =? 0 then Raise ZeroDivisionError
  else
    let inv_m := (one / of_nat m)%num in
    dZA ← np_dot dZ (transpose A_prev);
    let dW := scale inv_m dZA in
    let db := scale inv_m (np_sum_axis1_keepdims dZ) in
    _ ← assert (shape_eqb (shape dA_prev) (shape A_prev));
    _ ← assert (shape_eqb (shape dW) (shape W));
    _ ← assert (shape_eqb (shape db) (shape b));
    Ok (dA_prev, dW, db).

(** [dA[activation_cache <= 0] = 0; return dA].  The mask must have the
    shape of [dA].  The assignment overwrites the caller's array; the value
    returned is that same array. *)
Definition relu_backward (dA activation_cache : array) : result array :=
  if shape_eqb (shape dA) (shape activation_cache) then
    Ok (fromfunction (nrows dA) (ncols dA) (fun i j =>
          if (item activation_cache i j <=? zero)%num then zero
          else item dA i j))
  else Raise IndexError.

Definition softmax_backward (dA activation_cache : array) : result array :=
  let Z := activation_cache in
  A ← softmax_values Z;
  dA_A ← broadcast num_mul dA A;
  dZ ← broadcast num_mul dA_A (np_map (fun a => (one - a)%num) A);
  _ ← assert (shape_eqb (shape dZ) (shape Z));
  Ok dZ.

Definition linear_activation_backward (dA : array) (c : cache num)
    (act : activation) : result (array * array * array) :=
  let '(lin_cache, activation_cache) := c in
  dZ ← match act with
       | Relu => relu_backward dA activation_cache
       | Softmax => softmax_backward dA activation_cache
       end;
  linear_backward dZ lin_cache.

(** [Y.reshape((r, c))]: the entries of [Y] in row order, cut into [r] rows. *)
Definition reshape (Y : array) (r c : nat) : result array :=
  if nrows Y * ncols Y =? r * c then
    Ok (fromfunction r c (fun i j =>
          let k := i * c + j in item Y (k / ncols Y) (k mod ncols Y)))
  else Raise ValueError.

(** The gradient of the cost with respect to [AL] that starts the backward
    pass: [- (np.divide(Y, AL) - np.divide(1 - Y, 1 - AL))]. *)
Definition output_gradient (AL Y : array) : result array :=
  Y_AL ← broadcast num_div Y AL;
  R ← broadcast num_div (np_map (fun y => (one - y)%num) Y)
                        (np_map (fun a => (one - a)%num) AL);
  D ← broadcast num_sub Y_AL R;
  Ok (np_map num_neg D).

(** [caches[-1]] *)
Definition last_item {A : Type} (l : list A) : result A :=
  match last l with
  | Some x => Ok x
  | None => Raise IndexError
  end.

(** The body of the loop of [L_model_backward].  The array stored under
    ["dA" + str(i + 2)] is handed to [relu_backward], which overwrites it:
    once the call has returned, the dictionary holds the masked array. *)
Definition backward_layer (caches : list (cache num)) (i : nat)
    (grads : params) : result params :=
  last_cache ← getitem caches i;
  dA ← dict_get grads ("dA" +:+ str (i + 2));
  '(dA_prev_temp, dW_temp, db_temp) ←
      linear_activation_backward dA last_cache Relu;
  masked ← relu_backward dA (snd last_cache);
  let grads := <["dA" +:+ str (i + 2) := masked]> grads in
  let grads := <["dA" +:+ str (i + 1) := dA_prev_temp]> grads in
  let grads := <["dW" +:+ str (i + 1) := dW_temp]> grads in
  let grads := <["db" +:+ str (i + 1) := db_temp]> grads in
  Ok grads.

Definition L_model_backward (AL Y : array) (caches : list (cache num))
  : result params :=
  let num_layers := length caches in
  Y ← reshape Y (nrows AL) (ncols AL);
  dAL ← output_gradient AL Y;
  last_cache ← last_item caches;
  '(dA, dW, db) ← linear_activation_backward dAL last_cache Softmax;
  let grads := <["dA" +:+ str num_layers := dA]> (∅ : params) in
  let grads := <["dW" +:+ str num_layers := dW]> grads in
  let grads := <["db" +:+ str num_layers := db]> grads in
  for_in (rev (range 0 (num_layers - 1))) (backward_layer caches) grads.

(** The body of the loop of [update_parameters]. *)
Definition update_layer (grads : params) (learning_rate : num) (L2_norm : bool)
    (l : nat) (W_b_dict : params) : result params :=
  W_b_dict ←
    (if L2_norm then
       W ← dict_get W_b_dict ("W" +:+ str l);
       dW ← dict_get grads ("dW" +:+ str l);
       W' ← dict_get W_b_dict ("W" +:+ str l);
       G ← broadcast num_add dW (scale learning_rate W');
       W_new ← broadcast num_sub W (scale learning_rate G);
       Ok (<["W" +:+ str l := W_new]> W_b_dict)
     else
       W ← dict_get W_b_dict ("W" +:+ str l);
       dW ← dict_get grads ("dW" +:+ str l);
       W_new ← broadcast num_sub W (scale learning_rate dW);
       Ok (<["W" +:+ str l := W_new]> W_b_dict));
  b ← dict_get W_b_dict ("b" +:+ str l);
  db ← dict_get grads ("db" +:+ str l);
  b_new ← broadcast num_sub b (scale learning_rate db);
  Ok (<["b" +:+ str l := b_new]> W_b_dict).

Definition update_parameters (W_b_dict grads : params) (learning_rate : num)
    (L2_norm : bool) : result params :=
  let len_layers := size W_b_dict / 2 in
  for_in (range 1 (len_layers + 1)) (update_layer grads learning_rate L2_norm)
         W_b_dict.

End Backward.

(** ** Prediction and training *)

Section Trainer.
Context {num : Type} `{Arith num} `{Transcendental num}.

Local Abbreviation array := (ndarray num).
Local Abbreviation params := (gmap string (ndarray num)).

(** The index of the first largest value among [f 0 .. f (n - 1)], scanning
    from [best] on (for values that are not NaN). *)
Fixpoint argmax_scan (f : nat -> num) (best i n : nat) : nat :=
  match n with
  | O => best
  | S n' => argmax_scan f (if (f best <? f i)%num then i else best) (S i) n'
  end.

(** [np.argmax(A, keepdims=True, axis=0)], a row of indices. *)
Definition np_argmax_axis0 (A : array) : result (list nat) :=
  if nrows A =? 0 then Raise ValueError
  else Ok (map (fun j => argmax_scan (fun i => item A i j) 0 1 (nrows A - 1))
               (seq 0 (ncols A))).

(** [np.sum(p == y)] for two rows of indices, with broadcasting. *)
Definition count_equal (p y : list nat) : result nat :=
  c ← broadcast_dim (length p) (length y);
  Ok (length (filter (fun j =>
        nth (broadcast_index (length p) j) p 0
        =? nth (broadcast_index (length y) j) y 0) (seq 0 c))).

Definition predict (X Y : array) (W_b_dict : params) (use_batchnorm : bool)
  : result num :=
  let N_sampels := ncols X in
  '(probs, _) ← L_model_forward X W_b_dict use_batchnorm;
  p ← np_argmax_axis0 probs;
  y ← np_argmax_axis0 Y;
  correct ← count_equal p y;
  Ok (of_nat correct / of_nat N_sampels)%num.

(** *** The loop over the epochs

    The loop of [L_layer_model] over [range(num_iterations)], for any
    training pass over the batches and any validation score.  The result is
    the state after the last pass, the flag [stop_sign], and the number of
    passes made. *)
Section Epochs.
Context {state : Type}.
Variable train_batches : state -> result state.
Variable validation_accuracy : state -> result num.

Definition threshold : num := decimal 1 8.

Fixpoint epoch_loop (num_iterations : nat) (st : state) (prev_accuracy : num)
  : result (state * bool * nat) :=
  match num_iterations with
  | O => Ok (st, false, 0)
  | S n =>
      st ← train_batches st;
      current_accuracy ← validation_accuracy st;
      if (current_accuracy - prev_accuracy <? threshold)%num
      then Ok (st, true, 1)
      else
        '(st', stop_sign, passes) ← epoch_loop n st current_accuracy;
        Ok (st', stop_sign, S passes)
  end.

End Epochs.

(** *** The training pass *)

(** What the loops carry: the parameters, the count of batches and the
    recorded costs. *)
Record training_state : Type := mk_training_state {
  W_b_dict_of : params;
  batch_so_far : nat;
  costs : list num
}.

(** The cost that is recorded: with [L2_norm], [(learning_rate / 2) *
    np.sum(w * w)] is added for every weight matrix. *)
Definition logged_cost (AL Y : array) (W_b_dict : params) (layers_dims : list nat)
    (learning_rate : num) (L2_norm : bool) : result num :=
  cost ← compute_cost AL Y;
  if L2_norm then
    for_in (range 0 (length layers_dims - 1)) (fun k cost =>
      w ← dict_get W_b_dict ("W" +:+ str (k + 1));
      ww ← broadcast num_mul w w;
      Ok (cost + (learning_rate / of_nat 2) * np_sum ww)%num) cost
  else Ok cost.

Definition train_batch (X_batches Y_batches : list array) (layers_dims : list nat)
    (learning_rate : num) (use_batchnorm L2_norm : bool) (j : nat)
    (st : training_state) : result training_state :=
  X_j ← getitem X_batches j;
  '(AL, caches) ← L_model_forward X_j (W_b_dict_of st) use_batchnorm;
  Y_j ← getitem Y_batches j;
  grads ← L_model_backward AL Y_j caches;
  W_b_dict ← update_parameters (W_b_dict_of st) grads learning_rate L2_norm;
  let batch_so_far := batch_so_far st + 1 in
  if batch_so_far mod 100 =? 0 then
    Y_j ← getitem Y_batches j;
    cost ← logged_cost AL Y_j W_b_dict layers_dims learning_rate L2_norm;
    Ok (mk_training_state W_b_dict batch_so_far (costs st ++ [cost]))
  else Ok (mk_training_state W_b_dict batch_so_far (costs st)).

Definition train_epoch (X_batches Y_batches : list array) (layers_dims : list nat)
    (learning_rate : num) (use_batchnorm L2_norm : bool)
    (st : training_state) : result training_state :=
  for_in (range 0 (length X_batches))
         (train_batch X_batches Y_batches layers_dims learning_rate
                      use_batchnorm L2_norm) st.

(** [L_layer_model] from the point where the data has been split and cut
    into batches: [X], [Y] are the whole data, [X_val], [Y_val] the held-out
    part, and the batches are those of the training part, all with one
    sample per column.  The result adds the flag [stop_sign] and the number
    of passes to what the program returns.  The closing report reads the
    loop variable [i], which only the loop that cuts the batches and the
    loop over the epochs bind. *)
Definition L_layer_model {rng : Type} `{RandomState num rng}
    (X Y X_val Y_val : array) (X_batches Y_batches : list array)
    (layers_dims : list nat) (learning_rate : num) (num_iterations : nat)
    (use_batchnorm L2_norm : bool) (g : rng)
  : result (params * list num * num * num * bool * nat) :=
  '(W_b_dict, _) ← initialize_parameters layers_dims g;
  '(st, stop_sign, passes) ←
      epoch_loop
        (train_epoch X_batches Y_batches layers_dims learning_rate
                     use_batchnorm L2_norm)
        (fun st => predict X_val Y_val (W_b_dict_of st) use_batchnorm)
        num_iterations (mk_training_state W_b_dict 0 []) zero;
  training_accuracy ← predict X Y (W_b_dict_of st) use_batchnorm;
  val_accuracy ← predict X_val Y_val (W_b_dict_of st) use_batchnorm;
  if (length X_batches =? 0) && (num_iterations =? 0) then Raise UnboundLocalError
  else
    Ok (W_b_dict_of st, costs st, training_accuracy, val_accuracy, stop_sign, passes).

End Trainer.

(** * The vocabulary of the specification

    What the specification says the program computes, entry by entry, to be
    compared with what the program computes. *)

(** ** The formulas of the backward pass *)

Section Formulas.
Context {num : Type} `{Arith num} `{Transcendental num}.

(** [dAL = -(Y/AL - (1-Y)/(1-AL))], entrywise. *)
Definition dAL_formula (AL Y : ndarray num) : ndarray num :=
  fromfunction (nrows AL) (ncols AL) (fun i j =>
    (- (item Y i j / item AL i j
        - (one - item Y i j) / (one - item AL i j)))%num).

(** The column-wise softmax: [A[i, j] = exp(Z[i, j]) / sum_k exp(Z[k, j])]. *)
Definition softmax_formula (Z : ndarray num) : ndarray num :=
  fromfunction (nrows Z) (ncols Z) (fun i j =>
    (np_exp (item Z i j) / sum_upto (nrows Z) (fun k => np_exp (item Z k j)))%num).

(** [dZ = dA * A * (1 - A)], entrywise, with [A] the softmax of [Z]. *)
Definition surrogate_formula (dA Z : ndarray num) : ndarray num :=
  fromfunction (nrows Z) (ncols Z) (fun i j =>
    (item dA i j * item (softmax_formula Z) i j
     * (one - item (softmax_formula Z) i j))%num).

(** The gradient that has passed the ReLU: 0 where [Z <= 0]. *)
Definition relu_mask (dA Z : ndarray num) : ndarray num :=
  fromfunction (nrows dA) (ncols dA) (fun i j =>
    if (item Z i j <=? zero)%num then zero else item dA i j).

End Formulas.

(** ** The formulas of the forward pass *)

Section ForwardFormulas.
Context {num : Type} `{Arith num}.

(** [Z = W . A + b], the bias repeated over the samples. *)
Definition linear_formula (A W b : ndarray num) : ndarray num :=
  fromfunction (nrows W) (ncols A) (fun i j =>
    (sum_upto (ncols W) (fun k => item W i k * item A k j) + item b i 0)%num).

(** The population mean and standard deviation of row [i] over the batch. *)
Definition row_mean (A : ndarray num) (i : nat) : num :=
  (sum_upto (ncols A) (fun j => item A i j) / of_nat (ncols A))%num.

Definition row_std (A : ndarray num) (i : nat) : num :=
  np_sqrt (sum_upto (ncols A) (fun j =>
             (item A i j - row_mean A i) * (item A i j - row_mean A i))
           / of_nat (ncols A))%num.

(** [(row - mean) / (std + 1e-4)], row by row. *)
Definition batchnorm_formula (A : ndarray num) : ndarray num :=
  fromfunction (nrows A) (ncols A) (fun i j =>
    ((item A i j - row_mean A i) / (row_std A i + decimal 1 4))%num).

End ForwardFormulas.

(** ** The layers of a forward pass *)

Section ForwardLayers.
Context {num : Type} `{Arith num} `{Transcendental num}.

(** [hidden_layers W_b_dict use_batchnorm l A caches A']: starting at layer
    [l] with input [A], the hidden layers yield [caches] and hand [A'] to the
    layer after them.  Each layer caches its input, its parameters and the
    pre-activation [Z = W . A + b], and passes on [maximum(0, Z)], normalised
    when [use_batchnorm] is set. *)
Inductive hidden_layers (W_b_dict : gmap string (ndarray num))
    (use_batchnorm : bool)
  : nat -> ndarray num -> list (cache num) -> ndarray num -> Prop :=
  | hidden_done (l : nat) (A : ndarray num) :
      hidden_layers W_b_dict use_batchnorm l A [] A
  | hidden_layer (l : nat) (A W b Z A_next A_last : ndarray num)
        (caches : list (cache num)) :
      W_b_dict !! ("W" +:+ str l) = Some W ->
      W_b_dict !! ("b" +:+ str l) = Some b ->
      linear_forward A W b = Ok (Z, (A, W, b)) ->
      (if use_batchnorm then batchnorm (np_map (np_maximum zero) Z)
       else Ok (np_map (np_maximum zero) Z)) = Ok A_next ->
      hidden_layers W_b_dict use_batchnorm (S l) A_next caches A_last ->
      hidden_layers W_b_dict use_batchnorm l A (((A, W, b), Z) :: caches) A_last.

(** A whole forward pass over [L] layers: [L - 1] hidden layers, then the
    output layer, whose softmax is not normalised. *)
Definition forward_pass (W_b_dict : gmap string (ndarray num))
    (use_batchnorm : bool) (L : nat) (X AL : ndarray num)
    (caches : list (cache num)) : Prop :=
  exists hidden A W b Z,
    caches = hidden ++ [((A, W, b), Z)] /\
    length hidden = L - 1 /\
    hidden_layers W_b_dict use_batchnorm 1 X hidden A /\
    W_b_dict !! ("W" +:+ str L) = Some W /\
    W_b_dict !! ("b" +:+ str L) = Some b /\
    linear_forward A W b = Ok (Z, (A, W, b)) /\
    AL = softmax_formula Z.

End ForwardLayers.

(** ** Parameter dictionaries *)

Section Layers.
Context {num : Type} `{Arith num}.

(** A dictionary that holds exactly ["W1", "b1", ..., "WL", "bL"]. *)
Definition layered (L : nat) (W_b_dict : gmap string (ndarray num)) : Prop :=
  size W_b_dict = 2 * L /\
  forall l, 1 <= l <= L ->
    is_Some (W_b_dict !! ("W" +:+ str l)) /\ is_Some (W_b_dict !! ("b" +:+ str l)).

(** The gradients of the layers [1..L] are present and shaped like the
    parameters they belong to. *)
Definition gradients_for (L : nat) (W_b_dict grads : gmap string (ndarray num))
  : Prop :=
  forall l W b, 1 <= l <= L ->
    W_b_dict !! ("W" +:+ str l) = Some W ->
    W_b_dict !! ("b" +:+ str l) = Some b ->
    exists dW db,
      grads !! ("dW" +:+ str l) = Some dW /\ grads !! ("db" +:+ str l) = Some db /\
      shape dW = shape W /\ shape db = shape b.

(** [W - learning_rate * dW], and with the L2 term
    [W - learning_rate * dW - learning_rate^2 * W]. *)
Definition updated_weight (learning_rate : num) (L2_norm : bool)
    (W dW : ndarray num) : ndarray num :=
  fromfunction (nrows W) (ncols W) (fun i j =>
    if L2_norm then
      (item W i j - learning_rate * item dW i j
       - learning_rate * learning_rate * item W i j)%num
    else (item W i j - learning_rate * item dW i j)%num).

(** [b - learning_rate * db] *)
Definition updated_bias (learning_rate : num) (b db : ndarray num) : ndarray num :=
  fromfunction (nrows b) (ncols b) (fun i j =>
    (item b i j - learning_rate * item db i j)%num).

End Layers.

(** ** Initial parameters *)

Section Draws.
Context {rng : Type} `{RandomState R rng}.

(** The state of the generator when the weights of layer [i] are drawn:
    layer 1 draws first, and every layer makes [units_i * units_(i-1)]
    draws. *)
Fixpoint generator_at (layers_dim : list nat) (g : rng) (i : nat) : rng :=
  match i with
  | S (S k as i') =>
      snd (random_samples (num := R)
             (nth i' layers_dim 0 * nth k layers_dim 0)
             (generator_at layers_dim g i'))
  | _ => g
  end.

(** Weights of shape [(n, n_prev)], filled in row order with
    [low + (high - low) * u] for the successive draws [u] of the generator,
    where [high = 1/sqrt(n)] and [low = - high]. *)
Definition uniform_weights (n n_prev : nat) (g : rng) : ndarray R :=
  fromfunction n n_prev (fun r c =>
    (- (1 / sqrt (INR n)) + (1 / sqrt (INR n) - - (1 / sqrt (INR n)))
       * nth (r * n_prev + c) (fst (random_samples (n * n_prev) g)) 0)%R).

(** What [initialize_parameters] leaves for layer [i]: the weights drawn
    for [(units_i, units_(i-1))] from the generator as the layers before
    have left it, and a bias of zeros, of shape [(units_i, 1)]. *)
Definition initialized_layer (layers_dim : list nat) (g : rng)
    (W_b_dict : gmap string (ndarray R)) (i : nat) : Prop :=
  exists n n_prev W b,
    layers_dim !! i = Some n /\ layers_dim !! (i - 1) = Some n_prev /\
    W_b_dict !! ("W" +:+ str i) = Some W /\
    W_b_dict !! ("b" +:+ str i) = Some b /\
    W = uniform_weights n n_prev (generator_at layers_dim g i) /\
    shape W = (n, n_prev) /\
    b = np_zeros n 1 /\ shape b = (n, 1).

End Draws.

(** The weights of layer [i] have the shape [(units_i, units_(i-1))] and
    every entry lies between [-1/sqrt(units_i)] and [1/sqrt(units_i)]. *)
Definition weights_in_range (layers_dim : list nat)
    (W_b_dict : gmap string (ndarray R)) (i : nat) : Prop :=
  exists n n_prev W,
    layers_dim !! i = Some n /\ layers_dim !! (i - 1) = Some n_prev /\
    W_b_dict !! ("W" +:+ str i) = Some W /\
    shape W = (n, n_prev) /\
    forall r c, r < n -> c < n_prev ->
      (- (1 / sqrt (INR n)) <= item W r c <= 1 / sqrt (INR n))%R.

(** ** Labels and the cost *)

(** Every column of [Y] has a single 1 and 0 elsewhere. *)
Definition one_hot (Y : ndarray R) : Prop :=
  forall j, j < ncols Y ->
    exists c, c < nrows Y /\
      forall i, i < nrows Y -> item Y i j = if i =? c then 1%R else 0%R.

(** [-(1/m) * sum(Y * log(clip(AL, 1e-10, 1 - 1e-10)))] *)
Definition cross_entropy_formula (AL Y : ndarray R) : R :=
  (- (1 / INR (ncols Y)) *
   sum_upto (nrows Y) (fun i => sum_upto (ncols Y) (fun j =>
     item Y i j * ln (Rmin (Rmax (item AL i j) (1 / 10 ^ 10)) (1 - 1 / 10 ^ 10)))))%R.

(** The prediction that gives every one of [k] classes the probability
    [1/k], on [m] samples. *)
Definition uniform_prediction (k m : nat) : ndarray R :=
  fromfunction k m (fun _ _ => (1 / INR k)%R).

(** ** The trainer *)

Section Synthetic.
Context {num : Type} `{Arith num}.

(** The test of the loop on the scores after passes [s - 1] and [s]. *)
Definition small_gain (accs : nat -> num) (s : nat) : bool :=
  (accs s - accs (s - 1)%nat <? threshold)%num.

(** A synthetic trainer: a training pass that only counts the passes made,
    and a validation score read off a list, the [k]-th entry after pass
    [k]. *)
Definition synthetic_pass (k : nat) : result nat := Ok (S k).

Definition synthetic_score (scores : list num) (k : nat) : result num :=
  getitem scores (k - 1).

(** The sequence [0.10, 0.50, 0.50000000005]. *)
Definition synthetic_scores : list num :=
  [decimal 10 2; decimal 50 2; decimal 50000000005 11].

End Synthetic.

(** The score after [k] synthetic passes, 0 before the first. *)
Definition synthetic_accs (k : nat) : R :=
  match k with
  | O => 0%R
  | S k' => nth k' synthetic_scores 0%R
  end.

(** Every row [i] of [A] moved by the constant [c i]. *)
Definition shift_rows (c : nat -> R) (A : ndarray R) : ndarray R :=
  fromfunction (nrows A) (ncols A) (fun i j => (item A i j + c i)%R).

(** ** Shapes along the network *)

Section WellShaped.
Context {num : Type} `{Arith num}.

(** Parameters with the shapes that the layer widths prescribe: the keys of
    the layers [1 .. len(layers_dim) - 1] and no other, with ["W" + str(l)]
    of shape [(layers_dim[l], layers_dim[l-1])] and ["b" + str(l)] of shape
    [(layers_dim[l], 1)]. *)
Definition well_shaped (layers_dim : list nat)
    (W_b_dict : gmap string (ndarray num)) : Prop :=
  layered (length layers_dim - 1) W_b_dict /\
  forall l n n_prev, 1 <= l ->
    layers_dim !! l = Some n -> layers_dim !! (l - 1) = Some n_prev ->
    exists W b,
      W_b_dict !! ("W" +:+ str l) = Some W /\ W_b_dict !! ("b" +:+ str l) = Some b /\
      shape W = (n, n_prev) /\ shape b = (n, 1).

(** A cache that the backward step accepts, for a batch of [m] samples. *)
Definition cache_ready (m : nat) (c : cache num) : Prop :=
  ncols (fst (fst (fst c))) = m /\
  ncols (snd (fst (fst c))) = nrows (fst (fst (fst c))) /\
  shape (snd c) = (nrows (snd (fst (fst c))), m) /\
  shape (snd (fst c)) = (nrows (snd (fst (fst c))), 1).

(** Every cached input has the shape of the pre-activation of the layer
    before. *)
Definition caches_chained (caches : list (cache num)) : Prop :=
  forall i c c', caches !! i = Some c -> caches !! S i = Some c' ->
    shape (fst (fst (fst c'))) = shape (snd c).

(** The gradients of the layers from [first + 1] on are in the dictionary,
    each with the shape of what it is the gradient of. *)
Definition gradients_stored (caches : list (cache num))
    (grads : gmap string (ndarray num)) (first : nat) : Prop :=
  forall i A W b Z, first <= i -> caches !! i = Some ((A, W, b), Z) ->
    exists dA dW db,
      grads !! ("dA" +:+ str (i + 1)) = Some dA /\ shape dA = shape A /\
      grads !! ("dW" +:+ str (i + 1)) = Some dW /\ shape dW = shape W /\
      grads !! ("db" +:+ str (i + 1)) = Some db /\ shape db = shape b.

(** A batch for a network of the widths [layers_dim]: [n0] features and
    [nL] classes on the same [m > 0] samples. *)
Definition batch_for (layers_dim : list nat) (X Y : ndarray num) : Prop :=
  exists n0 nL,
    layers_dim !! 0 = Some n0 /\ last layers_dim = Some nL /\
    shape X = (n0, ncols X) /\ shape Y = (nL, ncols X) /\ ncols X <> 0.

End WellShaped.

(** ** The chain of gradients without normalisation *)

Section Chain.
Context {num : Type} `{Arith num} `{Transcendental num}.

(** [W.T . dZ] *)
Definition dA_prev_formula (dZ W : ndarray num) : ndarray num :=
  fromfunction (ncols W) (ncols dZ) (fun i j =>
    sum_upto (nrows W) (fun k => (item W k i * item dZ k j)%num)).

(** [(1/m) * dZ . A_prev.T], with [m] the number of columns of [A_prev]. *)
Definition dW_formula (dZ A_prev : ndarray num) : ndarray num :=
  fromfunction (nrows dZ) (nrows A_prev) (fun i j =>
    (one / of_nat (ncols A_prev) *
     sum_upto (ncols A_prev) (fun k => (item dZ i k * item A_prev j k)%num))%num).

(** [(1/m) *] the row sums of [dZ], as a column. *)
Definition db_formula (dZ A_prev : ndarray num) : ndarray num :=
  fromfunction (nrows dZ) 1 (fun i _ =>
    (one / of_nat (ncols A_prev) *
     sum_upto (ncols A_prev) (fun k => item dZ i k))%num).

(** The gradients with respect to the pre-activations of a plain network
    of ReLU layers under a softmax, one per cache, read off the caches
    alone: for the last layer [dAL * A * (1 - A)] on the cached [Z]; for
    every layer below, the gradient [W'.T . dZ'] that the layer above hands
    down, set to 0 where the layer's own cached [Z] is not positive.  No
    term stands for a normalisation between the layers. *)
Fixpoint unnormalized_chain (AL Y : ndarray num) (caches : list (cache num))
    {struct caches} : list (ndarray num) :=
  match caches with
  | [] => []
  | c :: above =>
      match above with
      | [] => [surrogate_formula (dAL_formula AL Y) (snd c)]
      | c' :: _ =>
          match unnormalized_chain AL Y above with
          | [] => []
          | dZ' :: dZs =>
              relu_mask (dA_prev_formula dZ' (snd (fst (fst c')))) (snd c)
              :: dZ' :: dZs
          end
      end
  end.

(** The dictionary holds, for every layer, the gradients of the plain
    chain: ["dW"] and ["db"] of the layer's [dZ] and cached input; under
    ["dA"] what the layer hands down, which for every layer but the first
    has been overwritten by the [dZ] of the layer below. *)
Definition unnormalized_gradients (AL Y : ndarray num)
    (caches : list (cache num)) (grads : gmap string (ndarray num)) : Prop :=
  forall i A W b Z, caches !! i = Some ((A, W, b), Z) ->
    exists dZ,
      unnormalized_chain AL Y caches !! i = Some dZ /\
      grads !! ("dW" +:+ str (i + 1)) = Some (dW_formula dZ A) /\
      grads !! ("db" +:+ str (i + 1)) = Some (db_formula dZ A) /\
      (i = 0 -> grads !! ("dA" +:+ str (i + 1)) = Some (dA_prev_formula dZ W)) /\
      (forall k, i = S k ->
         grads !! ("dA" +:+ str (i + 1)) = unnormalized_chain AL Y caches !! k).

(** The same while the loop of the backward pass is at layer [first + 1]:
    the layers from there on are done, each [dZ] has the shape of its
    cached [Z], and what layer [first + 1] hands down is still as
    [linear_backward] returned it. *)
Definition gradients_chained (AL Y : ndarray num) (caches : list (cache num))
    (first : nat) (grads : gmap string (ndarray num)) : Prop :=
  forall i A W b Z, first <= i -> caches !! i = Some ((A, W, b), Z) ->
    exists dZ,
      unnormalized_chain AL Y caches !! i = Some dZ /\ shape dZ = shape Z /\
      grads !! ("dW" +:+ str (i + 1)) = Some (dW_formula dZ A) /\
      grads !! ("db" +:+ str (i + 1)) = Some (db_formula dZ A) /\
      (i = first -> grads !! ("dA" +:+ str (i + 1)) = Some (dA_prev_formula dZ W)) /\
      (forall k, i = S k -> first <= k ->
         grads !! ("dA" +:+ str (i + 1)) = unnormalized_chain AL Y caches !! k).

End Chain.

(** * Sample data *)

(** A generator: its state counts the draws, and the [n]-th draw is
    [1 / (n + 2)]. *)
#[export] Instance counting_generator : RandomState R nat := {|
  random_sample := fun n => ((1 / (INR n + 2))%R, S n)
|}.

Definition sample_dA : ndarray R :=
  mk_ndarray 2 2 [[1; 2]; [3; 4]]%R.

Definition sample_Z : ndarray R :=
  mk_ndarray 2 2 [[-1; 0]; [1 / 2; 2]]%R.

Definition sample_b : ndarray R :=
  mk_ndarray 2 1 [[1]; [1]]%R.

Definition sample_AL : ndarray R :=
  mk_ndarray 2 2 [[1 / 2; 1 / 4]; [1 / 2; 3 / 4]]%R.

Definition sample_Y : ndarray R :=
  mk_ndarray 2 2 [[1; 0]; [0; 1]]%R.

Definition sample_cache : cache R :=
  ((sample_dA, sample_dA, sample_b), sample_Z).

(** The parameters and the gradients of a single layer. *)
Definition sample_params : gmap string (ndarray R) :=
  <["W1" := sample_dA]> (<["b1" := sample_b]> ∅).

Definition sample_grads : gmap string (ndarray R) :=
  <["dW1" := sample_Z]> (<["db1" := sample_b]> ∅).

(** A network of two layers and one forward pass through it, with batch
    normalisation. *)
Definition sample_X : ndarray R :=
  mk_ndarray 2 2 [[1; 2]; [3; 5]]%R.

Definition sample_network : gmap string (ndarray R) :=
  <["W1" := sample_dA]> (<["b1" := sample_b]>
    (<["W2" := sample_Z]> (<["b2" := sample_b]> ∅))).

Definition sample_Z1 : ndarray R := linear_formula sample_X sample_dA sample_b.

Definition sample_A1 : ndarray R :=
  batchnorm_formula (np_map (np_maximum zero) sample_Z1).

Definition sample_Z2 : ndarray R := linear_formula sample_A1 sample_Z sample_b.

Definition sample_output : ndarray R := softmax_formula sample_Z2.

Definition sample_caches : list (cache R) :=
  [((sample_X, sample_dA, sample_b), sample_Z1);
   ((sample_A1, sample_Z, sample_b), sample_Z2)].

(** Gradients for the two layers, and the state of a trainer that starts on
    the network. *)
Definition sample_network_grads : gmap string (ndarray R) :=
  <["dW1" := sample_Z]> (<["db1" := sample_b]>
    (<["dW2" := sample_dA]> (<["db2" := sample_b]> ∅))).

Definition sample_state : training_state (num := R) :=
  mk_training_state sample_network 99 [].





(** One feature that is 0 on both samples of a batch, as a unit that never
    fires leaves it. *)
Definition constant_row : ndarray R := mk_ndarray 1 2 [[0; 0]]%R.

(** Labels and prediction for a single class and a single sample. *)
Definition single_class : ndarray R := mk_ndarray 1 1 [[1]]%R.

(** The same small arrays in binary64, to run the model. *)
Definition float_dA : ndarray PrimFloat.float :=
  mk_ndarray 2 2 [[1; 2]; [3; 4]]%float.

Definition float_Z : ndarray PrimFloat.float :=
  mk_ndarray 2 2 [[-1; 0]; [0.5; 2]]%float.

Definition float_b : ndarray PrimFloat.float :=
  mk_ndarray 2 1 [[1]; [1]]%float.

(** * Properties *)

(** ** Running the model in binary64 *)

Example relu_backward_run :
  relu_backward float_dA float_Z = Ok (mk_ndarray 2 2 [[0; 0]; [3; 4]]%float).
Proof. vm_compute. reflexivity. Qed.

Example linear_backward_run :
  linear_backward float_dA (float_dA, float_Z, float_b)
  = Ok (mk_ndarray 2 2 [[0.5; 0]; [6; 8]]%float,
        mk_ndarray 2 2 [[2.5; 5.5]; [5.5; 12.5]]%float,
        mk_ndarray 2 1 [[1.5]; [3.5]]%float).
Proof. vm_compute. reflexivity. Qed.

Example update_parameters_run :
  (W_b_dict ←
     update_parameters (<["W1" := float_dA]> (<["b1" := float_b]> ∅))
                       (<["dW1" := float_Z]> (<["db1" := float_b]> ∅))
                       0.5%float true;
   Ok (W_b_dict !! "W1", W_b_dict !! "b1"))
  = Ok (Some (mk_ndarray 2 2 [[1.25; 1.5]; [2; 2]]%float),
        Some (mk_ndarray 2 1 [[0.5]; [0.5]]%float)).
Proof. vm_compute. reflexivity. Qed.

Example batchnorm_run :
  batchnorm (mk_ndarray 1 2 [[0; 0]]%float) = Ok (mk_ndarray 1 2 [[0; 0]]%float).
Proof. vm_compute. reflexivity. Qed.

(** ** Arrays *)

Section ArrayFacts.
Context {num : Type} `{Arith num}.

Lemma nth_map_seq {A : Type} (f : nat -> A) (n i : nat) (d : A) :
  i < n -> nth i (map f (seq 0 n)) d = f i.
Proof.
  intros Hi.
  rewrite (nth_indep _ d (f 0)) by (rewrite length_map, length_seq; exact Hi).
  rewrite (map_nth f (seq 0 n) 0 i), seq_nth by exact Hi.
  reflexivity.
Qed.

Lemma item_fromfunction (r c : nat) (f : nat -> nat -> num) (i j : nat) :
  i < r -> j < c -> item (fromfunction r c f) i j = f i j.
Proof.
  intros Hi Hj. unfold item, fromfunction. simpl.
  rewrite (nth_map_seq (fun i => map (fun j => f i j) (seq 0 c))) by exact Hi.
  apply nth_map_seq. exact Hj.
Qed.

Lemma fromfunction_ext (r c : nat) (f g : nat -> nat -> num) :
  (forall i j, i < r -> j < c -> f i j = g i j) ->
  fromfunction r c f = fromfunction r c g.
Proof.
  intros Hfg. unfold fromfunction. f_equal.
  apply map_ext_in. intros i Hi. apply in_seq in Hi.
  apply map_ext_in. intros j Hj. apply in_seq in Hj.
  apply Hfg; lia.
Qed.

Lemma wf_fromfunction (r c : nat) (f : nat -> nat -> num) :
  wf (fromfunction r c f).
Proof.
  split; simpl.
  - rewrite length_map, length_seq. reflexivity.
  - apply List.Forall_forall. intros row Hrow.
    apply in_map_iff in Hrow as (i & <- & _).
    rewrite length_map, length_seq. reflexivity.
Qed.

Lemma shape_eqb_eq (s t : nat * nat) : shape_eqb s t = true <-> s = t.
Proof.
  destruct s as [a b], t as [c d]. unfold shape_eqb. simpl.
  rewrite andb_true_iff, !Nat.eqb_eq. split.
  - intros [-> ->]. reflexivity.
  - intros [= -> ->]. split; reflexivity.
Qed.

Lemma shape_eqb_refl (s : nat * nat) : shape_eqb s s = true.
Proof. apply shape_eqb_eq. reflexivity. Qed.

Lemma shape_fromfunction (r c : nat) (f : nat -> nat -> num) :
  shape (fromfunction r c f) = (r, c).
Proof. reflexivity. Qed.

Lemma shape_np_zeros (r c : nat) : shape (np_zeros (num := num) r c) = (r, c).
Proof. reflexivity. Qed.

Lemma sum_upto_S (n : nat) (f : nat -> num) :
  sum_upto (S n) f = (sum_upto n f + f n)%num.
Proof.
  unfold sum_upto. rewrite seq_S, map_app, fold_left_app. reflexivity.
Qed.

Lemma sum_upto_ext (n : nat) (f g : nat -> num) :
  (forall k, k < n -> f k = g k) -> sum_upto n f = sum_upto n g.
Proof.
  intros Hfg. unfold sum_upto. f_equal.
  apply map_ext_in. intros k Hk. apply in_seq in Hk. apply Hfg. lia.
Qed.

Lemma broadcast_dim_same (a : nat) : broadcast_dim a a = Ok a.
Proof. unfold broadcast_dim. rewrite Nat.eqb_refl. reflexivity. Qed.

Lemma broadcast_index_lt (a i : nat) : i < a -> broadcast_index a i < a.
Proof. unfold broadcast_index. destruct (a =? 1) eqn:E; lia. Qed.

Lemma broadcast_index_same (a i : nat) : i < a -> broadcast_index a i = i.
Proof.
  unfold broadcast_index. destruct (a =? 1) eqn:E; [|reflexivity].
  apply Nat.eqb_eq in E. lia.
Qed.

(** Two arrays of one shape combine entry by entry. *)
Lemma broadcast_same_shape (f : num -> num -> num) (A B : ndarray num) :
  shape A = shape B ->
  broadcast f A B =
    Ok (fromfunction (nrows A) (ncols A) (fun i j => f (item A i j) (item B i j))).
Proof.
  intros [= Hr Hc]. unfold broadcast. rewrite <- Hr, <- Hc, !broadcast_dim_same.
  simpl. f_equal. apply fromfunction_ext. intros i j Hi Hj.
  rewrite !broadcast_index_same by assumption. reflexivity.
Qed.

(** A matrix combined with a column: the column is repeated. *)
Lemma broadcast_column (f : num -> num -> num) (A b : ndarray num) :
  shape b = (nrows A, 1) ->
  broadcast f A b =
    Ok (fromfunction (nrows A) (ncols A) (fun i j => f (item A i j) (item b i 0))).
Proof.
  intros [= Hr Hc]. unfold broadcast. rewrite Hr, Hc, broadcast_dim_same.
  assert (Hd : broadcast_dim (ncols A) 1 = Ok (ncols A)).
  { unfold broadcast_dim. destruct (ncols A =? 1) eqn:E.
    - apply Nat.eqb_eq in E. rewrite E. reflexivity.
    - reflexivity. }
  rewrite Hd. simpl. f_equal. apply fromfunction_ext. intros i j Hi Hj.
  rewrite !broadcast_index_same by assumption. reflexivity.
Qed.

(** A matrix combined with a one dimensional array: the row is repeated. *)
Lemma broadcast_row (f : num -> num -> num) (A b : ndarray num) :
  shape b = (1, ncols A) ->
  broadcast f A b =
    Ok (fromfunction (nrows A) (ncols A) (fun i j => f (item A i j) (item b 0 j))).
Proof.
  intros [= Hr Hc]. unfold broadcast. rewrite Hr, Hc, broadcast_dim_same.
  assert (Hd : broadcast_dim (nrows A) 1 = Ok (nrows A)).
  { unfold broadcast_dim. destruct (nrows A =? 1) eqn:E.
    - apply Nat.eqb_eq in E. rewrite E. reflexivity.
    - reflexivity. }
  rewrite Hd. simpl. f_equal. apply fromfunction_ext. intros i j Hi Hj.
  rewrite !broadcast_index_same by assumption. reflexivity.
Qed.

End ArrayFacts.

(** ** Activation gradients *)

Section ActivationFacts.
Context {num : Type} `{Arith num} `{Transcendental num}.

Lemma relu_backward_ok (dA Z : ndarray num) :
  shape dA = shape Z ->
  relu_backward dA Z =
    Ok (fromfunction (nrows dA) (ncols dA) (fun i j =>
          if (item Z i j <=? zero)%num then zero else item dA i j)).
Proof.
  intros Hs. unfold relu_backward. rewrite Hs, shape_eqb_refl. reflexivity.
Qed.

Lemma relu_backward_shape (dA Z dZ : ndarray num) :
  relu_backward dA Z = Ok dZ -> shape dA = shape Z /\ shape dZ = shape dA.
Proof.
  unfold relu_backward. destruct (shape_eqb (shape dA) (shape Z)) eqn:E.
  - intros [= <-]. apply shape_eqb_eq in E. split; [exact E | reflexivity].
  - discriminate.
Qed.

End ActivationFacts.

Lemma Rleb_le (x y : R) : Rleb x y = true <-> (x <= y)%R.
Proof. unfold Rleb. destruct (Rle_dec x y); split; intros; try easy. Qed.

Lemma Rltb_lt (x y : R) : Rltb x y = true <-> (x < y)%R.
Proof. unfold Rltb. destruct (Rlt_dec x y); split; intros; try easy. Qed.

(** C3: for a gradient [dA] and a cached pre-activation [Z] of the same
    shape, [relu_backward] returns an array of that shape whose entry is 0
    wherever [Z <= 0] (the boundary [Z = 0] included) and the entry of [dA]
    everywhere else. *)
Theorem relu_backward_zeroes (dA Z : ndarray R) :
  shape dA = shape Z ->
  exists dZ : ndarray R,
    relu_backward dA Z = Ok dZ /\ shape dZ = shape dA /\
    forall i j, i < nrows dA -> j < ncols dA ->
      ((item Z i j <= 0)%R -> item dZ i j = 0%R) /\
      ((0 < item Z i j)%R -> item dZ i j = item dA i j).
Proof.
  intros Hs. eexists. split; [apply relu_backward_ok; exact Hs|].
  split; [reflexivity|]. intros i j Hi Hj.
  rewrite item_fromfunction by assumption. simpl.
  destruct (Rleb (item Z i j) 0) eqn:E.
  - split; [reflexivity|]. apply Rleb_le in E. intros Hpos. lra.
  - split; [|reflexivity]. intros Hle. apply Rleb_le in Hle. congruence.
Qed.

Lemma relu_backward_zeroes_witness :
  exists dZ : ndarray R,
    relu_backward sample_dA sample_Z = Ok dZ /\ shape dZ = shape sample_dA /\
    forall i j, i < nrows sample_dA -> j < ncols sample_dA ->
      ((item sample_Z i j <= 0)%R -> item dZ i j = 0%R) /\
      ((0 < item sample_Z i j)%R -> item dZ i j = item sample_dA i j).
Proof. apply (relu_backward_zeroes sample_dA sample_Z). reflexivity. Defined.

(** ** The linear layer *)

Section LinearFacts.
Context {num : Type} `{Arith num}.

Lemma item_transpose (A : ndarray num) (i j : nat) :
  i < ncols A -> j < nrows A -> item (transpose A) i j = item A j i.
Proof.
  intros Hi Hj. unfold transpose.
  rewrite item_fromfunction by assumption. reflexivity.
Qed.

Lemma np_dot_ok (A B : ndarray num) :
  ncols A = nrows B ->
  np_dot A B =
    Ok (fromfunction (nrows A) (ncols B) (fun i j =>
          sum_upto (ncols A) (fun k => (item A i k * item B k j)%num))).
Proof. intros Hs. unfold np_dot. rewrite Hs, Nat.eqb_refl. reflexivity. Qed.

Lemma scale_fromfunction (s : num) (r c : nat) (f : nat -> nat -> num) :
  scale s (fromfunction r c f) = fromfunction r c (fun i j => (s * f i j)%num).
Proof.
  unfold scale, np_map. simpl. apply fromfunction_ext. intros i j Hi Hj.
  rewrite item_fromfunction by assumption. reflexivity.
Qed.

(** Whatever [linear_backward] returns has the shapes of the cached
    operands: the three assertions have passed. *)
Lemma linear_backward_shapes (dZ A_prev W b dA_prev dW db : ndarray num) :
  linear_backward dZ (A_prev, W, b) = Ok (dA_prev, dW, db) ->
  shape dA_prev = shape A_prev /\ shape dW = shape W /\ shape db = shape b.
Proof.
  unfold linear_backward.
  destruct (np_dot (transpose W) dZ) as [dA|] eqn:E1; [|discriminate]. simpl.
  destruct (ncols A_prev =? 0); [discriminate|].
  destruct (np_dot dZ (transpose A_prev)) as [dZA|] eqn:E2; [|discriminate]. simpl.
  destruct (shape_eqb (shape dA) (shape A_prev)) eqn:S1; [|discriminate]. simpl.
  destruct (shape_eqb _ (shape W)) eqn:S2; [|discriminate]. simpl.
  destruct (shape_eqb _ (shape b)) eqn:S3; [|discriminate]. simpl.
  intros [= <- <- <-].
  apply shape_eqb_eq in S1, S2, S3. auto.
Qed.

End LinearFacts.

(** C2: for a gradient [dZ] and a cache [(A_prev, W, b)] of matching shapes,
    with [m > 0] the number of columns of [A_prev], [linear_backward] returns
    [dA_prev = W.T . dZ], [dW = (1/m) * dZ . A_prev.T] and [db = (1/m) *] the
    row sums of [dZ], with the shapes of [A_prev], [W] and [b]. *)
Theorem linear_backward_formulas {num : Type} `{Arith num}
    (dZ A_prev W b : ndarray num) :
  ncols A_prev <> 0 ->
  shape dZ = (nrows W, ncols A_prev) ->
  ncols W = nrows A_prev ->
  shape b = (nrows W, 1) ->
  linear_backward dZ (A_prev, W, b) =
    Ok (fromfunction (nrows A_prev) (ncols A_prev) (fun i j =>
          sum_upto (nrows W) (fun k => (item W k i * item dZ k j)%num)),
        fromfunction (nrows W) (ncols W) (fun i j =>
          (one / of_nat (ncols A_prev) *
           sum_upto (ncols A_prev) (fun k => (item dZ i k * item A_prev j k)%num))%num),
        fromfunction (nrows b) (ncols b) (fun i _ =>
          (one / of_nat (ncols A_prev) *
           sum_upto (ncols A_prev) (fun k => item dZ i k))%num)).
Proof.
  intros Hm [= HdZr HdZc] HW [= Hbr Hbc]. unfold linear_backward.
  rewrite np_dot_ok by (simpl; congruence). simpl.
  destruct (ncols A_prev =? 0) eqn:Em; [apply Nat.eqb_eq in Em; contradiction|].
  rewrite np_dot_ok by (simpl; congruence). simpl.
  rewrite scale_fromfunction.
  unfold np_sum_axis1_keepdims. rewrite scale_fromfunction.
  unfold shape. simpl.
  rewrite HdZc, HW, HdZr, <- Hbr, <- Hbc, !shape_eqb_refl. simpl.
  do 3 f_equal.
  - apply fromfunction_ext. intros i j Hi Hj.
    apply sum_upto_ext. intros k Hk.
    rewrite item_transpose by lia. reflexivity.
  - apply fromfunction_ext. intros i j Hi Hj.
    f_equal. apply sum_upto_ext. intros k Hk.
    rewrite item_transpose by lia. reflexivity.
Qed.

Lemma linear_backward_formulas_witness :
  linear_backward sample_dA (sample_dA, sample_Z, sample_b) =
    Ok (fromfunction 2 2 (fun i j =>
          sum_upto 2 (fun k => (item sample_Z k i * item sample_dA k j)%num)),
        fromfunction 2 2 (fun i j =>
          (one / of_nat 2 *
           sum_upto 2 (fun k => (item sample_dA i k * item sample_dA j k)%num))%num),
        fromfunction 2 1 (fun i _ =>
          (one / of_nat 2 * sum_upto 2 (fun k => item sample_dA i k))%num)).
Proof.
  apply (linear_backward_formulas sample_dA sample_dA sample_Z sample_b);
    [discriminate | reflexivity | reflexivity | reflexivity].
Defined.

(** ** The output gradient and the softmax step *)

Section SoftmaxFacts.
Context {num : Type} `{Arith num} `{Transcendental num}.

Lemma softmax_values_ok (Z : ndarray num) :
  softmax_values Z = Ok (softmax_formula Z).
Proof.
  unfold softmax_values.
  rewrite broadcast_row by reflexivity. simpl.
  f_equal. apply fromfunction_ext. intros i j Hi Hj.
  unfold np_sum_axis0, np_map. simpl.
  rewrite !item_fromfunction by (assumption || lia).
  f_equal. apply sum_upto_ext. intros k Hk.
  rewrite item_fromfunction by assumption. reflexivity.
Qed.

Lemma softmax_backward_ok (dA Z : ndarray num) :
  shape dA = shape Z ->
  softmax_backward dA Z = Ok (surrogate_formula dA Z).
Proof.
  intros Hs. unfold softmax_backward. rewrite softmax_values_ok. simpl.
  rewrite broadcast_same_shape by (rewrite Hs; reflexivity). simpl.
  unfold shape in Hs. injection Hs as Hr Hc.
  rewrite broadcast_same_shape by (unfold shape; simpl; congruence). simpl.
  unfold shape. simpl. rewrite Hr, Hc, shape_eqb_refl. simpl.
  f_equal. apply fromfunction_ext. intros i j Hi Hj.
  unfold np_map. simpl.
  rewrite !item_fromfunction by assumption.
  reflexivity.
Qed.

Lemma output_gradient_ok (AL Y : ndarray num) :
  shape Y = shape AL ->
  output_gradient AL Y = Ok (dAL_formula AL Y).
Proof.
  intros Hs. unfold output_gradient. unfold shape in Hs. injection Hs as Hr Hc.
  rewrite !broadcast_same_shape by (unfold shape; simpl; congruence). simpl.
  rewrite broadcast_same_shape by reflexivity. simpl.
  f_equal. unfold np_map, dAL_formula. simpl. rewrite Hr, Hc.
  apply fromfunction_ext. intros i j Hi Hj.
  rewrite !item_fromfunction by (assumption || congruence).
  reflexivity.
Qed.

(** Reshaping to the shape the array already has keeps every entry. *)
Lemma reshape_same_shape (Y : ndarray num) :
  reshape Y (nrows Y) (ncols Y) =
    Ok (fromfunction (nrows Y) (ncols Y) (fun i j => item Y i j)).
Proof.
  unfold reshape. rewrite Nat.eqb_refl. f_equal.
  apply fromfunction_ext. intros i j Hi Hj. simpl.
  rewrite Nat.div_add_l, Nat.div_small, Nat.add_0_r by lia.
  rewrite Nat.add_comm, Nat.Div0.mod_add, Nat.mod_small by lia.
  reflexivity.
Qed.

Lemma dAL_formula_ext (AL Y Y' : ndarray num) :
  (forall i j, i < nrows AL -> j < ncols AL -> item Y i j = item Y' i j) ->
  dAL_formula AL Y = dAL_formula AL Y'.
Proof.
  intros HY. apply fromfunction_ext. intros i j Hi Hj.
  rewrite HY by assumption. reflexivity.
Qed.

End SoftmaxFacts.

(** C1: for an output [AL] and labels [Y] of the same shape, the backward
    pass starts from [dAL = -(Y/AL - (1-Y)/(1-AL))], entrywise, and the
    softmax step returns [dZ = dAL * A * (1 - A)] with [A] the column-wise
    softmax recomputed from the cached [Z]; the gradients of the last layer
    are [linear_backward] of that [dZ]. *)
Theorem backward_starts_with_surrogate {num : Type} `{Arith num}
    `{Transcendental num} (AL Y Z : ndarray num)
    (lin : linear_cache num) (caches : list (cache num)) :
  shape Y = shape AL ->
  shape Z = shape AL ->
  last caches = Some (lin, Z) ->
  output_gradient AL Y = Ok (dAL_formula AL Y) /\
  softmax_backward (dAL_formula AL Y) Z
    = Ok (surrogate_formula (dAL_formula AL Y) Z) /\
  L_model_backward AL Y caches =
    ('(dA, dW, db) ← linear_backward (surrogate_formula (dAL_formula AL Y) Z) lin;
     for_in (rev (range 0 (length caches - 1))) (backward_layer caches)
       (<["db" +:+ str (length caches) := db]>
          (<["dW" +:+ str (length caches) := dW]>
             (<["dA" +:+ str (length caches) := dA]> ∅)))).
Proof.
  intros HY HZ Hlast.
  assert (Hsoft : softmax_backward (dAL_formula AL Y) Z
                  = Ok (surrogate_formula (dAL_formula AL Y) Z)).
  { apply softmax_backward_ok. rewrite HZ. reflexivity. }
  split; [apply output_gradient_ok; exact HY|].
  split; [exact Hsoft|].
  unfold L_model_backward.
  unfold shape in HY. injection HY as Hr Hc.
  rewrite <- Hr, <- Hc, reshape_same_shape. simpl.
  rewrite output_gradient_ok by (unfold shape; simpl; congruence). simpl.
  rewrite (dAL_formula_ext AL _ Y).
  2:{ intros i j Hi Hj. rewrite item_fromfunction by congruence. reflexivity. }
  unfold last_item. rewrite Hlast. simpl.
  rewrite Hsoft. simpl.
  destruct (linear_backward _ lin) as [[[dA dW] db]|]; reflexivity.
Qed.

Lemma backward_starts_with_surrogate_witness :
  output_gradient sample_AL sample_Y = Ok (dAL_formula sample_AL sample_Y) /\
  softmax_backward (dAL_formula sample_AL sample_Y) sample_Z
    = Ok (surrogate_formula (dAL_formula sample_AL sample_Y) sample_Z) /\
  L_model_backward sample_AL sample_Y [sample_cache] =
    ('(dA, dW, db) ←
        linear_backward (surrogate_formula (dAL_formula sample_AL sample_Y) sample_Z)
                        (sample_dA, sample_dA, sample_b);
     for_in (rev (range 0 (length [sample_cache] - 1)))
       (backward_layer [sample_cache])
       (<["db" +:+ str (length [sample_cache]) := db]>
          (<["dW" +:+ str (length [sample_cache]) := dW]>
             (<["dA" +:+ str (length [sample_cache]) := dA]> ∅)))).
Proof.
  apply (backward_starts_with_surrogate sample_AL sample_Y sample_Z
           (sample_dA, sample_dA, sample_b) [sample_cache]); reflexivity.
Defined.

(** ** Dictionary keys *)

Lemma str_inj (i j : nat) : str i = str j -> i = j.
Proof. unfold str. apply pretty_nat_inj. Qed.

Lemma key_inj (p : string) (i j : nat) : p +:+ str i = p +:+ str j -> i = j.
Proof.
  intros E. apply str_inj. revert E. induction p as [|a p IH]; simpl.
  - trivial.
  - intros [= E]. apply IH. exact E.
Qed.

Lemma key_W_b (i j : nat) : "W" +:+ str i <> "b" +:+ str j.
Proof. simpl. discriminate. Qed.

Lemma key_b_W (i j : nat) : "b" +:+ str i <> "W" +:+ str j.
Proof. simpl. discriminate. Qed.

Lemma key_ne (p : string) (i j : nat) : i <> j -> p +:+ str i <> p +:+ str j.
Proof. intros Hne E. apply Hne. eapply key_inj. exact E. Qed.

Lemma dict_get_Some {V : Type} (d : gmap string V) (k : string) (v : V) :
  d !! k = Some v -> dict_get d k = Ok v.
Proof. intros E. unfold dict_get. rewrite E. reflexivity. Qed.

Lemma for_in_cons {I S : Type} (i : I) (l : list I) (body : I -> S -> result S)
    (s : S) :
  for_in (i :: l) body s = (s' ← body i s; for_in l body s').
Proof. reflexivity. Qed.

Lemma range_S (a n : nat) : range a (a + n) = seq a n.
Proof. unfold range. f_equal. lia. Qed.

(** ** The optimizer step *)

Section UpdateFacts.

Local Open Scope R_scope.

Lemma update_layer_ok (grads W_b_dict : gmap string (ndarray R))
    (learning_rate : R) (L2_norm : bool) (l : nat) (W b dW db : ndarray R) :
  W_b_dict !! ("W" +:+ str l) = Some W ->
  W_b_dict !! ("b" +:+ str l) = Some b ->
  grads !! ("dW" +:+ str l) = Some dW ->
  grads !! ("db" +:+ str l) = Some db ->
  shape dW = shape W ->
  shape db = shape b ->
  update_layer grads learning_rate L2_norm l W_b_dict =
    Ok (<["b" +:+ str l := updated_bias learning_rate b db]>
          (<["W" +:+ str l := updated_weight learning_rate L2_norm W dW]> W_b_dict)).
Proof.
  intros HW Hb HdW Hdb HsW Hsb. unfold update_layer.
  unfold shape in HsW, Hsb. injection HsW as HWr HWc. injection Hsb as Hbr Hbc.
  assert (EW :
    (if L2_norm then
       W0 ← dict_get W_b_dict ("W" +:+ str l);
       dW0 ← dict_get grads ("dW" +:+ str l);
       W' ← dict_get W_b_dict ("W" +:+ str l);
       G ← broadcast num_add dW0 (scale learning_rate W');
       W_new ← broadcast num_sub W0 (scale learning_rate G);
       Ok (<["W" +:+ str l := W_new]> W_b_dict)
     else
       W0 ← dict_get W_b_dict ("W" +:+ str l);
       dW0 ← dict_get grads ("dW" +:+ str l);
       W_new ← broadcast num_sub W0 (scale learning_rate dW0);
       Ok (<["W" +:+ str l := W_new]> W_b_dict))
    = Ok (<["W" +:+ str l := updated_weight learning_rate L2_norm W dW]> W_b_dict)).
  { rewrite (dict_get_Some _ _ _ HW), (dict_get_Some _ _ _ HdW).
    destruct L2_norm; simpl.
    - rewrite broadcast_same_shape by (unfold shape; simpl; congruence). simpl.
      rewrite broadcast_same_shape by (unfold shape; simpl; congruence). simpl.
      do 3 f_equal. unfold updated_weight.
      apply fromfunction_ext. intros i j Hi Hj.
      unfold scale, np_map. simpl.
      rewrite !item_fromfunction by congruence. simpl. ring.
    - rewrite broadcast_same_shape by (unfold shape; simpl; congruence). simpl.
      do 3 f_equal. unfold updated_weight.
      apply fromfunction_ext. intros i j Hi Hj.
      unfold scale, np_map. simpl.
      rewrite !item_fromfunction by congruence. reflexivity. }
  rewrite EW. simpl.
  assert (Hb' : <["W" +:+ str l := updated_weight learning_rate L2_norm W dW]>
                  W_b_dict !! ("b" +:+ str l) = Some b).
  { rewrite lookup_insert_ne by apply key_W_b. exact Hb. }
  rewrite (dict_get_Some _ _ _ Hb'), (dict_get_Some _ _ _ Hdb). simpl.
  rewrite broadcast_same_shape by (unfold shape; simpl; congruence). simpl.
  do 3 f_equal. unfold updated_bias.
  apply fromfunction_ext. intros i j Hi Hj.
  unfold scale, np_map. simpl.
  rewrite !item_fromfunction by congruence. reflexivity.
Qed.

End UpdateFacts.

Section UpdateLoop.
Variables (grads : gmap string (ndarray R)) (learning_rate : R) (L2_norm : bool).

(** The loop of [update_parameters] over any layers, each visited once:
    every visited layer is rewritten by the rule, every other key is kept. *)
Lemma update_loop (ls : list nat) :
  forall W_b_dict : gmap string (ndarray R),
  NoDup ls ->
  (forall l, l ∈ ls -> exists W b dW db,
     W_b_dict !! ("W" +:+ str l) = Some W /\ W_b_dict !! ("b" +:+ str l) = Some b /\
     grads !! ("dW" +:+ str l) = Some dW /\ grads !! ("db" +:+ str l) = Some db /\
     shape dW = shape W /\ shape db = shape b) ->
  exists W_b_dict',
    for_in ls (update_layer grads learning_rate L2_norm) W_b_dict = Ok W_b_dict' /\
    (forall l W dW, l ∈ ls ->
       W_b_dict !! ("W" +:+ str l) = Some W -> grads !! ("dW" +:+ str l) = Some dW ->
       W_b_dict' !! ("W" +:+ str l) = Some (updated_weight learning_rate L2_norm W dW)) /\
    (forall l b db, l ∈ ls ->
       W_b_dict !! ("b" +:+ str l) = Some b -> grads !! ("db" +:+ str l) = Some db ->
       W_b_dict' !! ("b" +:+ str l) = Some (updated_bias learning_rate b db)) /\
    (forall k, (forall l, l ∈ ls -> k <> "W" +:+ str l /\ k <> "b" +:+ str l) ->
       W_b_dict' !! k = W_b_dict !! k).
Proof.
  induction ls as [|l ls IH]; intros P Hnd Hpre.
  - exists P. simpl. repeat split.
    + intros l W dW Hl. apply elem_of_nil in Hl. contradiction.
    + intros l b db Hl. apply elem_of_nil in Hl. contradiction.
  - apply NoDup_cons in Hnd as [Hl Hnd].
    destruct (Hpre l) as (W & b & dW & db & HW & Hb & HdW & Hdb & HsW & Hsb);
      [apply elem_of_cons; left; reflexivity|].
    pose proof (update_layer_ok grads P learning_rate L2_norm l W b dW db
                  HW Hb HdW Hdb HsW Hsb) as Hstep.
    set (P1 := <["b" +:+ str l := updated_bias learning_rate b db]>
                 (<["W" +:+ str l := updated_weight learning_rate L2_norm W dW]> P))
      in Hstep.
    assert (Hother : forall l', l' <> l ->
              P1 !! ("W" +:+ str l') = P !! ("W" +:+ str l') /\
              P1 !! ("b" +:+ str l') = P !! ("b" +:+ str l')).
    { intros l' Hne. unfold P1. split.
      - rewrite lookup_insert_ne by apply key_b_W.
        rewrite lookup_insert_ne by (apply key_ne; congruence). reflexivity.
      - rewrite lookup_insert_ne by (apply key_ne; congruence).
        rewrite lookup_insert_ne by apply key_W_b. reflexivity. }
    destruct (IH P1 Hnd) as (P' & Hrun & HWs & Hbs & Hrest).
    { intros l' Hl'. assert (Hne : l' <> l) by (intros ->; contradiction).
      destruct (Hother l' Hne) as [EW Eb]. rewrite EW, Eb.
      apply Hpre. apply elem_of_cons. right. exact Hl'. }
    exists P'. simpl. rewrite Hstep. simpl. split; [exact Hrun|].
    assert (Hkeep : forall k, k = "W" +:+ str l \/ k = "b" +:+ str l ->
                    P' !! k = P1 !! k).
    { intros k Hk. apply Hrest. intros l' Hl'.
      assert (Hne : l <> l') by (intros ->; contradiction).
      destruct Hk as [-> | ->]; split;
        first [ apply key_ne; exact Hne | apply key_W_b | apply key_b_W ]. }
    repeat split.
    + intros l' W' dW' Hl' HW' HdW'. apply elem_of_cons in Hl' as [-> | Hl'].
      * rewrite Hkeep by (left; reflexivity). unfold P1.
        rewrite lookup_insert_ne by apply key_b_W. rewrite lookup_insert_eq.
        congruence.
      * assert (Hne : l' <> l) by (intros ->; contradiction).
        apply HWs; [exact Hl' | | exact HdW'].
        destruct (Hother l' Hne) as [EW _]. rewrite EW. exact HW'.
    + intros l' b' db' Hl' Hb' Hdb'. apply elem_of_cons in Hl' as [-> | Hl'].
      * rewrite Hkeep by (right; reflexivity). unfold P1.
        rewrite lookup_insert_eq. congruence.
      * assert (Hne : l' <> l) by (intros ->; contradiction).
        apply Hbs; [exact Hl' | | exact Hdb'].
        destruct (Hother l' Hne) as [_ Eb]. rewrite Eb. exact Hb'.
    + intros k Hk. rewrite Hrest.
      * destruct (Hk l) as [HkW Hkb]; [apply elem_of_cons; left; reflexivity|].
        unfold P1. rewrite !lookup_insert_ne by congruence. reflexivity.
      * intros l' Hl'. apply Hk. apply elem_of_cons. right. exact Hl'.
Qed.

End UpdateLoop.

(** C6: for parameters of [L] layers and gradients of matching shapes,
    [update_parameters] sets every weight matrix to [W - learning_rate * dW]
    without the L2 term and to [W - learning_rate * dW - learning_rate^2 * W]
    with it, and every bias to [b - learning_rate * db] in both cases. *)
Theorem update_parameters_rule (L : nat) (W_b_dict grads : gmap string (ndarray R))
    (learning_rate : R) (L2_norm : bool) :
  layered L W_b_dict ->
  gradients_for L W_b_dict grads ->
  exists W_b_dict',
    update_parameters W_b_dict grads learning_rate L2_norm = Ok W_b_dict' /\
    forall l W b dW db, 1 <= l <= L ->
      W_b_dict !! ("W" +:+ str l) = Some W ->
      W_b_dict !! ("b" +:+ str l) = Some b ->
      grads !! ("dW" +:+ str l) = Some dW ->
      grads !! ("db" +:+ str l) = Some db ->
      W_b_dict' !! ("W" +:+ str l) = Some (updated_weight learning_rate L2_norm W dW) /\
      W_b_dict' !! ("b" +:+ str l) = Some (updated_bias learning_rate b db).
Proof.
  intros [Hsize Hkeys] Hgrads. unfold update_parameters.
  rewrite Hsize, Nat.mul_comm, Nat.div_mul by lia.
  replace (L + 1) with (1 + L) by lia. rewrite range_S.
  destruct (update_loop grads learning_rate L2_norm (seq 1 L) W_b_dict)
    as (P' & Hrun & HWs & Hbs & _).
  - apply NoDup_seq.
  - intros l Hl. apply elem_of_seq in Hl.
    destruct (Hkeys l) as [[W HW] [b Hb]]; [lia|].
    destruct (Hgrads l W b) as (dW & db & HdW & Hdb & HsW & Hsb); [lia | assumption..|].
    exists W, b, dW, db. auto 10.
  - exists P'. split; [exact Hrun|].
    intros l W b dW db Hl HW Hb HdW Hdb.
    assert (Hin : l ∈ seq 1 L) by (apply elem_of_seq; lia).
    split; [eapply HWs | eapply Hbs]; eassumption.
Qed.

Lemma sample_params_layered : layered 1 sample_params.
Proof.
  split; [reflexivity|].
  intros l Hl. assert (l = 1) as -> by lia.
  split; eexists; reflexivity.
Qed.

Lemma sample_grads_match : gradients_for 1 sample_params sample_grads.
Proof.
  intros l W b Hl. assert (l = 1) as -> by lia.
  intros [= <-] [= <-]. exists sample_Z, sample_b.
  repeat split; reflexivity.
Qed.

Lemma update_parameters_rule_witness :
  exists W_b_dict',
    update_parameters sample_params sample_grads (1 / 2)%R true = Ok W_b_dict' /\
    forall l W b dW db, 1 <= l <= 1 ->
      sample_params !! ("W" +:+ str l) = Some W ->
      sample_params !! ("b" +:+ str l) = Some b ->
      sample_grads !! ("dW" +:+ str l) = Some dW ->
      sample_grads !! ("db" +:+ str l) = Some db ->
      W_b_dict' !! ("W" +:+ str l) = Some (updated_weight (1 / 2)%R true W dW) /\
      W_b_dict' !! ("b" +:+ str l) = Some (updated_bias (1 / 2)%R b db).
Proof.
  apply (update_parameters_rule 1 sample_params sample_grads (1 / 2)%R true).
  - exact sample_params_layered.
  - exact sample_grads_match.
Defined.

(** ** The loop over the epochs *)

Section EpochFacts.
Context {num : Type} `{Arith num} {state : Type}.
Variable train_batches : state -> result state.
Variable validation_accuracy : state -> result num.

(** When the passes from the [o]-th state on succeed, the loop ends after
    the first pass whose gain is below the threshold, and after the last
    pass when there is none. *)
Lemma epoch_loop_from (sts : nat -> state) (accs : nat -> num) (N : nat) :
  forall o,
  (forall k, k < N ->
     train_batches (sts (o + k)) = Ok (sts (o + S k)) /\
     validation_accuracy (sts (o + S k)) = Ok (accs (o + S k))) ->
  exists t stop_sign,
    epoch_loop train_batches validation_accuracy N (sts o) (accs o)
      = Ok (sts (o + t), stop_sign, t) /\
    t <= N /\
    (forall s, 1 <= s < t -> small_gain accs (o + s) = false) /\
    (stop_sign = true -> 1 <= t /\ small_gain accs (o + t) = true) /\
    (stop_sign = false ->
       t = N /\ forall s, 1 <= s <= N -> small_gain accs (o + s) = false).
Proof.
  induction N as [|N IH]; intros o Hseq.
  - exists 0, false. simpl. rewrite Nat.add_0_r.
    repeat split; try lia; try discriminate; intros; lia.
  - destruct (Hseq 0) as [Htrain Hval]; [lia|].
    rewrite Nat.add_0_r in Htrain.
    simpl. rewrite Htrain. simpl. rewrite Hval. simpl.
    destruct (accs (o + 1)%nat - accs o <? threshold)%num eqn:Egain.
    + exists 1, true. repeat split; try lia; try discriminate.
      unfold small_gain. replace (o + 1 - 1) with o by lia. exact Egain.
    + destruct (IH (o + 1)) as (t & stop & Hrun & Hle & Hbefore & Hstop & Hnostop).
      { intros k Hk. replace (o + 1 + k) with (o + S k) by lia.
        replace (o + 1 + S k) with (o + S (S k)) by lia.
        apply Hseq. lia. }
      assert (Hshift : forall s, 1 <= s ->
                small_gain accs (o + S s) = small_gain accs (o + 1 + s)).
      { intros s Hs. replace (o + S s) with (o + 1 + s) by lia. reflexivity. }
      assert (Hfirst : small_gain accs (o + 1) = false).
      { unfold small_gain. replace (o + 1 - 1) with o by lia. exact Egain. }
      exists (S t), stop. rewrite Hrun. simpl.
      replace (o + 1 + t) with (o + S t) by lia.
      repeat split; try lia.
      * intros s Hs. destruct (decide (s = 1)) as [-> | Hne]; [exact Hfirst|].
        replace s with (S (s - 1)) by lia. rewrite Hshift by lia.
        apply Hbefore. lia.
      * rewrite Hshift; [apply Hstop; assumption|].
        destruct (Hstop H0) as [Ht _]. exact Ht.
      * destruct (Hnostop H0) as [-> _]. reflexivity.
      * intros s Hs. destruct (Hnostop H0) as [_ Hall].
        destruct (decide (s = 1)) as [-> | Hne]; [exact Hfirst|].
        replace s with (S (s - 1)) by lia. rewrite Hshift by lia.
        apply Hall. lia.
Qed.

End EpochFacts.

Lemma threshold_R : threshold (num := R) = (1 / 10 ^ 8)%R.
Proof. reflexivity. Qed.

Lemma small_gain_test_R (current_accuracy prev_accuracy : R) :
  (current_accuracy - prev_accuracy <? threshold)%num = true
  <-> (current_accuracy - prev_accuracy < 1 / 10 ^ 8)%R.
Proof. rewrite threshold_R. apply Rltb_lt. Qed.

Lemma Rltb_false (x y : R) : (y <= x)%R -> Rltb x y = false.
Proof. intros Hle. unfold Rltb. destruct (Rlt_dec x y); [lra | reflexivity]. Qed.

Lemma Rltb_true (x y : R) : (x < y)%R -> Rltb x y = true.
Proof. apply Rltb_lt. Qed.

Lemma synthetic_gains_R :
  Rltb (10 / 10 ^ 2 - 0) (1 / 10 ^ 8) = false /\
  Rltb (50 / 10 ^ 2 - 10 / 10 ^ 2) (1 / 10 ^ 8) = false /\
  Rltb (50000000005 / 10 ^ 11 - 50 / 10 ^ 2) (1 / 10 ^ 8) = true.
Proof.
  assert (E2 : (10 ^ 2 = 100)%R) by (simpl; lra).
  assert (E8 : (10 ^ 8 = 100000000)%R) by (simpl; lra).
  assert (E11 : (10 ^ 11 = 100000000000)%R) by (simpl; lra).
  rewrite E2, E8, E11.
  split; [|split]; [apply Rltb_false | apply Rltb_false | apply Rltb_true]; lra.
Qed.

Lemma synthetic_run_R (N : nat) :
  epoch_loop synthetic_pass (synthetic_score (num := R) synthetic_scores) N 0 zero
  = Ok (Nat.min N 3, 3 <=? N, Nat.min N 3).
Proof.
  destruct synthetic_gains_R as (G1 & G2 & G3).
  destruct N as [|[|[|N]]]; cbn -[pow Rltb Rdiv Rminus IZR];
    rewrite ?threshold_R; cbn -[pow Rltb Rdiv Rminus IZR];
    rewrite ?G1; cbn -[pow Rltb Rdiv Rminus IZR];
    rewrite ?G2; cbn -[pow Rltb Rdiv Rminus IZR];
    rewrite ?G3; cbn; rewrite ?Nat.min_0_r; reflexivity.
Qed.

Lemma synthetic_run_float (N : nat) :
  epoch_loop synthetic_pass (synthetic_score (num := PrimFloat.float) synthetic_scores)
    N 0 zero
  = Ok (Nat.min N 3, 3 <=? N, Nat.min N 3).
Proof. destruct N as [|[|[|N]]]; cbn; rewrite ?Nat.min_0_r; reflexivity. Qed.

(** C5: after every pass over the batches the loop compares the validation
    score with that of the pass before; it stops, with no further pass, at
    the first pass whose gain is below 1e-8 (a loss included) and runs all
    [num_iterations] passes when there is none.  On the scores
    [0.10, 0.50, 0.50000000005], starting from 0, it stops after the third
    pass and not before, in binary64 as over the reals. *)
Theorem trainer_stops_on_small_gain :
  (forall (num : Type) (A : Arith num) (state : Type)
          (train_batches : state -> result state)
          (validation_accuracy : state -> result num)
          (sts : nat -> state) (accs : nat -> num) (N : nat),
     (forall k, k < N ->
        train_batches (sts k) = Ok (sts (S k)) /\
        validation_accuracy (sts (S k)) = Ok (accs (S k))) ->
     exists t stop_sign,
       epoch_loop train_batches validation_accuracy N (sts 0) (accs 0)
         = Ok (sts t, stop_sign, t) /\
       t <= N /\
       (forall s, 1 <= s < t -> small_gain accs s = false) /\
       (stop_sign = true -> 1 <= t /\ small_gain accs t = true) /\
       (stop_sign = false ->
          t = N /\ forall s, 1 <= s <= N -> small_gain accs s = false)) /\
  (forall current_accuracy prev_accuracy : R,
     (current_accuracy - prev_accuracy <? threshold)%num = true
     <-> (current_accuracy - prev_accuracy < 1 / 10 ^ 8)%R) /\
  (forall N,
     epoch_loop synthetic_pass
       (synthetic_score (num := PrimFloat.float) synthetic_scores) N 0 zero
     = Ok (Nat.min N 3, 3 <=? N, Nat.min N 3)) /\
  (forall N,
     epoch_loop synthetic_pass (synthetic_score (num := R) synthetic_scores) N 0 zero
     = Ok (Nat.min N 3, 3 <=? N, Nat.min N 3)).
Proof.
  split; [|split; [|split]].
  - intros num A state train_batches validation_accuracy sts accs N Hseq.
    apply (epoch_loop_from train_batches validation_accuracy sts accs N 0).
    exact Hseq.
  - exact small_gain_test_R.
  - exact synthetic_run_float.
  - exact synthetic_run_R.
Qed.

Lemma trainer_stops_on_small_gain_witness :
  exists t stop_sign,
    epoch_loop synthetic_pass (synthetic_score (num := R) synthetic_scores) 3
               0 (synthetic_accs 0)
      = Ok (t, stop_sign, t) /\
    t <= 3 /\
    (forall s, 1 <= s < t -> small_gain synthetic_accs s = false) /\
    (stop_sign = true -> 1 <= t /\ small_gain synthetic_accs t = true) /\
    (stop_sign = false ->
       t = 3 /\ forall s, 1 <= s <= 3 -> small_gain synthetic_accs s = false).
Proof.
  apply (proj1 trainer_stops_on_small_gain R R_arith nat synthetic_pass
           (synthetic_score synthetic_scores) (fun k => k) synthetic_accs 3).
  intros k Hk. split; [reflexivity|].
  destruct k as [|[|[|k]]]; [reflexivity | reflexivity | reflexivity | lia].
Defined.

(** ** The forward pass *)

Section ForwardFacts.
Context {num : Type} `{Arith num} `{Transcendental num}.

Lemma single_layer_size (W1 b1 : ndarray num) :
  size (<["W1" := W1]> (<["b1" := b1]> (∅ : gmap string (ndarray num)))) = 2.
Proof.
  rewrite map_size_insert_None.
  - rewrite map_size_insert_None; [reflexivity | apply lookup_empty].
  - rewrite lookup_insert_ne by discriminate. apply lookup_empty.
Qed.

(** With at most one layer the loop over the hidden layers has no pass and
    leaves [l] unbound; the lookup of ["W" + str(l + 1)] raises. *)
Lemma L_model_forward_unbound (X : ndarray num)
    (W_b_dict : gmap string (ndarray num)) (use_batchnorm : bool) :
  size W_b_dict / 2 <= 1 ->
  L_model_forward X W_b_dict use_batchnorm = Raise UnboundLocalError.
Proof.
  intros Hsize. unfold L_model_forward, range.
  replace (size W_b_dict / 2 - 1) with 0 by lia. reflexivity.
Qed.

End ForwardFacts.

(** C8: the forward pass of a network with a single layer, for any input,
    any weights ["W1"] and bias ["b1"] and either setting of the batch
    normalisation, raises [UnboundLocalError]; so does the training step on
    any batch: the cycle of forward pass, backward pass and update does not
    complete. *)
Theorem single_layer_forward_raises {num : Type} `{Arith num}
    `{Transcendental num} (X W1 b1 : ndarray num) (use_batchnorm : bool) :
  L_model_forward X (<["W1" := W1]> (<["b1" := b1]> ∅)) use_batchnorm
  = Raise UnboundLocalError /\
  forall (X_batches Y_batches : list (ndarray num)) (layers_dims : list nat)
         (learning_rate : num) (L2_norm : bool) (j n : nat) (costs : list num),
    X_batches !! j = Some X ->
    train_batch X_batches Y_batches layers_dims learning_rate use_batchnorm
                L2_norm j
                (mk_training_state (<["W1" := W1]> (<["b1" := b1]> ∅)) n costs)
    = Raise UnboundLocalError.
Proof.
  assert (Hraise : L_model_forward X (<["W1" := W1]> (<["b1" := b1]> ∅))
                     use_batchnorm = Raise UnboundLocalError).
  { apply L_model_forward_unbound. rewrite single_layer_size. simpl. lia. }
  split; [exact Hraise|].
  intros X_batches Y_batches layers_dims learning_rate L2_norm j n costs HX.
  unfold train_batch, getitem. rewrite HX. simpl. rewrite Hraise. reflexivity.
Qed.

(** ** Initial parameters *)

Section InitializeFacts.
Context {rng : Type} `{RandomState R rng}.
Hypothesis unit_interval :
  forall g : rng, (0 <= fst (random_sample g) < 1)%R.

Lemma random_samples_length (n : nat) (g : rng) :
  length (fst (random_samples n g)) = n.
Proof.
  revert g. induction n as [|n IH]; intros g; simpl; [reflexivity|].
  destruct (random_sample g) as [u g1].
  specialize (IH g1). destruct (random_samples n g1) as [us g2].
  simpl in *. congruence.
Qed.

Lemma random_samples_unit (n : nat) (g : rng) (k : nat) :
  k < n -> (0 <= nth k (fst (random_samples n g)) 0 < 1)%R.
Proof.
  revert g k. induction n as [|n IH]; intros g k Hk; [lia|]. simpl.
  pose proof (unit_interval g) as Hu.
  destruct (random_sample g) as [u g1].
  specialize (IH g1). destruct (random_samples n g1) as [us g2].
  simpl in *. destruct k as [|k]; [exact Hu | apply IH; lia].
Qed.

Lemma np_random_uniform_ok (low high : R) (r c : nat) (g : rng) :
  np_random_uniform low high r c g =
    Ok (fromfunction r c (fun i j =>
          (low + (high - low) * nth (i * c + j) (fst (random_samples (r * c) g)) 0)%R),
        snd (random_samples (r * c) g)).
Proof.
  unfold np_random_uniform. simpl.
  destruct (random_samples (r * c) g) as [us g']. reflexivity.
Qed.

Lemma uniform_entry_bounds (B u : R) :
  (0 <= B)%R -> (0 <= u < 1)%R -> (- B <= - B + (B - - B) * u <= B)%R.
Proof. intros HB Hu. nra. Qed.

Lemma uniform_weights_range (n n_prev : nat) (g : rng) (r c : nat) :
  0 < n -> r < n -> c < n_prev ->
  (- (1 / sqrt (INR n)) <= item (uniform_weights n n_prev g) r c
   <= 1 / sqrt (INR n))%R.
Proof.
  intros Hpos Hr Hc. unfold uniform_weights.
  rewrite item_fromfunction by assumption.
  apply uniform_entry_bounds.
  - apply Rlt_le. apply Rdiv_lt_0_compat; [lra|].
    apply sqrt_lt_R0. apply lt_0_INR. exact Hpos.
  - apply random_samples_unit. nia.
Qed.

Lemma initialize_layer_ok (layers_dim : list nat) (i n n_prev : nat)
    (W_b_dict : gmap string (ndarray R)) (g : rng) :
  layers_dim !! i = Some n ->
  layers_dim !! (i - 1) = Some n_prev ->
  initialize_layer layers_dim i (W_b_dict, g)
    = Ok (<["b" +:+ str i := np_zeros n 1]>
            (<["W" +:+ str i := uniform_weights n n_prev g]> W_b_dict),
          snd (random_samples (n * n_prev) g)).
Proof.
  intros Hn Hprev. unfold initialize_layer, getitem. rewrite Hn, Hprev. simpl.
  rewrite np_random_uniform_ok. simpl.
  match goal with
  | |- context [dict_get (<[?kb := ?vb]> (<[?kW := ?vW]> ?P)) ?kW] =>
      rewrite (dict_get_Some (<[kb := vb]> (<[kW := vW]> P)) kW vW)
        by (rewrite lookup_insert_ne by apply key_b_W; apply lookup_insert_eq);
      rewrite (dict_get_Some (<[kb := vb]> (<[kW := vW]> P)) kb vb)
        by apply lookup_insert_eq
  end.
  simpl. rewrite shape_fromfunction, shape_np_zeros, !shape_eqb_refl.
  reflexivity.
Qed.

End InitializeFacts.

Section InitializeLoop.
Context {rng : Type} `{RandomState R rng}.
Variables (layers_dim : list nat) (g : rng).

Lemma generator_at_S (a n n_prev : nat) :
  1 <= a ->
  layers_dim !! a = Some n -> layers_dim !! (a - 1) = Some n_prev ->
  generator_at layers_dim g (S a)
  = snd (random_samples (num := R) (n * n_prev) (generator_at layers_dim g a)).
Proof.
  intros Ha Hn Hprev. destruct a as [|k]; [lia|].
  replace (S k - 1) with k in Hprev by lia.
  cbn [generator_at].
  rewrite (nth_lookup_Some _ _ 0 _ Hn), (nth_lookup_Some _ _ 0 _ Hprev).
  reflexivity.
Qed.

(** The loop of [initialize_parameters] from layer [a] on, over [n] layers
    whose keys are still free: it adds two keys per layer, keeps what was
    there, and hands the generator from each layer to the next. *)
Lemma initialize_from (n : nat) :
  forall (a : nat) (W_b_dict : gmap string (ndarray R)),
  1 <= a -> a + n <= length layers_dim ->
  (forall i, a <= i ->
     W_b_dict !! ("W" +:+ str i) = None /\ W_b_dict !! ("b" +:+ str i) = None) ->
  exists W_b_dict',
    for_in (seq a n) (initialize_layer layers_dim)
           (W_b_dict, generator_at layers_dim g a)
      = Ok (W_b_dict', generator_at layers_dim g (a + n)) /\
    size W_b_dict' = size W_b_dict + 2 * n /\
    (forall i, a <= i < a + n -> initialized_layer layers_dim g W_b_dict' i) /\
    (forall k v, W_b_dict !! k = Some v -> W_b_dict' !! k = Some v).
Proof.
  induction n as [|n IH]; intros a P Ha Hlen Hfree.
  - exists P. simpl. rewrite Nat.add_0_r. repeat split; [lia | | auto].
    intros i Hi. lia.
  - destruct (lookup_lt_is_Some_2 layers_dim a) as [u Hu]; [lia|].
    destruct (lookup_lt_is_Some_2 layers_dim (a - 1)) as [u_prev Hprev]; [lia|].
    pose proof (initialize_layer_ok layers_dim a u u_prev P
                  (generator_at layers_dim g a) Hu Hprev) as Hstep.
    rewrite <- (generator_at_S a u u_prev Ha Hu Hprev) in Hstep.
    destruct (Hfree a (le_n a)) as [HfW Hfb].
    set (W := uniform_weights u u_prev (generator_at layers_dim g a)) in *.
    set (P1 := <["b" +:+ str a := np_zeros u 1]> (<["W" +:+ str a := W]> P)) in *.
    assert (Hsize1 : size P1 = size P + 2).
    { unfold P1. rewrite map_size_insert_None.
      - rewrite map_size_insert_None by exact HfW. lia.
      - rewrite lookup_insert_ne by apply key_W_b. exact Hfb. }
    destruct (IH (S a) P1) as (P' & Hrun & Hsize & Hlayers & Hkeep); [lia | lia | |].
    { intros i Hi. assert (Hne : a <> i) by lia.
      destruct (Hfree i) as [HfW' Hfb']; [lia|].
      unfold P1. split.
      - rewrite lookup_insert_ne by apply key_b_W.
        rewrite lookup_insert_ne by (apply key_ne; exact Hne). exact HfW'.
      - rewrite lookup_insert_ne by (apply key_ne; exact Hne).
        rewrite lookup_insert_ne by apply key_W_b. exact Hfb'. }
    exists P'. cbn [seq]. rewrite for_in_cons, Hstep. cbn [mbind result_bind].
    replace (a + S n) with (S a + n) by lia.
    split; [exact Hrun|]. split; [lia|]. split.
    + intros i Hi. destruct (decide (i = a)) as [-> | Hne]; [|apply Hlayers; lia].
      exists u, u_prev, W, (np_zeros u 1).
      split; [exact Hu|]. split; [exact Hprev|]. split; [|split].
      * apply Hkeep. unfold P1. rewrite lookup_insert_ne by apply key_b_W.
        apply lookup_insert_eq.
      * apply Hkeep. unfold P1. apply lookup_insert_eq.
      * repeat split; reflexivity.
    + intros k v Hk. apply Hkeep. unfold P1.
      rewrite !lookup_insert_ne; [exact Hk | congruence | congruence].
Qed.

Lemma initialize_parameters_ok :
  2 <= length layers_dim ->
  exists W_b_dict,
    initialize_parameters layers_dim g
      = Ok (W_b_dict, generator_at layers_dim g (length layers_dim)) /\
    layered (length layers_dim - 1) W_b_dict /\
    forall i, 1 <= i < length layers_dim ->
      initialized_layer layers_dim g W_b_dict i.
Proof.
  intros Hlen. unfold initialize_parameters, range.
  destruct (initialize_from (length layers_dim - 1) 1 ∅)
    as (P & Hrun & Hsize & Hlayers & _); [lia | lia | |].
  { intros i _. split; apply lookup_empty. }
  replace (1 + (length layers_dim - 1)) with (length layers_dim) in * by lia.
  exists P. split; [exact Hrun|].
  assert (Hall : forall i, 1 <= i < length layers_dim ->
                   initialized_layer layers_dim g P i).
  { intros i Hi. apply Hlayers. lia. }
  split; [|exact Hall]. split.
  - rewrite Hsize, map_size_empty. lia.
  - intros l Hl.
    destruct (Hall l) as (n & n_prev & W & b & _ & _ & HW & Hb & _); [lia|].
    split; eexists; eassumption.
Qed.

Lemma initialized_layer_range (W_b_dict : gmap string (ndarray R)) (i : nat) :
  (forall g' : rng, (0 <= fst (random_sample g') < 1)%R) ->
  Forall (fun n => 0 < n) layers_dim ->
  initialized_layer layers_dim g W_b_dict i ->
  weights_in_range layers_dim W_b_dict i.
Proof.
  intros Hunit Hpos (n & n_prev & W & b & Hn & Hprev & HW & _ & -> & HsW & _).
  exists n, n_prev, (uniform_weights n n_prev (generator_at layers_dim g i)).
  repeat split; try assumption.
  - apply uniform_weights_range; try assumption.
    apply (proj1 (List.Forall_forall _ _) Hpos).
    apply list_elem_of_In. eapply list_elem_of_lookup_2. exact Hn.
  - apply uniform_weights_range; try assumption.
    apply (proj1 (List.Forall_forall _ _) Hpos).
    apply list_elem_of_In. eapply list_elem_of_lookup_2. exact Hn.
Qed.

End InitializeLoop.

Lemma initialize_parameters_short {num rng : Type} `{Arith num}
    `{RandomState num rng} (layers_dim : list nat) (g : rng) :
  length layers_dim < 2 ->
  initialize_parameters layers_dim g = Ok (∅, g).
Proof.
  intros Hlen. unfold initialize_parameters, range.
  replace (length layers_dim - 1) with 0 by lia. reflexivity.
Qed.

(** C9, as amended: [initialize_parameters] raises nothing on a
    specification of fewer than two entries and returns the empty
    dictionary; for two entries or more, all positive, it returns a
    dictionary of exactly the keys of the layers, where layer [i] has weights
    of shape [(units_i, units_(i-1))] whose entries are
    [low + (high - low) * u] for the successive draws [u] of the generator,
    with [high = 1/sqrt(units_i)] and [low = - high], and a bias of zeros of
    shape [(units_i, 1)]; with a generator that draws from the half-open
    unit interval, the entries lie between [-1/sqrt(units_i)] and
    [1/sqrt(units_i)]. *)
Theorem initialize_parameters_layers {rng : Type} `{RandomState R rng}
    (layers_dim : list nat) (g : rng) :
  (length layers_dim < 2 -> initialize_parameters layers_dim g = Ok (∅, g)) /\
  (2 <= length layers_dim ->
   Forall (fun n => 0 < n) layers_dim ->
   exists W_b_dict,
     initialize_parameters layers_dim g
       = Ok (W_b_dict, generator_at layers_dim g (length layers_dim)) /\
     layered (length layers_dim - 1) W_b_dict /\
     forall i, 1 <= i < length layers_dim ->
       initialized_layer layers_dim g W_b_dict i /\
       ((forall g' : rng, (0 <= fst (random_sample g') < 1)%R) ->
        weights_in_range layers_dim W_b_dict i)).
Proof.
  split; [apply initialize_parameters_short|].
  intros Hlen Hpos.
  destruct (initialize_parameters_ok layers_dim g Hlen) as (P & Hrun & Hkeys & Hall).
  exists P. split; [exact Hrun|]. split; [exact Hkeys|].
  intros i Hi. split; [apply Hall; exact Hi|].
  intros Hunit. apply (initialized_layer_range layers_dim g P i Hunit Hpos).
  apply Hall. exact Hi.
Qed.

Lemma counting_generator_unit (n : nat) :
  (0 <= fst (random_sample (num := R) n) < 1)%R.
Proof.
  simpl. pose proof (pos_INR n) as Hn.
  split.
  - apply Rlt_le. apply Rdiv_lt_0_compat; lra.
  - assert (Hinv : (/ (INR n + 2) < / 1)%R)
      by (apply Rinv_lt_contravar; lra).
    rewrite Rinv_1 in Hinv. unfold Rdiv. lra.
Qed.

Lemma initialize_parameters_layers_witness :
  exists W_b_dict,
    initialize_parameters (num := R) [2; 3; 1] 0
      = Ok (W_b_dict, generator_at [2; 3; 1] 0 (length [2; 3; 1])) /\
    layered (length [2; 3; 1] - 1) W_b_dict /\
    forall i, 1 <= i < length [2; 3; 1] ->
      initialized_layer [2; 3; 1] 0 W_b_dict i /\
      ((forall g' : nat, (0 <= fst (random_sample (num := R) g') < 1)%R) ->
       weights_in_range [2; 3; 1] W_b_dict i).
Proof.
  apply (proj2 (initialize_parameters_layers [2; 3; 1] 0)).
  - simpl. lia.
  - repeat constructor.
Defined.

(** C9, the claim as stated fails: on a specification of one entry, and on
    the empty one, [initialize_parameters] raises no error and returns the
    empty dictionary. *)
Lemma initialize_parameters_short_counterexample :
  initialize_parameters (num := R) [5] 0 = Ok (∅, 0) /\
  initialize_parameters (num := R) [] 0 = Ok (∅, 0).
Proof. split; reflexivity. Qed.

(** ** The structure of the forward pass *)

Section ForwardStructure.
Context {num : Type} `{Arith num} `{Transcendental num}.

Lemma bind_Ok {A B : Type} (r : result A) (k : A -> result B) (b : B) :
  r ≫= k = Ok b <-> exists a, r = Ok a /\ k a = Ok b.
Proof.
  destruct r as [a|e]; simpl; split.
  - intros Hk. exists a. auto.
  - intros (a' & [= <-] & Hk). exact Hk.
  - discriminate.
  - intros (a' & [=] & _).
Qed.

Lemma assert_Ok (c : bool) (u : unit) : assert c = Ok u <-> c = true.
Proof. destruct c, u; simpl; split; intros; (reflexivity || discriminate). Qed.

Lemma linear_forward_inv (A W b Z : ndarray num) (c : linear_cache num) :
  linear_forward A W b = Ok (Z, c) ->
  c = (A, W, b) /\ shape Z = (nrows W, ncols A).
Proof.
  unfold linear_forward. intros Hrun.
  apply bind_Ok in Hrun as (WA & _ & Hrun).
  apply bind_Ok in Hrun as (Z' & _ & Hrun).
  apply bind_Ok in Hrun as (u & Hassert & Hrun).
  injection Hrun as <- <-. apply assert_Ok, shape_eqb_eq in Hassert. auto.
Qed.

Lemma relu_ok (Z : ndarray num) : relu Z = Ok (np_map (np_maximum zero) Z, Z).
Proof. unfold relu. unfold shape. simpl. rewrite shape_eqb_refl. reflexivity. Qed.

Lemma linear_activation_forward_relu (A W b A1 : ndarray num)
    (c : cache num) :
  linear_activation_forward A W b Relu = Ok (A1, c) <->
  exists Z, linear_forward A W b = Ok (Z, (A, W, b)) /\
            A1 = np_map (np_maximum zero) Z /\ c = ((A, W, b), Z).
Proof.
  unfold linear_activation_forward. split.
  - intros Hrun. apply bind_Ok in Hrun as ([Z lc] & Hlin & Hrun).
    rewrite relu_ok in Hrun. simpl in Hrun.
    apply bind_Ok in Hrun as (u & _ & Hrun). injection Hrun as <- <-.
    destruct (linear_forward_inv _ _ _ _ _ Hlin) as [-> _].
    exists Z. auto.
  - intros (Z & Hlin & -> & ->). rewrite Hlin. simpl. rewrite relu_ok. simpl.
    destruct (linear_forward_inv _ _ _ _ _ Hlin) as [_ HZ].
    unfold shape in *. simpl. rewrite HZ, shape_eqb_refl. reflexivity.
Qed.

Lemma linear_activation_forward_softmax (A W b AL : ndarray num)
    (c : cache num) :
  linear_activation_forward A W b Softmax = Ok (AL, c) <->
  exists Z, linear_forward A W b = Ok (Z, (A, W, b)) /\
            AL = softmax_formula Z /\ c = ((A, W, b), Z).
Proof.
  unfold linear_activation_forward, softmax. split.
  - intros Hrun. apply bind_Ok in Hrun as ([Z lc] & Hlin & Hrun).
    rewrite softmax_values_ok in Hrun. simpl in Hrun.
    apply bind_Ok in Hrun as (u & _ & Hrun). injection Hrun as <- <-.
    destruct (linear_forward_inv _ _ _ _ _ Hlin) as [-> _].
    exists Z. auto.
  - intros (Z & Hlin & -> & ->). rewrite Hlin. simpl.
    rewrite softmax_values_ok. simpl.
    destruct (linear_forward_inv _ _ _ _ _ Hlin) as [_ HZ].
    unfold shape in *. simpl. rewrite HZ, shape_eqb_refl. reflexivity.
Qed.

Lemma batchnorm_shape (A NA : ndarray num) :
  batchnorm A = Ok NA -> shape NA = shape A.
Proof.
  unfold batchnorm. intros Hrun.
  apply bind_Ok in Hrun as (centred & _ & Hrun).
  apply bind_Ok in Hrun as (N & _ & Hrun).
  apply bind_Ok in Hrun as (u & Hassert & Hrun).
  injection Hrun as <-. apply assert_Ok, shape_eqb_eq in Hassert. exact Hassert.
Qed.

(** The hidden layers keep the number of samples. *)
Lemma hidden_layers_ncols (W_b_dict : gmap string (ndarray num))
    (use_batchnorm : bool) (l : nat) (A A' : ndarray num)
    (caches : list (cache num)) :
  hidden_layers W_b_dict use_batchnorm l A caches A' -> ncols A' = ncols A.
Proof.
  induction 1 as [|l A W b Z A_next A_last caches HW Hb Hlin Hnorm _ IH];
    [reflexivity|].
  rewrite IH. destruct (linear_forward_inv _ _ _ _ _ Hlin) as [_ HZ].
  unfold shape in HZ. injection HZ as _ HZc.
  destruct use_batchnorm.
  - apply batchnorm_shape in Hnorm. unfold shape in Hnorm. simpl in Hnorm.
    injection Hnorm as _ Hc. congruence.
  - injection Hnorm as <-. simpl. exact HZc.
Qed.

End ForwardStructure.

Section ForwardLoop.
Context {num : Type} `{Arith num} `{Transcendental num}.
Variables (W_b_dict : gmap string (ndarray num)) (use_batchnorm : bool).

Lemma dict_get_Ok {V : Type} (d : gmap string V) (k : string) (v : V) :
  dict_get d k = Ok v <-> d !! k = Some v.
Proof.
  unfold dict_get. destruct (d !! k); split; intros E;
    (congruence || discriminate).
Qed.

Lemma forward_layer_iff (l : nat) (A A' : ndarray num)
    (cs cs' : list (cache num)) (l0 l' : option nat) :
  forward_layer W_b_dict use_batchnorm l (A, cs, l0) = Ok (A', cs', l') <->
  exists W b Z,
    W_b_dict !! ("W" +:+ str l) = Some W /\
    W_b_dict !! ("b" +:+ str l) = Some b /\
    linear_forward A W b = Ok (Z, (A, W, b)) /\
    (if use_batchnorm then batchnorm (np_map (np_maximum zero) Z)
     else Ok (np_map (np_maximum zero) Z)) = Ok A' /\
    cs' = cs ++ [((A, W, b), Z)] /\ l' = Some l.
Proof.
  unfold forward_layer. split.
  - intros Hrun.
    apply bind_Ok in Hrun as (W & HW & Hrun). apply dict_get_Ok in HW.
    apply bind_Ok in Hrun as (b & Hb & Hrun). apply dict_get_Ok in Hb.
    apply bind_Ok in Hrun as ([A1 c] & Hact & Hrun).
    apply linear_activation_forward_relu in Hact as (Z & Hlin & -> & ->).
    apply bind_Ok in Hrun as (A2 & Hnorm & Hrun). injection Hrun as <- <- <-.
    exists W, b, Z. auto 10.
  - intros (W & b & Z & HW & Hb & Hlin & Hnorm & -> & ->).
    rewrite (dict_get_Some _ _ _ HW), (dict_get_Some _ _ _ Hb). simpl.
    assert (Hact : linear_activation_forward A W b Relu
                   = Ok (np_map (np_maximum zero) Z, ((A, W, b), Z))).
    { apply linear_activation_forward_relu. exists Z. auto. }
    rewrite Hact. simpl. rewrite Hnorm. reflexivity.
Qed.

(** The loop over the hidden layers runs them one after the other; its
    variable [l] ends on the last of them. *)
Lemma forward_loop_iff (n : nat) :
  forall (l : nat) (A A' : ndarray num) (cs cs' : list (cache num))
         (l0 l' : option nat),
  for_in (seq l n) (forward_layer W_b_dict use_batchnorm) (A, cs, l0)
    = Ok (A', cs', l') <->
  exists hidden,
    cs' = cs ++ hidden /\ length hidden = n /\
    hidden_layers W_b_dict use_batchnorm l A hidden A' /\
    l' = match n with O => l0 | S k => Some (l + k) end.
Proof.
  induction n as [|n IH]; intros l A A' cs cs' l0 l'.
  - simpl. split.
    + intros [= <- <- <-]. exists []. rewrite app_nil_r.
      repeat split. constructor.
    + intros (hidden & -> & Hlen & Hhid & ->).
      destruct hidden; [|discriminate]. inversion Hhid; subst.
      rewrite app_nil_r. reflexivity.
  - cbn [seq]. rewrite for_in_cons. split.
    + intros Hrun. apply bind_Ok in Hrun as ([[A1 cs1] l1] & Hstep & Hrun).
      apply forward_layer_iff in Hstep
        as (W & b & Z & HW & Hb & Hlin & Hnorm & -> & ->).
      apply IH in Hrun as (hidden & -> & Hlen & Hhid & ->).
      exists (((A, W, b), Z) :: hidden). rewrite <- app_assoc. simpl.
      repeat split; [congruence | econstructor; eassumption |].
      destruct n; f_equal; lia.
    + intros (hidden & -> & Hlen & Hhid & ->).
      inversion Hhid as [|l1 A1 W b Z A_next A_last caches HW Hb Hlin Hnorm Hrest];
        subst; [discriminate|].
      assert (Hstep : forward_layer W_b_dict use_batchnorm l (A, cs, l0)
                      = Ok (A_next, cs ++ [((A, W, b), Z)], Some l)).
      { apply forward_layer_iff. exists W, b, Z. auto 10. }
      rewrite Hstep. simpl. apply IH. exists caches.
      rewrite <- app_assoc. simpl. simpl in Hlen.
      repeat split; [congruence | exact Hrest |].
      destruct n; f_equal; lia.
Qed.

(** [L_model_forward] on a dictionary of [L >= 2] layers returns exactly
    the forward passes. *)
Lemma L_model_forward_iff (X AL : ndarray num)
    (caches : list (cache num)) (L : nat) :
  size W_b_dict / 2 = L -> 2 <= L ->
  L_model_forward X W_b_dict use_batchnorm = Ok (AL, caches) <->
  forward_pass W_b_dict use_batchnorm L X AL caches.
Proof.
  intros HL HL2. unfold L_model_forward, forward_pass, range. rewrite HL.
  split.
  - intros Hrun. apply bind_Ok in Hrun as ([[A cs] l] & Hloop & Hrun).
    apply forward_loop_iff in Hloop as (hidden & -> & Hlen & Hhid & ->).
    destruct (L - 1) as [|k] eqn:Ek; [lia|]. simpl in Hrun.
    replace (S (k + 1)) with L in Hrun by lia.
    apply bind_Ok in Hrun as (W & HW & Hrun). apply dict_get_Ok in HW.
    apply bind_Ok in Hrun as (b & Hb & Hrun). apply dict_get_Ok in Hb.
    apply bind_Ok in Hrun as ([AL1 c] & Hact & Hrun).
    apply linear_activation_forward_softmax in Hact as (Z & Hlin & -> & ->).
    apply bind_Ok in Hrun as (W' & _ & Hrun).
    apply bind_Ok in Hrun as (u & _ & Hrun). injection Hrun as <- <-.
    exists hidden, A, W, b, Z. auto 10.
  - intros (hidden & A & W & b & Z & -> & Hlen & Hhid & HW & Hb & Hlin & ->).
    assert (Hloop : for_in (seq 1 (L - 1)) (forward_layer W_b_dict use_batchnorm)
                      (X, [], None)
                    = Ok (A, hidden, Some (L - 1))).
    { apply forward_loop_iff. exists hidden. repeat split; try assumption.
      destruct (L - 1) as [|k] eqn:Ek; [lia|]. f_equal. }
    rewrite Hloop. simpl. replace (L - 1 + 1) with L by lia.
    rewrite (dict_get_Some _ _ _ HW), (dict_get_Some _ _ _ Hb). simpl.
    assert (Hact : linear_activation_forward A W b Softmax
                   = Ok (softmax_formula Z, ((A, W, b), Z))).
    { apply linear_activation_forward_softmax. exists Z. auto. }
    rewrite Hact. simpl.
    destruct (linear_forward_inv _ _ _ _ _ Hlin) as [_ HZ].
    unfold shape in HZ. injection HZ as HZr HZc.
    rewrite (hidden_layers_ncols _ _ _ _ _ _ Hhid) in HZc.
    unfold shape. simpl. rewrite HZr, HZc, shape_eqb_refl. reflexivity.
Qed.

(** Whenever [L_model_forward] returns, there are at least two layers. *)
Lemma L_model_forward_Ok_layers (X AL : ndarray num)
    (caches : list (cache num)) :
  L_model_forward X W_b_dict use_batchnorm = Ok (AL, caches) ->
  2 <= size W_b_dict / 2.
Proof.
  intros Hrun. destruct (le_lt_dec 2 (size W_b_dict / 2)) as [Hle|Hlt]; [exact Hle|].
  rewrite L_model_forward_unbound in Hrun by lia. discriminate.
Qed.

End ForwardLoop.

(** ** The formulas of the forward pass *)

Section ForwardFormulaFacts.
Context {num : Type} `{Arith num} `{Transcendental num}.

Lemma linear_forward_ok (A W b : ndarray num) :
  ncols W = nrows A -> shape b = (nrows W, 1) ->
  linear_forward A W b = Ok (linear_formula A W b, (A, W, b)).
Proof.
  intros HW Hb. unfold linear_forward.
  rewrite np_dot_ok by exact HW. simpl.
  rewrite broadcast_column by exact Hb. simpl.
  rewrite shape_fromfunction, shape_eqb_refl. simpl.
  do 2 f_equal. apply fromfunction_ext. intros i j Hi Hj.
  rewrite item_fromfunction by assumption. reflexivity.
Qed.

Lemma batchnorm_ok (A : ndarray num) : batchnorm A = Ok (batchnorm_formula A).
Proof.
  unfold batchnorm.
  rewrite broadcast_row by reflexivity. simpl.
  rewrite broadcast_row by reflexivity. simpl.
  rewrite shape_eqb_refl. simpl. f_equal.
  unfold transpose at 1. simpl. apply fromfunction_ext. intros i j Hi Hj.
  rewrite item_fromfunction by assumption.
  rewrite item_fromfunction by assumption.
  unfold np_map. simpl. rewrite item_fromfunction by lia.
  unfold np_std_axis0, np_mean_axis0. simpl.
  rewrite !item_fromfunction by lia.
  rewrite item_transpose by assumption.
  unfold row_std, row_mean.
  assert (Esum : sum_upto (ncols A) (fun k => item (transpose A) k i)
                 = sum_upto (ncols A) (fun k => item A i k)).
  { apply sum_upto_ext. intros k Hk. apply item_transpose; assumption. }
  rewrite Esum. do 4 f_equal.
  apply sum_upto_ext. intros k Hk.
  rewrite item_transpose by assumption. reflexivity.
Qed.

Lemma relu_backward_mask (dA Z : ndarray num) :
  shape dA = shape Z -> relu_backward dA Z = Ok (relu_mask dA Z).
Proof. apply relu_backward_ok. Qed.

End ForwardFormulaFacts.

(** ** The caches and the backward pass *)

Section CacheFacts.
Context {num : Type} `{Arith num} `{Transcendental num}.
Variables (W_b_dict : gmap string (ndarray num)) (use_batchnorm : bool).

(** Along the caches of a forward pass, every cache holds the
    pre-activation of its own layer, and the input cached by the next layer
    is what the layer passed on. *)
Lemma hidden_layers_chain (l : nat) (A A_last : ndarray num)
    (hidden : list (cache num)) (last : cache num) :
  hidden_layers W_b_dict use_batchnorm l A hidden A_last ->
  fst (fst (fst last)) = A_last ->
  (exists c rest, hidden ++ [last] = c :: rest /\ fst (fst (fst c)) = A) /\
  forall i A_i W_i b_i Z_i A_n W_n b_n Z_n,
    (hidden ++ [last]) !! i = Some ((A_i, W_i, b_i), Z_i) ->
    (hidden ++ [last]) !! S i = Some ((A_n, W_n, b_n), Z_n) ->
    linear_forward A_i W_i b_i = Ok (Z_i, (A_i, W_i, b_i)) /\
    A_n = if use_batchnorm
          then batchnorm_formula (np_map (np_maximum zero) Z_i)
          else np_map (np_maximum zero) Z_i.
Proof.
  intros Hhid Hlast.
  induction Hhid as [l A|l A W b Z A_next A_end caches HW Hb Hlin Hnorm Hrest IH].
  - split; [exists last, []; auto|].
    intros i A_i W_i b_i Z_i A_n W_n b_n Z_n Hi Hn.
    destruct i; simpl in Hn; discriminate.
  - destruct (IH Hlast) as [(c & rest & Ecs & Hc) Hchain].
    split; [eexists _, _; split; reflexivity|].
    intros i A_i W_i b_i Z_i A_n W_n b_n Z_n Hi Hn.
    destruct i as [|i].
    + simpl in Hi, Hn. injection Hi as <- <- <- <-.
      split; [exact Hlin|].
      rewrite Ecs in Hn. simpl in Hn. injection Hn as ->.
      simpl in Hc. subst A_n.
      destruct use_batchnorm.
      * rewrite batchnorm_ok in Hnorm. congruence.
      * congruence.
    + simpl in Hi, Hn. eapply Hchain; eassumption.
Qed.

Lemma backward_layer_ok (caches : list (cache num)) (i : nat)
    (A_prev W b Z dA : ndarray num) (grads : gmap string (ndarray num)) :
  caches !! i = Some ((A_prev, W, b), Z) ->
  grads !! ("dA" +:+ str (i + 2)) = Some dA ->
  shape dA = shape Z ->
  backward_layer caches i grads =
    ('(dA_prev, dW, db) ← linear_backward (relu_mask dA Z) (A_prev, W, b);
     Ok (<["db" +:+ str (i + 1) := db]>
           (<["dW" +:+ str (i + 1) := dW]>
              (<["dA" +:+ str (i + 1) := dA_prev]>
                 (<["dA" +:+ str (i + 2) := relu_mask dA Z]> grads))))).
Proof.
  intros Hc HdA Hs. unfold backward_layer, getitem. rewrite Hc. simpl.
  rewrite (dict_get_Some _ _ _ HdA). simpl.
  unfold linear_activation_backward.
  rewrite (relu_backward_mask _ _ Hs). simpl.
  destruct (linear_backward (relu_mask dA Z) (A_prev, W, b)) as [[[dA_prev dW] db]|];
    reflexivity.
Qed.

End CacheFacts.

Lemma sample_network_size : size sample_network / 2 = 2.
Proof.
  unfold sample_network.
  rewrite !map_size_insert_None, map_size_empty; [reflexivity|..];
    rewrite ?lookup_insert_ne by discriminate; apply lookup_empty.
Qed.

Lemma sample_forward_pass :
  L_model_forward sample_X sample_network true = Ok (sample_output, sample_caches).
Proof.
  apply (L_model_forward_iff _ _ _ _ _ 2 sample_network_size (le_n 2)).
  exists [((sample_X, sample_dA, sample_b), sample_Z1)],
         sample_A1, sample_Z, sample_b, sample_Z2.
  split; [reflexivity|]. split; [reflexivity|]. split.
  - eapply hidden_layer with (A_next := sample_A1).
    + reflexivity.
    + reflexivity.
    + apply linear_forward_ok; reflexivity.
    + apply batchnorm_ok.
    + constructor.
  - split; [reflexivity|]. split; [reflexivity|]. split; [|reflexivity].
    apply linear_forward_ok; reflexivity.
Qed.

(** ** Sums of reals *)

Section RealSums.
Local Open Scope R_scope.

Lemma Rsum_0 (f : nat -> R) : sum_upto 0 f = 0.
Proof. reflexivity. Qed.

Lemma Rsum_S (n : nat) (f : nat -> R) : sum_upto (S n) f = sum_upto n f + f n.
Proof. exact (sum_upto_S (num := R) n f). Qed.

Lemma Rsum_plus (n : nat) (f g : nat -> R) :
  sum_upto n (fun k => f k + g k) = sum_upto n f + sum_upto n g.
Proof.
  induction n as [|n IH]; [rewrite !Rsum_0; lra|].
  rewrite !Rsum_S, IH. lra.
Qed.

Lemma Rsum_scale (n : nat) (f : nat -> R) (c : R) :
  sum_upto n (fun k => f k * c) = sum_upto n f * c.
Proof.
  induction n as [|n IH]; [rewrite !Rsum_0; lra|].
  rewrite !Rsum_S, IH. lra.
Qed.

Lemma Rsum_const (n : nat) (c : R) : sum_upto n (fun _ => c) = INR n * c.
Proof.
  induction n as [|n IH]; [rewrite Rsum_0; simpl; lra|].
  rewrite Rsum_S, IH, S_INR. lra.
Qed.

Lemma Rsum_minus_const (n : nat) (f : nat -> R) (c : R) :
  sum_upto n (fun k => f k - c) = sum_upto n f - INR n * c.
Proof.
  induction n as [|n IH]; [rewrite !Rsum_0; simpl; lra|].
  rewrite !Rsum_S, IH, S_INR. lra.
Qed.

Lemma Rsum_nonneg (n : nat) (f : nat -> R) :
  (forall k, (k < n)%nat -> 0 <= f k) -> 0 <= sum_upto n f.
Proof.
  induction n as [|n IH]; intros Hf; [rewrite Rsum_0; lra|].
  rewrite Rsum_S. specialize (Hf n (Nat.lt_succ_diag_r n)) as Hn.
  assert (0 <= sum_upto n f) by (apply IH; intros k Hk; apply Hf; lia). lra.
Qed.

Lemma Rsum_swap (r c : nat) (f : nat -> nat -> R) :
  sum_upto r (fun i => sum_upto c (fun j => f i j))
  = sum_upto c (fun j => sum_upto r (fun i => f i j)).
Proof.
  induction r as [|r IH].
  - rewrite Rsum_0. rewrite (sum_upto_ext c _ (fun _ => 0)).
    + rewrite Rsum_const. lra.
    + intros j _. apply Rsum_0.
  - rewrite Rsum_S, IH, <- Rsum_plus.
    apply sum_upto_ext. intros j _. rewrite Rsum_S. reflexivity.
Qed.

Lemma Rsum_indicator (n c : nat) :
  (c < n)%nat -> sum_upto n (fun i => if i =? c then 1 else 0) = 1.
Proof.
  induction n as [|n IH]; intros Hc; [lia|]. rewrite Rsum_S.
  destruct (Nat.eq_dec c n) as [-> | Hne].
  - rewrite Nat.eqb_refl. rewrite (sum_upto_ext n _ (fun _ => 0)).
    + rewrite Rsum_const. lra.
    + intros k Hk. destruct (k =? n) eqn:E; [apply Nat.eqb_eq in E; lia | reflexivity].
  - rewrite IH by lia. destruct (n =? c) eqn:E; [apply Nat.eqb_eq in E; lia | lra].
Qed.

End RealSums.

(** ** Batch normalisation over the reals *)

Section BatchnormFacts.
Local Open Scope R_scope.

Lemma decimal_1_4 : decimal (num := R) 1 4 = 1 / 10 ^ 4.
Proof. reflexivity. Qed.

Lemma row_std_nonneg (A : ndarray R) (i : nat) : 0 <= row_std A i.
Proof. unfold row_std. apply sqrt_pos. Qed.

Lemma row_std_eps_pos (A : ndarray R) (i : nat) : 0 < row_std A i + 1 / 10 ^ 4.
Proof.
  pose proof (row_std_nonneg A i).
  assert (0 < 1 / 10 ^ 4) by (apply Rdiv_lt_0_compat; [lra | apply pow_lt; lra]).
  lra.
Qed.

Lemma batchnorm_row_sum (A : ndarray R) (i : nat) :
  (i < nrows A)%nat -> ncols A <> 0%nat ->
  sum_upto (ncols A) (fun j => item (batchnorm_formula A) i j) = 0.
Proof.
  intros Hi Hm.
  rewrite (sum_upto_ext _ _
             (fun j => (item A i j - row_mean A i) * / (row_std A i + 1 / 10 ^ 4))).
  2:{ intros j Hj. unfold batchnorm_formula.
      rewrite item_fromfunction by assumption. reflexivity. }
  rewrite Rsum_scale, Rsum_minus_const.
  assert (Hn : INR (ncols A) <> 0) by (apply not_0_INR; exact Hm).
  assert (Hzero : forall S n d : R, n <> 0 -> (S - n * (S / n)) * / d = 0).
  { intros S n d Hne. replace (S - n * (S / n)) with 0 by (field; exact Hne). ring. }
  apply Hzero. exact Hn.
Qed.

Lemma batchnorm_row_mean (A : ndarray R) (i : nat) :
  (i < nrows A)%nat -> ncols A <> 0%nat ->
  row_mean (batchnorm_formula A) i = 0.
Proof.
  intros Hi Hm. unfold row_mean at 1.
  change (ncols (batchnorm_formula A)) with (ncols A).
  rewrite batchnorm_row_sum by assumption. simpl. unfold Rdiv. ring.
Qed.

Lemma batchnorm_row_std (A : ndarray R) (i : nat) :
  (i < nrows A)%nat -> ncols A <> 0%nat ->
  row_std (batchnorm_formula A) i = row_std A i / (row_std A i + 1 / 10 ^ 4).
Proof.
  intros Hi Hm. unfold row_std at 1.
  rewrite batchnorm_row_mean by assumption.
  change (ncols (batchnorm_formula A)) with (ncols A).
  set (d := row_std A i + 1 / 10 ^ 4).
  assert (Hd : 0 < d) by apply row_std_eps_pos.
  set (V := sum_upto (ncols A) (fun j =>
              (item A i j - row_mean A i) * (item A i j - row_mean A i))
            / INR (ncols A)).
  assert (HV : row_std A i = sqrt V) by reflexivity.
  assert (Hsq : forall a : R, (a / d - 0) * (a / d - 0) = a * a * / (d * d)).
  { intros a. field. lra. }
  rewrite (sum_upto_ext _ _
             (fun j => (item A i j - row_mean A i) * (item A i j - row_mean A i)
                       * / (d * d))).
  2:{ intros j Hj. unfold batchnorm_formula.
      rewrite item_fromfunction by assumption. apply Hsq. }
  rewrite Rsum_scale. cbn [np_sqrt num_div of_nat R_arith].
  match goal with
  | |- sqrt ?x = _ => replace x with (V / (d * d))
  end.
  2:{ unfold V. field. split; first [apply not_0_INR; exact Hm | lra]. }
  rewrite sqrt_div_alt by nra.
  rewrite sqrt_square by lra. rewrite HV. reflexivity.
Qed.

End BatchnormFacts.

Lemma predict_forward {num : Type} `{Arith num} `{Transcendental num}
    (X Y : ndarray num) (W_b_dict : gmap string (ndarray num))
    (use_batchnorm : bool) :
  predict X Y W_b_dict use_batchnorm =
    ('(probs, _) ← L_model_forward X W_b_dict use_batchnorm;
     p ← np_argmax_axis0 probs;
     y ← np_argmax_axis0 Y;
     correct ← count_equal p y;
     Ok (of_nat correct / of_nat (ncols X))%num).
Proof. reflexivity. Qed.

(** C7, as amended: with batch normalisation the forward pass normalises
    what every ReLU layer passes on and leaves the softmax of the last layer
    as it is; the normalisation maps each row to
    [(row - mean) / (std + 1e-4)], mean and standard deviation being those
    of the population over the batch; each row of the result has mean 0 and
    standard deviation [std / (std + 1e-4)], which is below 1 by
    [1e-4 / (std + 1e-4)]; scoring runs the same forward pass with the same
    flag. *)
Theorem batchnorm_rows :
  (forall (X AL : ndarray R) (W_b_dict : gmap string (ndarray R))
          (caches : list (cache R)),
     L_model_forward X W_b_dict true = Ok (AL, caches) ->
     forward_pass W_b_dict true (size W_b_dict / 2) X AL caches) /\
  (forall A : ndarray R, batchnorm A = Ok (batchnorm_formula A)) /\
  (forall (A : ndarray R) (i : nat),
     i < nrows A -> ncols A <> 0 ->
     row_mean (batchnorm_formula A) i = 0%R /\
     row_std (batchnorm_formula A) i
       = (row_std A i / (row_std A i + 1 / 10 ^ 4))%R /\
     (1 - row_std (batchnorm_formula A) i
       = (1 / 10 ^ 4) / (row_std A i + 1 / 10 ^ 4))%R) /\
  (forall (X Y : ndarray R) (W_b_dict : gmap string (ndarray R))
          (use_batchnorm : bool),
     predict X Y W_b_dict use_batchnorm =
       ('(probs, _) ← L_model_forward X W_b_dict use_batchnorm;
        p ← np_argmax_axis0 probs;
        y ← np_argmax_axis0 Y;
        correct ← count_equal p y;
        Ok (of_nat correct / of_nat (ncols X))%num)).
Proof.
  split; [|split; [|split]].
  - intros X AL W_b_dict caches Hrun.
    pose proof (L_model_forward_Ok_layers _ _ _ _ _ Hrun) as HL.
    apply (L_model_forward_iff _ _ _ _ _ _ eq_refl HL). exact Hrun.
  - intros A. apply batchnorm_ok.
  - intros A i Hi Hm.
    pose proof (batchnorm_row_std A i Hi Hm) as Hstd.
    split; [apply batchnorm_row_mean; assumption|].
    split; [exact Hstd|].
    rewrite Hstd. pose proof (row_std_eps_pos A i). field. lra.
  - intros X Y W_b_dict use_batchnorm. apply predict_forward.
Qed.

Lemma batchnorm_rows_witness :
  row_mean (batchnorm_formula sample_dA) 0 = 0%R /\
  row_std (batchnorm_formula sample_dA) 0
    = (row_std sample_dA 0 / (row_std sample_dA 0 + 1 / 10 ^ 4))%R /\
  (1 - row_std (batchnorm_formula sample_dA) 0
    = (1 / 10 ^ 4) / (row_std sample_dA 0 + 1 / 10 ^ 4))%R.
Proof.
  apply (proj1 (proj2 (proj2 batchnorm_rows)) sample_dA 0); simpl; lia.
Defined.

Lemma constant_row_std : row_std constant_row 0 = 0%R.
Proof.
  unfold row_std, row_mean, sum_upto. simpl.
  change (item constant_row 0 0) with 0%R.
  change (item constant_row 0 1) with 0%R.
  match goal with
  | |- sqrt ?x = _ => replace x with 0%R by (field; lra)
  end.
  apply sqrt_0.
Qed.

(** C7, the claim as stated fails: a row that is constant over the batch is
    normalised to a row of standard deviation 0, at distance 1 from 1. *)
Lemma batchnorm_constant_row_counterexample :
  batchnorm constant_row = Ok (batchnorm_formula constant_row) /\
  row_std (batchnorm_formula constant_row) 0 = 0%R /\
  ~ (Rabs (row_std (batchnorm_formula constant_row) 0 - 1) <= 1 / 10 ^ 4)%R.
Proof.
  assert (Hstd : row_std (batchnorm_formula constant_row) 0 = 0%R).
  { rewrite batchnorm_row_std by (simpl; lia).
    rewrite constant_row_std. unfold Rdiv. ring. }
  split; [apply batchnorm_ok|]. split; [exact Hstd|].
  rewrite Hstd.
  assert (E4 : (10 ^ 4 = 10000)%R) by (simpl; lra).
  rewrite E4. unfold Rabs. destruct (Rcase_abs (0 - 1)); lra.
Qed.

(** ** The cost *)

Section CostFacts.
Local Open Scope R_scope.

Lemma epsilon_R : epsilon (num := R) = 1 / 10 ^ 10.
Proof. reflexivity. Qed.

Lemma pow_10_10 : 10 ^ 10 = 10000000000.
Proof. simpl. lra. Qed.

Lemma compute_cost_ok (AL Y : ndarray R) :
  shape AL = shape Y -> ncols Y <> 0%nat ->
  compute_cost AL Y = Ok (cross_entropy_formula AL Y).
Proof.
  intros Hs Hm. unfold compute_cost. rewrite Hs, shape_eqb_refl. simpl.
  destruct (ncols Y =? 0)%nat eqn:Em; [apply Nat.eqb_eq in Em; contradiction|].
  unfold shape in Hs. injection Hs as Hr Hc.
  rewrite broadcast_same_shape
    by (unfold shape, np_clip, np_map; simpl; congruence).
  simpl. f_equal. unfold cross_entropy_formula.
  assert (Hn : INR (ncols Y) <> 0) by (apply not_0_INR; exact Hm).
  replace (- (1) / INR (ncols Y)) with (- (1 / INR (ncols Y))) by (field; exact Hn).
  f_equal. unfold np_sum. simpl.
  apply sum_upto_ext. intros i Hi. apply sum_upto_ext. intros j Hj.
  rewrite item_fromfunction by assumption.
  unfold np_clip, np_map. simpl.
  rewrite !item_fromfunction by congruence. reflexivity.
Qed.

(** The sum of all entries of one-hot labels counts the samples. *)
Lemma one_hot_total (Y : ndarray R) (c : R) :
  one_hot Y ->
  sum_upto (nrows Y) (fun i => sum_upto (ncols Y) (fun j => item Y i j * c))
  = INR (ncols Y) * c.
Proof.
  intros HY. rewrite Rsum_swap.
  rewrite (sum_upto_ext _ _ (fun _ => c)); [apply Rsum_const|].
  intros j Hj. destruct (HY j Hj) as (k & Hk & Hcol).
  rewrite Rsum_scale.
  rewrite (sum_upto_ext _ _ (fun i => if (i =? k)%nat then 1 else 0)) by exact Hcol.
  rewrite Rsum_indicator by exact Hk. ring.
Qed.

Lemma one_hot_entry (Y : ndarray R) (i j : nat) :
  one_hot Y -> (i < nrows Y)%nat -> (j < ncols Y)%nat ->
  item Y i j = 0 \/ item Y i j = 1.
Proof.
  intros HY Hi Hj. destruct (HY j Hj) as (k & _ & Hcol).
  rewrite Hcol by exact Hi. destruct (i =? k)%nat; auto.
Qed.

Lemma clip_inside (x : R) :
  1 / 10 ^ 10 <= x <= 1 - 1 / 10 ^ 10 ->
  Rmin (Rmax x (1 / 10 ^ 10)) (1 - 1 / 10 ^ 10) = x.
Proof.
  intros [Hlo Hhi]. rewrite Rmax_left by exact Hlo. apply Rmin_left. exact Hhi.
Qed.

Lemma clip_one : Rmin (Rmax 1 (1 / 10 ^ 10)) (1 - 1 / 10 ^ 10) = 1 - 1 / 10 ^ 10.
Proof.
  rewrite pow_10_10. rewrite Rmax_left by lra. apply Rmin_right. lra.
Qed.

(** The cost of a perfect prediction: positive, below [2e-10]. *)
Lemma perfect_cost_bounds :
  0 < - ln (1 - 1 / 10 ^ 10) < 2 * (1 / 10 ^ 10).
Proof.
  rewrite pow_10_10. set (e := 1 / 10000000000).
  assert (He : 0 < e < 1 / 2) by (unfold e; lra).
  split.
  - assert (ln (1 - e) < ln 1) by (apply ln_increasing; lra).
    rewrite ln_1 in *. lra.
  - assert (Hexp : exp (- (2 * e)) < 1 - e).
    { rewrite exp_Ropp.
      assert (H1 : 1 + 2 * e < exp (2 * e)) by (apply exp_ineq1; lra).
      assert (H2 : / exp (2 * e) < / (1 + 2 * e))
        by (apply Rinv_lt_contravar; [apply Rmult_lt_0_compat; lra | exact H1]).
      assert (H3 : / (1 + 2 * e) <= 1 - e).
      { apply (Rmult_le_reg_r (1 + 2 * e)); [lra|].
        rewrite Rinv_l by lra. nra. }
      lra. }
    assert (Hln : ln (exp (- (2 * e))) < ln (1 - e))
      by (apply ln_increasing; [apply exp_pos | exact Hexp]).
    rewrite ln_exp in Hln. lra.
Qed.

End CostFacts.

Section CostValues.
Local Open Scope R_scope.

Lemma uniform_cost (AL Y : ndarray R) :
  shape AL = shape Y -> ncols Y <> 0%nat ->
  one_hot Y -> (2 <= nrows Y)%nat -> INR (nrows Y) <= 10 ^ 10 ->
  (forall i j, (i < nrows Y)%nat -> (j < ncols Y)%nat ->
     item AL i j = 1 / INR (nrows Y)) ->
  compute_cost AL Y = Ok (ln (INR (nrows Y))).
Proof.
  intros Hs Hm HY Hk2 Hk10 Huni. rewrite compute_cost_ok by assumption.
  f_equal. unfold cross_entropy_formula.
  assert (Hk : 2 <= INR (nrows Y)) by (apply (le_INR 2); exact Hk2).
  assert (Hinv : 1 / 10 ^ 10 <= 1 / INR (nrows Y) <= 1 - 1 / 10 ^ 10).
  { pose proof pow_10_10 as E. split.
    - unfold Rdiv. rewrite !Rmult_1_l. apply Rinv_le_contravar; lra.
    - assert (/ INR (nrows Y) <= / 2) by (apply Rinv_le_contravar; lra).
      rewrite E. lra. }
  rewrite (sum_upto_ext _ _ (fun i => sum_upto (ncols Y) (fun j =>
             item Y i j * ln (1 / INR (nrows Y))))).
  2:{ intros i Hi. apply sum_upto_ext. intros j Hj.
      rewrite Huni by assumption. rewrite clip_inside by exact Hinv. reflexivity. }
  rewrite one_hot_total by exact HY.
  unfold Rdiv at 2. rewrite Rmult_1_l, ln_Rinv by lra.
  field. apply not_0_INR. exact Hm.
Qed.

Lemma perfect_cost (AL Y : ndarray R) :
  shape AL = shape Y -> ncols Y <> 0%nat ->
  one_hot Y ->
  (forall i j, (i < nrows Y)%nat -> (j < ncols Y)%nat -> item AL i j = item Y i j) ->
  compute_cost AL Y = Ok (- ln (1 - 1 / 10 ^ 10)).
Proof.
  intros Hs Hm HY Hsame. rewrite compute_cost_ok by assumption.
  f_equal. unfold cross_entropy_formula.
  rewrite (sum_upto_ext _ _ (fun i => sum_upto (ncols Y) (fun j =>
             item Y i j * ln (1 - 1 / 10 ^ 10)))).
  2:{ intros i Hi. apply sum_upto_ext. intros j Hj.
      rewrite Hsame by assumption.
      destruct (one_hot_entry Y i j HY Hi Hj) as [E | E]; rewrite E.
      - ring.
      - rewrite clip_one. reflexivity. }
  rewrite one_hot_total by exact HY.
  field. apply not_0_INR. exact Hm.
Qed.

End CostValues.

(** C4, as amended: for a prediction [AL] and labels [Y] of the same shape
    with [m > 0] columns, [compute_cost] returns [-(1/m)] times the sum of
    [Y * log(AL clipped into [1e-10, 1 - 1e-10])]; against one-hot labels of
    [k] classes, with [2 <= k <= 10^10], it is [ln k] when every entry of
    [AL] is [1/k]; and it is [- ln (1 - 1e-10)], a positive number below
    [2e-10], when [AL = Y]. *)
Theorem cross_entropy_values (AL Y : ndarray R) :
  shape AL = shape Y ->
  ncols Y <> 0 ->
  compute_cost AL Y = Ok (cross_entropy_formula AL Y) /\
  (one_hot Y -> 2 <= nrows Y -> (INR (nrows Y) <= 10 ^ 10)%R ->
   (forall i j, i < nrows Y -> j < ncols Y ->
      item AL i j = (1 / INR (nrows Y))%R) ->
   compute_cost AL Y = Ok (ln (INR (nrows Y)))) /\
  (one_hot Y ->
   (forall i j, i < nrows Y -> j < ncols Y -> item AL i j = item Y i j) ->
   compute_cost AL Y = Ok (- ln (1 - 1 / 10 ^ 10))%R /\
   (0 < - ln (1 - 1 / 10 ^ 10) < 2 * (1 / 10 ^ 10))%R).
Proof.
  intros Hs Hm. split; [apply compute_cost_ok; assumption|]. split.
  - intros HY Hk2 Hk10 Huni. apply uniform_cost; assumption.
  - intros HY Hsame. split; [apply perfect_cost; assumption|].
    apply perfect_cost_bounds.
Qed.

Lemma cross_entropy_values_witness :
  compute_cost (uniform_prediction 2 2) sample_Y
    = Ok (cross_entropy_formula (uniform_prediction 2 2) sample_Y) /\
  (one_hot sample_Y -> 2 <= nrows sample_Y ->
   (INR (nrows sample_Y) <= 10 ^ 10)%R ->
   (forall i j, i < nrows sample_Y -> j < ncols sample_Y ->
      item (uniform_prediction 2 2) i j = (1 / INR (nrows sample_Y))%R) ->
   compute_cost (uniform_prediction 2 2) sample_Y = Ok (ln (INR (nrows sample_Y)))) /\
  (one_hot sample_Y ->
   (forall i j, i < nrows sample_Y -> j < ncols sample_Y ->
      item (uniform_prediction 2 2) i j = item sample_Y i j) ->
   compute_cost (uniform_prediction 2 2) sample_Y = Ok (- ln (1 - 1 / 10 ^ 10))%R /\
   (0 < - ln (1 - 1 / 10 ^ 10) < 2 * (1 / 10 ^ 10))%R).
Proof.
  apply (cross_entropy_values (uniform_prediction 2 2) sample_Y);
    [reflexivity | simpl; lia].
Defined.

Lemma single_class_one_hot : one_hot single_class.
Proof.
  intros j Hj. exists 0. split; [simpl; lia|].
  intros i Hi. simpl in Hi, Hj.
  assert (i = 0) as -> by lia. assert (j = 0) as -> by lia. reflexivity.
Qed.

(** C4, the claim as stated fails: with a single class the uniform
    prediction is 1, which the clipping lowers to [1 - 1e-10]; the cost is
    [- ln (1 - 1e-10)], not [ln 1]. *)
Lemma single_class_cost_counterexample :
  one_hot single_class /\
  (forall i j, i < 1 -> j < 1 ->
     item (uniform_prediction 1 1) i j = (1 / INR 1)%R) /\
  compute_cost (uniform_prediction 1 1) single_class
    = Ok (- ln (1 - 1 / 10 ^ 10))%R /\
  (- ln (1 - 1 / 10 ^ 10))%R <> ln (INR 1).
Proof.
  split; [exact single_class_one_hot|]. split.
  - intros i j Hi Hj. unfold uniform_prediction.
    rewrite item_fromfunction by assumption. reflexivity.
  - split.
    + apply perfect_cost; [reflexivity | simpl; lia | exact single_class_one_hot |].
      intros i j Hi Hj. simpl in Hi, Hj.
      assert (i = 0) as -> by lia. assert (j = 0) as -> by lia.
      unfold uniform_prediction. rewrite item_fromfunction by lia.
      simpl. change (item single_class 0 0) with 1%R. field.
    + pose proof perfect_cost_bounds as [Hpos _].
      simpl INR. rewrite ln_1. lra.
Qed.

(** * Further properties of the program *)

(** ** Shapes that the layers accept *)

Section ShapeOutcomes.
Context {num : Type} `{Arith num}.

Lemma broadcast_dim_keep (a b : nat) :
  broadcast_dim a b = Ok a <-> b = a \/ b = 1.
Proof.
  unfold broadcast_dim.
  destruct (Nat.eqb_spec a b) as [-> | Hab]; [intuition|].
  destruct (Nat.eqb_spec a 1) as [-> | Ha].
  - split; [intros [= ->]; contradiction | intros [-> | ->]; contradiction].
  - destruct (Nat.eqb_spec b 1) as [-> | Hb]; [intuition|].
    split; [discriminate | intros [-> | ->]; contradiction].
Qed.

Lemma broadcast_inv (f : num -> num -> num) (A B C : ndarray num) :
  broadcast f A B = Ok C ->
  broadcast_dim (nrows A) (nrows B) = Ok (nrows C) /\
  broadcast_dim (ncols A) (ncols B) = Ok (ncols C).
Proof.
  unfold broadcast. intros Hrun.
  destruct (broadcast_dim (nrows A) (nrows B)) as [r|]; [|discriminate].
  destruct (broadcast_dim (ncols A) (ncols B)) as [c|]; [|discriminate].
  simpl in Hrun. injection Hrun as <-. auto.
Qed.

Lemma np_dot_inv (A B C : ndarray num) :
  np_dot A B = Ok C -> ncols A = nrows B /\ shape C = (nrows A, ncols B).
Proof.
  unfold np_dot. destruct (Nat.eqb_spec (ncols A) (nrows B)) as [E|E]; [|discriminate].
  intros [= <-]. auto.
Qed.

Lemma np_dot_mismatch (A B : ndarray num) :
  ncols A <> nrows B -> np_dot A B = Raise ValueError.
Proof.
  intros Hne. unfold np_dot.
  destruct (Nat.eqb_spec (ncols A) (nrows B)); [contradiction | reflexivity].
Qed.

(** A bias of the same number of rows, or of a single row, and of the same
    number of columns, or of a single column, is added without changing the
    shape. *)
Lemma broadcast_keep (f : num -> num -> num) (A b : ndarray num) :
  (nrows b = nrows A \/ nrows b = 1) -> (ncols b = ncols A \/ ncols b = 1) ->
  exists C, broadcast f A b = Ok C /\ shape C = shape A.
Proof.
  intros Hr Hc. unfold broadcast.
  rewrite (proj2 (broadcast_dim_keep _ _) Hr), (proj2 (broadcast_dim_keep _ _) Hc).
  simpl. eexists. split; reflexivity.
Qed.

(** The linear backward step, for operands of matching shapes. *)
Lemma linear_backward_ok (dZ A_prev W b : ndarray num) :
  ncols A_prev <> 0 ->
  shape dZ = (nrows W, ncols A_prev) ->
  ncols W = nrows A_prev ->
  shape b = (nrows W, 1) ->
  exists dA_prev dW db,
    linear_backward dZ (A_prev, W, b) = Ok (dA_prev, dW, db) /\
    shape dA_prev = shape A_prev /\ shape dW = shape W /\ shape db = shape b.
Proof.
  intros Hm HdZ HW Hb. unfold shape in HdZ, Hb.
  injection HdZ as HdZr HdZc. injection Hb as Hbr Hbc.
  unfold linear_backward.
  rewrite np_dot_ok by (simpl; congruence). simpl.
  destruct (Nat.eqb_spec (ncols A_prev) 0) as [E|_]; [contradiction|].
  rewrite np_dot_ok by (simpl; congruence). simpl.
  unfold scale, np_sum_axis1_keepdims, np_map, shape. simpl.
  rewrite HdZc, HW, HdZr, <- Hbr, <- Hbc, !shape_eqb_refl. simpl.
  eexists _, _, _. split; [reflexivity|].
  repeat split; first [reflexivity | rewrite Hbr, Hbc; reflexivity].
Qed.

End ShapeOutcomes.

(** X1: [linear_forward] returns exactly when the inner dimensions agree
    ([W.cols = A.rows]) and the bias has the rows of [W] or a single row and
    the columns of [A] or a single column; what it returns then has the shape
    [(W.rows, A.cols)]; inner dimensions that differ raise [ValueError]. *)
Theorem linear_forward_outcome {num : Type} `{Arith num} (A W b : ndarray num) :
  ((exists Z, linear_forward A W b = Ok (Z, (A, W, b))) <->
   ncols W = nrows A /\
   (nrows b = nrows W \/ nrows b = 1) /\ (ncols b = ncols A \/ ncols b = 1)) /\
  (forall Z c, linear_forward A W b = Ok (Z, c) -> shape Z = (nrows W, ncols A)) /\
  (ncols W <> nrows A -> linear_forward A W b = Raise ValueError).
Proof.
  split; [split|split].
  - intros [Z Hrun]. unfold linear_forward in Hrun.
    destruct (np_dot W A) as [WA|] eqn:Edot; [|discriminate].
    apply np_dot_inv in Edot as [HW HWA]. simpl in Hrun.
    destruct (broadcast num_add WA b) as [Z'|] eqn:Eb; [|discriminate].
    apply broadcast_inv in Eb as [Hr Hc]. simpl in Hrun.
    destruct (shape_eqb (shape Z') (nrows W, ncols A)) eqn:Es; [|discriminate].
    apply shape_eqb_eq in Es. unfold shape in Es, HWA.
    injection Es as Er Ec. injection HWA as HWAr HWAc.
    rewrite HWAr, Er in Hr. rewrite HWAc, Ec in Hc.
    apply broadcast_dim_keep in Hr, Hc. auto.
  - intros (HW & Hr & Hc). unfold linear_forward.
    rewrite np_dot_ok by exact HW. simpl.
    destruct (broadcast_keep num_add
                (fromfunction (nrows W) (ncols A) (fun i j =>
                   sum_upto (ncols W) (fun k => (item W i k * item A k j)%num)))
                b Hr Hc) as (C & HC & HsC).
    rewrite HC. simpl. rewrite HsC, shape_fromfunction, shape_eqb_refl. simpl.
    exists C. reflexivity.
  - intros Z c Hrun. unfold linear_forward in Hrun.
    destruct (np_dot W A) as [WA|]; [|discriminate]. simpl in Hrun.
    destruct (broadcast num_add WA b) as [Z'|]; [|discriminate]. simpl in Hrun.
    destruct (shape_eqb (shape Z') (nrows W, ncols A)) eqn:Es; [|discriminate].
    injection Hrun as <- _. apply shape_eqb_eq. exact Es.
  - intros Hne. unfold linear_forward. rewrite np_dot_mismatch by exact Hne.
    reflexivity.
Qed.

(** X2: [linear_backward] returns exactly when the batch is not empty and
    the operands have the shapes of a forward step: [dZ] of shape
    [(W.rows, m)], [W.cols = A_prev.rows] and [b] of shape [(W.rows, 1)];
    what it returns has the shapes of [A_prev], [W] and [b]; an empty batch
    raises [ZeroDivisionError] once [W.T . dZ] has been formed. *)
Theorem linear_backward_outcome {num : Type} `{Arith num}
    (dZ A_prev W b : ndarray num) :
  ((exists r, linear_backward dZ (A_prev, W, b) = Ok r) <->
   ncols A_prev <> 0 /\ shape dZ = (nrows W, ncols A_prev) /\
   ncols W = nrows A_prev /\ shape b = (nrows W, 1)) /\
  (forall dA_prev dW db,
     linear_backward dZ (A_prev, W, b) = Ok (dA_prev, dW, db) ->
     shape dA_prev = shape A_prev /\ shape dW = shape W /\ shape db = shape b) /\
  (nrows W = nrows dZ -> ncols A_prev = 0 ->
   linear_backward dZ (A_prev, W, b) = Raise ZeroDivisionError).
Proof.
  split; [split|split].
  - intros [[[dA dW] db] Hrun].
    pose proof (linear_backward_shapes _ _ _ _ _ _ _ Hrun) as (HsA & HsW & Hsb).
    unfold linear_backward in Hrun.
    destruct (np_dot (transpose W) dZ) as [dA'|] eqn:E1; [|discriminate].
    apply np_dot_inv in E1 as [Hin HdA']. simpl in Hrun, Hin, HdA'.
    destruct (Nat.eqb_spec (ncols A_prev) 0) as [|Hm]; [discriminate|].
    destruct (np_dot dZ (transpose A_prev)) as [dZA|] eqn:E2; [|discriminate].
    apply np_dot_inv in E2 as [Hin2 HdZA]. simpl in Hrun, Hin2, HdZA.
    destruct (shape_eqb (shape dA') (shape A_prev)) eqn:S1; [|discriminate].
    simpl in Hrun.
    destruct (shape_eqb _ (shape W)) eqn:S2; [|discriminate]. simpl in Hrun.
    destruct (shape_eqb _ (shape b)) eqn:S3; [|discriminate].
    apply shape_eqb_eq in S1, S3. rewrite HdA' in S1.
    unfold shape in S1, S3. simpl in S3.
    injection S1 as S1r S1c. injection S3 as S3r S3c.
    repeat split; unfold shape; congruence.
  - intros (Hm & HdZ & HW & Hb).
    destruct (linear_backward_ok dZ A_prev W b Hm HdZ HW Hb)
      as (dA & dW & db & Hrun & _).
    eexists. exact Hrun.
  - apply linear_backward_shapes.
  - intros Hin Hm. unfold linear_backward.
    rewrite (np_dot_ok (transpose W) dZ) by (simpl; exact Hin). simpl.
    rewrite Hm. reflexivity.
Qed.

(** X3: masking twice is masking once: the array that [relu_backward]
    returns (the caller's array, overwritten) is left as it is by a second
    call with the same cache. *)
Theorem relu_backward_twice {num : Type} `{Arith num} (dA Z dZ : ndarray num) :
  relu_backward dA Z = Ok dZ -> relu_backward dZ Z = Ok dZ.
Proof.
  intros Hrun. destruct (relu_backward_shape _ _ _ Hrun) as [Hs HsdZ].
  rewrite relu_backward_ok in Hrun by exact Hs. injection Hrun as <-.
  rewrite relu_backward_ok by (rewrite <- Hs; reflexivity).
  f_equal. simpl. apply fromfunction_ext. intros i j Hi Hj.
  rewrite item_fromfunction by assumption.
  destruct (item Z i j <=? zero)%num; reflexivity.
Qed.

Lemma relu_backward_twice_witness :
  relu_backward (mk_ndarray 2 2 [[0; 0]; [3; 4]]%float) float_Z
  = Ok (mk_ndarray 2 2 [[0; 0]; [3; 4]]%float).
Proof.
  apply (relu_backward_twice float_dA float_Z). vm_compute. reflexivity.
Defined.

(** ** The softmax is a distribution *)

Section SoftmaxDistribution.
Local Open Scope R_scope.

Lemma Rsum_le (n : nat) (f g : nat -> R) :
  (forall k, (k < n)%nat -> f k <= g k) -> sum_upto n f <= sum_upto n g.
Proof.
  induction n as [|n IH]; intros Hfg; [rewrite !Rsum_0; lra|].
  rewrite !Rsum_S. pose proof (Hfg n (Nat.lt_succ_diag_r n)).
  assert (sum_upto n f <= sum_upto n g) by (apply IH; intros k Hk; apply Hfg; lia).
  lra.
Qed.

Lemma Rsum_pos (n : nat) (f : nat -> R) :
  n <> 0%nat -> (forall k, (k < n)%nat -> 0 < f k) -> 0 < sum_upto n f.
Proof.
  intros Hn Hf. destruct n as [|n]; [contradiction|].
  rewrite Rsum_S. pose proof (Hf n (Nat.lt_succ_diag_r n)).
  assert (0 <= sum_upto n f)
    by (apply Rsum_nonneg; intros k Hk; apply Rlt_le, Hf; lia).
  lra.
Qed.

Lemma Rsum_term_le (n i : nat) (f : nat -> R) :
  (i < n)%nat -> (forall k, (k < n)%nat -> 0 <= f k) -> f i <= sum_upto n f.
Proof.
  induction n as [|n IH]; intros Hi Hf; [lia|]. rewrite Rsum_S.
  pose proof (Hf n (Nat.lt_succ_diag_r n)).
  assert (0 <= sum_upto n f) by (apply Rsum_nonneg; intros k Hk; apply Hf; lia).
  destruct (Nat.eq_dec i n) as [-> | Hne]; [lra|].
  assert (f i <= sum_upto n f) by (apply IH; [lia | intros k Hk; apply Hf; lia]).
  lra.
Qed.

Lemma softmax_formula_columns (Z : ndarray R) (j : nat) :
  nrows Z <> 0%nat -> (j < ncols Z)%nat ->
  sum_upto (nrows Z) (fun i => item (softmax_formula Z) i j) = 1 /\
  forall i, (i < nrows Z)%nat -> 0 < item (softmax_formula Z) i j <= 1.
Proof.
  intros Hr Hj.
  set (S := sum_upto (nrows Z) (fun k => exp (item Z k j))).
  assert (HS : 0 < S)
    by (apply Rsum_pos; [exact Hr | intros k _; apply exp_pos]).
  assert (Hitem : forall i, (i < nrows Z)%nat ->
            item (softmax_formula Z) i j = exp (item Z i j) * / S).
  { intros i Hi. unfold softmax_formula.
    rewrite item_fromfunction by assumption. reflexivity. }
  split.
  - rewrite (sum_upto_ext _ _ (fun i => exp (item Z i j) * / S)) by exact Hitem.
    rewrite Rsum_scale. fold S. field. lra.
  - intros i Hi. rewrite Hitem by exact Hi.
    assert (Hle : exp (item Z i j) <= S).
    { apply (Rsum_term_le (nrows Z) i (fun k => exp (item Z k j)) Hi).
      intros k _. apply Rlt_le, exp_pos. }
    pose proof (exp_pos (item Z i j)) as Hpos.
    assert (HinvS : 0 < / S) by (apply Rinv_0_lt_compat; exact HS).
    split; [apply Rmult_lt_0_compat; assumption|].
    apply (Rmult_le_reg_r S); [exact HS|].
    rewrite Rmult_assoc, Rinv_l by lra. lra.
Qed.

Lemma exp_monotone (x y : R) : x <= y -> exp x <= exp y.
Proof.
  intros [Hlt | ->]; [|lra]. apply Rlt_le, exp_increasing. exact Hlt.
Qed.

Lemma Rdiv_le_cross (a b S U : R) :
  0 <= a <= b -> 0 < S <= U -> a / U <= b / S.
Proof.
  intros [Ha Hab] [HS HSU].
  assert (HU : 0 < U) by lra.
  apply Rle_trans with (b / U).
  - unfold Rdiv. apply Rmult_le_compat_r; [|exact Hab].
    apply Rlt_le, Rinv_0_lt_compat. exact HU.
  - unfold Rdiv. apply Rmult_le_compat_l; [lra|].
    apply Rinv_le_contravar; assumption.
Qed.

(** With pre-activations between [-B] and [B], every exponential lies
    between [exp (-B)] and [exp B], a column of [n] of them adds up to
    [n * exp B] at most, and no entry of the softmax falls below
    [exp (-B) / (n * exp B)]. *)
Lemma softmax_formula_floor (Z : ndarray R) (B : R) (i j : nat) :
  (i < nrows Z)%nat -> (j < ncols Z)%nat ->
  (forall k, (k < nrows Z)%nat -> - B <= item Z k j <= B) ->
  0 < exp (- B) / (INR (nrows Z) * exp B) <= item (softmax_formula Z) i j.
Proof.
  intros Hi Hj Hbound.
  assert (Hn : 0 < INR (nrows Z)) by (apply lt_0_INR; lia).
  pose proof (exp_pos B) as HeB. pose proof (exp_pos (- B)) as HemB.
  split; [apply Rdiv_lt_0_compat; [exact HemB | apply Rmult_lt_0_compat; assumption]|].
  unfold softmax_formula. rewrite item_fromfunction by assumption.
  cbn [np_exp R_transcendental num_div R_arith].
  apply Rdiv_le_cross.
  - split; [lra|]. apply exp_monotone. apply (Hbound i Hi).
  - split.
    + apply Rsum_pos; [lia | intros k _; apply exp_pos].
    + rewrite <- Rsum_const. apply Rsum_le. intros k Hk.
      apply exp_monotone. apply (Hbound k Hk).
Qed.

End SoftmaxDistribution.

(** X4: on pre-activations with at least one row and every entry between
    -300 and 300 (where neither [exp] nor the column sums leave the range of
    binary64), [softmax] returns an array of the same shape, with [Z]
    itself as cache, whose entries add up to 1 in every column and lie
    between [exp (-300) / (n * exp 300)], which is positive, and 1, for [n]
    rows. *)
Theorem softmax_distribution (Z : ndarray R) :
  nrows Z <> 0 ->
  (forall i j, i < nrows Z -> j < ncols Z -> (-300 <= item Z i j <= 300)%R) ->
  exists A,
    softmax Z = Ok (A, Z) /\ shape A = shape Z /\
    forall j, j < ncols Z ->
      sum_upto (nrows Z) (fun i => item A i j) = 1%R /\
      forall i, i < nrows Z ->
        (0 < exp (-300) / (INR (nrows Z) * exp 300) <= item A i j)%R /\
        (item A i j <= 1)%R.
Proof.
  intros Hr Hbound. exists (softmax_formula Z). split; [|split].
  - unfold softmax. rewrite softmax_values_ok. reflexivity.
  - reflexivity.
  - intros j Hj.
    destruct (softmax_formula_columns Z j Hr Hj) as [Hsum Hunit].
    split; [exact Hsum|]. intros i Hi. split.
    + apply (softmax_formula_floor Z 300 i j Hi Hj).
      intros k Hk. apply Hbound; assumption.
    + apply Hunit. exact Hi.
Qed.

Lemma sample_Z_bounded (B : R) (i j : nat) :
  (2 <= B)%R -> i < nrows sample_Z -> j < ncols sample_Z ->
  (- B <= item sample_Z i j <= B)%R.
Proof.
  intros HB Hi Hj. simpl in Hi, Hj.
  destruct i as [|[|i]]; [| |lia]; (destruct j as [|[|j]]; [| |lia]);
    cbn [item sample_Z data nth]; lra.
Qed.

Lemma softmax_distribution_witness :
  exists A,
    softmax sample_Z = Ok (A, sample_Z) /\ shape A = shape sample_Z /\
    forall j, j < ncols sample_Z ->
      sum_upto (nrows sample_Z) (fun i => item A i j) = 1%R /\
      forall i, i < nrows sample_Z ->
        (0 < exp (-300) / (INR (nrows sample_Z) * exp 300) <= item A i j)%R /\
        (item A i j <= 1)%R.
Proof.
  apply (softmax_distribution sample_Z); [simpl; lia|].
  intros i j Hi Hj. apply (sample_Z_bounded 300); [lra | assumption..].
Defined.






(** ** The range of the cost *)

Section CostRange.
Local Open Scope R_scope.

Lemma ln_monotone (x y : R) : 0 < x -> x <= y -> ln x <= ln y.
Proof.
  intros Hx [Hlt | ->]; [|lra]. apply Rlt_le, ln_increasing; assumption.
Qed.

Lemma clip_range (x : R) :
  1 / 10 ^ 10 <= Rmin (Rmax x (1 / 10 ^ 10)) (1 - 1 / 10 ^ 10) <= 1 - 1 / 10 ^ 10.
Proof.
  rewrite pow_10_10. unfold Rmin, Rmax.
  destruct (Rle_dec x (1 / 10000000000));
    destruct (Rle_dec _ (1 - 1 / 10000000000)); lra.
Qed.

Lemma one_hot_weighted_bounds (Y : ndarray R) (g : nat -> nat -> R) (lo hi : R) :
  one_hot Y ->
  (forall i j, (i < nrows Y)%nat -> (j < ncols Y)%nat -> lo <= g i j <= hi) ->
  INR (ncols Y) * lo
  <= sum_upto (nrows Y) (fun i => sum_upto (ncols Y) (fun j => item Y i j * g i j))
  <= INR (ncols Y) * hi.
Proof.
  intros HY Hg.
  rewrite <- (one_hot_total Y lo HY), <- (one_hot_total Y hi HY).
  split; apply Rsum_le; intros i Hi; apply Rsum_le; intros j Hj;
    destruct (Hg i j Hi Hj) as [Hlo Hhi];
    destruct (one_hot_entry Y i j HY Hi Hj) as [E | E]; rewrite E; lra.
Qed.

Lemma cross_entropy_formula_range (AL Y : ndarray R) :
  ncols Y <> 0%nat -> one_hot Y ->
  - ln (1 - 1 / 10 ^ 10) <= cross_entropy_formula AL Y <= - ln (1 / 10 ^ 10).
Proof.
  intros Hm HY. unfold cross_entropy_formula.
  assert (Hn : 0 < INR (ncols Y)) by (apply lt_0_INR; lia).
  destruct (one_hot_weighted_bounds Y
              (fun i j => ln (Rmin (Rmax (item AL i j) (1 / 10 ^ 10))
                                   (1 - 1 / 10 ^ 10)))
              (ln (1 / 10 ^ 10)) (ln (1 - 1 / 10 ^ 10)) HY) as [Hlo Hhi].
  { intros i j _ _. pose proof (clip_range (item AL i j)) as [Hc1 Hc2].
    assert (0 < 1 / 10 ^ 10) by (rewrite pow_10_10; lra).
    split; apply ln_monotone; lra. }
  set (S := sum_upto (nrows Y) _) in *.
  assert (Hinv : 0 < / INR (ncols Y)) by (apply Rinv_0_lt_compat; exact Hn).
  assert (E : forall c, - (1 / INR (ncols Y)) * (INR (ncols Y) * c) = - c)
    by (intros c; field; lra).
  rewrite <- (E (ln (1 / 10 ^ 10))), <- (E (ln (1 - 1 / 10 ^ 10))).
  split; apply Rmult_le_compat_neg_l; try assumption;
    unfold Rdiv; rewrite Rmult_1_l; lra.
Qed.

End CostRange.

(** X6: against one-hot labels on a batch that is not empty, the cost of any
    prediction of the labels' shape lies between [- ln (1 - 1e-10)], which is
    positive, and [- ln 1e-10]: the clipping keeps it finite and away
    from 0. *)
Theorem compute_cost_range (AL Y : ndarray R) :
  shape AL = shape Y -> ncols Y <> 0 -> one_hot Y ->
  exists cost,
    compute_cost AL Y = Ok cost /\
    (0 < - ln (1 - 1 / 10 ^ 10) <= cost)%R /\ (cost <= - ln (1 / 10 ^ 10))%R.
Proof.
  intros Hs Hm HY. exists (cross_entropy_formula AL Y).
  split; [apply compute_cost_ok; assumption|].
  destruct (cross_entropy_formula_range AL Y Hm HY) as [Hlo Hhi].
  pose proof perfect_cost_bounds as [Hpos _]. auto.
Qed.

Lemma sample_Y_one_hot : one_hot sample_Y.
Proof.
  intros j Hj. exists j. split; [exact Hj|]. intros i Hi. simpl in Hi, Hj.
  destruct i as [|[|i]]; destruct j as [|[|j]]; try lia; reflexivity.
Qed.

Lemma compute_cost_range_witness :
  exists cost,
    compute_cost sample_AL sample_Y = Ok cost /\
    (0 < - ln (1 - 1 / 10 ^ 10) <= cost)%R /\ (cost <= - ln (1 / 10 ^ 10))%R.
Proof.
  apply (compute_cost_range sample_AL sample_Y);
    [reflexivity | simpl; lia | exact sample_Y_one_hot].
Defined.

(** X7: [compute_cost] raises [AssertionError] when prediction and labels
    differ in shape, and [ZeroDivisionError] on a batch of no sample; it
    returns in every other case. *)
Theorem compute_cost_outcome {num : Type} `{Arith num} `{Transcendental num}
    (AL Y : ndarray num) :
  (shape AL <> shape Y -> compute_cost AL Y = Raise AssertionError) /\
  (shape AL = shape Y -> ncols Y = 0 -> compute_cost AL Y = Raise ZeroDivisionError) /\
  (shape AL = shape Y -> ncols Y <> 0 -> exists cost, compute_cost AL Y = Ok cost).
Proof.
  unfold compute_cost. split; [|split].
  - intros Hne. destruct (shape_eqb (shape AL) (shape Y)) eqn:E; [|reflexivity].
    apply shape_eqb_eq in E. contradiction.
  - intros Hs Hm. rewrite Hs, shape_eqb_refl, Hm. reflexivity.
  - intros Hs Hm. rewrite Hs, shape_eqb_refl. simpl.
    destruct (Nat.eqb_spec (ncols Y) 0) as [|_]; [contradiction|].
    unfold shape in Hs. injection Hs as Hr Hc.
    rewrite broadcast_same_shape
      by (unfold shape, np_clip, np_map; simpl; congruence).
    simpl. eexists. reflexivity.
Qed.

(** ** Batch normalisation forgets a shift *)

Section BatchnormShift.
Local Open Scope R_scope.
Variables (c : nat -> R) (A : ndarray R).

Lemma shift_rows_mean (i : nat) :
  (i < nrows A)%nat -> ncols A <> 0%nat ->
  row_mean (shift_rows c A) i = row_mean A i + c i.
Proof.
  intros Hi Hm. unfold row_mean.
  change (ncols (shift_rows c A)) with (ncols A).
  rewrite (sum_upto_ext _ _ (fun j => item A i j + c i)).
  2:{ intros j Hj. unfold shift_rows. rewrite item_fromfunction by assumption.
      reflexivity. }
  rewrite Rsum_plus, Rsum_const. cbn [num_div of_nat R_arith].
  assert (Hsplit : forall S n x : R, n <> 0 -> (S + n * x) / n = S / n + x)
    by (intros S n x Hn; field; exact Hn).
  apply Hsplit. apply not_0_INR. exact Hm.
Qed.

Lemma shift_rows_std (i : nat) :
  (i < nrows A)%nat -> ncols A <> 0%nat ->
  row_std (shift_rows c A) i = row_std A i.
Proof.
  intros Hi Hm. unfold row_std.
  rewrite shift_rows_mean by assumption.
  change (ncols (shift_rows c A)) with (ncols A).
  f_equal. f_equal. apply sum_upto_ext. intros j Hj.
  unfold shift_rows. rewrite item_fromfunction by assumption.
  cbn [num_sub num_mul R_arith]. ring.
Qed.

Lemma batchnorm_formula_shift :
  batchnorm_formula (shift_rows c A) = batchnorm_formula A.
Proof.
  unfold batchnorm_formula.
  change (nrows (shift_rows c A)) with (nrows A).
  change (ncols (shift_rows c A)) with (ncols A).
  apply fromfunction_ext. intros i j Hi Hj.
  assert (Hm : ncols A <> 0%nat) by lia.
  rewrite shift_rows_mean, shift_rows_std by assumption.
  unfold shift_rows. rewrite item_fromfunction by assumption.
  cbn [num_sub num_div num_add R_arith]. f_equal. ring.
Qed.

End BatchnormShift.

(** X8: [batchnorm] returns on every array, with the shape of its argument,
    and forgets a shift: adding a constant to a whole row (one constant per
    row) leaves the result as it is. *)
Theorem batchnorm_shift_invariant (c : nat -> R) (A : ndarray R) :
  exists NA,
    batchnorm A = Ok NA /\ shape NA = shape A /\
    batchnorm (shift_rows c A) = Ok NA.
Proof.
  exists (batchnorm_formula A). split; [apply batchnorm_ok|].
  split; [reflexivity|].
  rewrite batchnorm_ok, batchnorm_formula_shift. reflexivity.
Qed.

(** ** The forward pass returns on a well-shaped network *)

Section ForwardReturns.
Context {num : Type} `{Arith num} `{Transcendental num}.
Variables (layers_dim : list nat) (W_b_dict : gmap string (ndarray num))
          (use_batchnorm : bool).
Hypothesis shaped : well_shaped layers_dim W_b_dict.

Lemma well_shaped_size : size W_b_dict / 2 = length layers_dim - 1.
Proof.
  destruct shaped as [[Hsize _] _]. rewrite Hsize, Nat.mul_comm.
  apply Nat.div_mul. lia.
Qed.

Lemma well_shaped_layer (l : nat) :
  1 <= l < length layers_dim ->
  exists n n_prev W b,
    layers_dim !! l = Some n /\ layers_dim !! (l - 1) = Some n_prev /\
    W_b_dict !! ("W" +:+ str l) = Some W /\ W_b_dict !! ("b" +:+ str l) = Some b /\
    shape W = (n, n_prev) /\ shape b = (n, 1).
Proof.
  intros [Hl1 Hl2].
  destruct (lookup_lt_is_Some_2 layers_dim l Hl2) as [n Hn].
  destruct (lookup_lt_is_Some_2 layers_dim (l - 1)) as [n_prev Hprev]; [lia|].
  destruct shaped as [_ Hshapes].
  destruct (Hshapes l n n_prev Hl1 Hn Hprev) as (W & b & HW & Hb & HsW & Hsb).
  exists n, n_prev, W, b. auto 10.
Qed.

(** What a hidden layer passes on has the shape of its pre-activation. *)
Lemma passed_on_ok (Z : ndarray num) :
  exists A_next,
    (if use_batchnorm then batchnorm (np_map (np_maximum zero) Z)
     else Ok (np_map (np_maximum zero) Z)) = Ok A_next /\
    shape A_next = shape Z.
Proof.
  destruct use_batchnorm.
  - exists (batchnorm_formula (np_map (np_maximum zero) Z)).
    split; [apply batchnorm_ok | reflexivity].
  - exists (np_map (np_maximum zero) Z). split; reflexivity.
Qed.

Lemma hidden_layers_exist (m k : nat) :
  forall (l : nat) (A : ndarray num) (n_prev : nat),
  1 <= l -> l + k <= length layers_dim ->
  layers_dim !! (l - 1) = Some n_prev -> shape A = (n_prev, m) ->
  exists hidden A_last n_last,
    hidden_layers W_b_dict use_batchnorm l A hidden A_last /\
    length hidden = k /\
    layers_dim !! (l + k - 1) = Some n_last /\ shape A_last = (n_last, m).
Proof.
  induction k as [|k IH]; intros l A n_prev Hl Hlen Hprev HA.
  - exists [], A, n_prev. rewrite Nat.add_0_r.
    repeat split; [constructor | assumption..].
  - destruct (well_shaped_layer l) as (n & n_prev' & W & b & Hn & Hprev' & HW & Hb
                                       & HsW & Hsb); [lia|].
    assert (n_prev' = n_prev) as -> by congruence.
    unfold shape in HsW, HA. injection HsW as HWr HWc. injection HA as HAr HAc.
    assert (Hlin : linear_forward A W b = Ok (linear_formula A W b, (A, W, b))).
    { apply linear_forward_ok; [congruence | rewrite Hsb, HWr; reflexivity]. }
    destruct (passed_on_ok (linear_formula A W b)) as (A_next & Hnext & HsNext).
    destruct (IH (S l) A_next n) as (hidden & A_last & n_last & Hhid & Hk & Hlast & HsL).
    + lia.
    + lia.
    + replace (S l - 1) with l by lia. exact Hn.
    + rewrite HsNext. unfold shape. simpl. congruence.
    + exists (((A, W, b), linear_formula A W b) :: hidden), A_last, n_last.
      split; [econstructor; eassumption|].
      split; [simpl; congruence|].
      split; [|exact HsL].
      replace (l + S k - 1) with (S l + k - 1) by lia. exact Hlast.
Qed.

Lemma L_model_forward_returns (X : ndarray num) (n0 : nat) :
  3 <= length layers_dim ->
  layers_dim !! 0 = Some n0 -> shape X = (n0, ncols X) ->
  exists AL caches nL,
    L_model_forward X W_b_dict use_batchnorm = Ok (AL, caches) /\
    length caches = length layers_dim - 1 /\
    last layers_dim = Some nL /\ shape AL = (nL, ncols X).
Proof.
  intros Hlen Hn0 HX.
  set (L := length layers_dim - 1).
  destruct (hidden_layers_exist (ncols X) (L - 1) 1 X n0)
    as (hidden & A & n_last & Hhid & Hk & Hlast & HsA);
    [lia | unfold L; lia | exact Hn0 | exact HX |].
  destruct (well_shaped_layer L) as (nL & n_prev & W & b & HnL & Hprev & HW & Hb
                                     & HsW & Hsb); [unfold L; lia|].
  replace (1 + (L - 1) - 1) with (L - 1) in Hlast by lia.
  assert (n_prev = n_last) as -> by congruence.
  unfold shape in HsW, HsA. injection HsW as HWr HWc. injection HsA as HAr HAc.
  assert (Hlin : linear_forward A W b = Ok (linear_formula A W b, (A, W, b))).
  { apply linear_forward_ok; [congruence | rewrite Hsb, HWr; reflexivity]. }
  exists (softmax_formula (linear_formula A W b)),
         (hidden ++ [((A, W, b), linear_formula A W b)]), nL.
  split; [|split; [|split]].
  - apply (L_model_forward_iff _ _ _ _ _ L); [apply well_shaped_size | unfold L; lia |].
    exists hidden, A, W, b, (linear_formula A W b). auto 10.
  - rewrite length_app, Hk. simpl. unfold L. lia.
  - rewrite last_lookup. replace (pred (length layers_dim)) with L by (unfold L; lia).
    exact HnL.
  - unfold shape. simpl. congruence.
Qed.

End ForwardReturns.

(** ** The caches of a forward pass are ready for the backward pass *)

Section CachesReady.
Context {num : Type} `{Arith num} `{Transcendental num}.
Variables (layers_dim : list nat) (W_b_dict : gmap string (ndarray num))
          (use_batchnorm : bool).
Hypothesis shaped : well_shaped layers_dim W_b_dict.

Lemma linear_forward_inner (A W b Z : ndarray num) (c : linear_cache num) :
  linear_forward A W b = Ok (Z, c) -> ncols W = nrows A.
Proof.
  unfold linear_forward. intros Hrun.
  destruct (np_dot W A) as [WA|] eqn:Edot; [|discriminate].
  apply np_dot_inv in Edot as [HW _]. exact HW.
Qed.

Lemma layer_cache_ready (l : nat) (A W b Z : ndarray num) :
  1 <= l < length layers_dim ->
  W_b_dict !! ("W" +:+ str l) = Some W ->
  W_b_dict !! ("b" +:+ str l) = Some b ->
  linear_forward A W b = Ok (Z, (A, W, b)) ->
  cache_ready (ncols A) ((A, W, b), Z).
Proof.
  intros Hl HW Hb Hlin.
  destruct (well_shaped_layer layers_dim W_b_dict shaped l Hl)
    as (n & n_prev & W' & b' & _ & _ & HW' & Hb' & HsW & Hsb).
  assert (W' = W) as -> by congruence. assert (b' = b) as -> by congruence.
  destruct (linear_forward_inv _ _ _ _ _ Hlin) as [_ HZ].
  unfold cache_ready. simpl.
  unfold shape in HsW. injection HsW as HWr _.
  repeat split; [eapply linear_forward_inner; exact Hlin | exact HZ |].
  rewrite Hsb, HWr. reflexivity.
Qed.

Lemma hidden_layers_ready (l : nat) (A A_last : ndarray num)
    (hidden : list (cache num)) :
  hidden_layers W_b_dict use_batchnorm l A hidden A_last ->
  1 <= l -> l + length hidden <= length layers_dim ->
  Forall (cache_ready (ncols A)) hidden /\
  forall i c, hidden !! i = Some c ->
    W_b_dict !! ("W" +:+ str (l + i)) = Some (snd (fst (fst c))) /\
    W_b_dict !! ("b" +:+ str (l + i)) = Some (snd (fst c)).
Proof.
  induction 1 as [l A|l A W b Z A_next A_last caches HW Hb Hlin Hnorm Hrest IH];
    intros Hl Hlen.
  - split; [constructor|]. intros i c Hi. destruct i; discriminate.
  - simpl in Hlen.
    assert (Hcols : ncols A_next = ncols A).
    { destruct (linear_forward_inv _ _ _ _ _ Hlin) as [_ HZ].
      unfold shape in HZ. injection HZ as _ HZc.
      destruct use_batchnorm.
      - apply batchnorm_shape in Hnorm. unfold shape in Hnorm. simpl in Hnorm.
        injection Hnorm as _ Hc. congruence.
      - injection Hnorm as <-. simpl. exact HZc. }
    destruct IH as [IHready IHkeys]; [lia | lia |].
    rewrite Hcols in IHready. split.
    + constructor; [|exact IHready].
      apply (layer_cache_ready l); [lia | assumption..].
    + intros i c Hi. destruct i as [|i].
      * injection Hi as <-. rewrite Nat.add_0_r. simpl. auto.
      * replace (l + S i) with (S l + i) by lia. apply IHkeys. exact Hi.
Qed.

(** The caches of a pass over the whole network. *)
Lemma forward_pass_ready (X AL : ndarray num) (caches : list (cache num)) :
  1 <= length layers_dim - 1 ->
  forward_pass W_b_dict use_batchnorm (length layers_dim - 1) X AL caches ->
  length caches = length layers_dim - 1 /\
  Forall (cache_ready (ncols X)) caches /\
  caches_chained caches /\
  (exists c, last caches = Some c /\ shape AL = shape (snd c)) /\
  forall i c, caches !! i = Some c ->
    W_b_dict !! ("W" +:+ str (i + 1)) = Some (snd (fst (fst c))) /\
    W_b_dict !! ("b" +:+ str (i + 1)) = Some (snd (fst c)).
Proof.
  intros HL (hidden & A & W & b & Z & -> & Hlen & Hhid & HW & Hb & Hlin & ->).
  destruct (hidden_layers_ready _ _ _ _ Hhid) as [Hready Hkeys]; [lia | lia |].
  pose proof (hidden_layers_ncols _ _ _ _ _ _ Hhid) as Hcols.
  split; [rewrite length_app; simpl; lia|]. split; [|split; [|split]].
  - apply Forall_app. split; [exact Hready|]. constructor; [|constructor].
    rewrite <- Hcols. apply (layer_cache_ready (length layers_dim - 1));
      [lia | assumption..].
  - intros i [[[A_i W_i] b_i] Z_i] [[[A_n W_n] b_n] Z_n] Hi Hn. simpl.
    destruct (hidden_layers_chain _ _ _ _ _ _ ((A, W, b), Z) Hhid eq_refl)
      as [_ Hchain].
    destruct (Hchain i _ _ _ _ _ _ _ _ Hi Hn) as [_ ->].
    destruct use_batchnorm; reflexivity.
  - exists ((A, W, b), Z). split; [apply last_snoc | reflexivity].
  - intros i c Hi. destruct (decide (i < length hidden)) as [Hlt|Hge].
    + rewrite lookup_app_l in Hi by exact Hlt.
      replace (i + 1) with (1 + i) by lia. apply Hkeys. exact Hi.
    + rewrite lookup_app_r in Hi by lia.
      destruct (i - length hidden) as [|k] eqn:Ek; [|destruct k; discriminate].
      injection Hi as <-. simpl.
      replace (i + 1) with (length layers_dim - 1) by lia. auto.
Qed.

End CachesReady.

(** ** The backward pass returns on ready caches *)

Lemma grad_key_dA_dW (i j : nat) : "dA" +:+ str i <> "dW" +:+ str j.
Proof. simpl. discriminate. Qed.

Lemma grad_key_dA_db (i j : nat) : "dA" +:+ str i <> "db" +:+ str j.
Proof. simpl. discriminate. Qed.

Lemma grad_key_dW_db (i j : nat) : "dW" +:+ str i <> "db" +:+ str j.
Proof. simpl. discriminate. Qed.

Ltac grad_key :=
  first [ apply key_ne; lia
        | apply grad_key_dA_dW | apply grad_key_dA_db | apply grad_key_dW_db
        | apply not_eq_sym;
          first [ apply grad_key_dA_dW | apply grad_key_dA_db | apply grad_key_dW_db ] ].

Ltac grad_lookup :=
  repeat first [ rewrite lookup_insert_eq | rewrite lookup_insert_ne by grad_key ].

Section BackwardReturns.
Context {num : Type} `{Arith num} `{Transcendental num}.
Variables (m : nat) (caches : list (cache num)).
Hypothesis batch_not_empty : m <> 0.
Hypothesis ready : Forall (cache_ready m) caches.
Hypothesis chained : caches_chained caches.

Lemma cache_ready_backward (dZ A W b Z : ndarray num) :
  cache_ready m ((A, W, b), Z) -> shape dZ = shape Z ->
  exists dA_prev dW db,
    linear_backward dZ (A, W, b) = Ok (dA_prev, dW, db) /\
    shape dA_prev = shape A /\ shape dW = shape W /\ shape db = shape b.
Proof.
  intros (HA & HW & HZ & Hb) HdZ. simpl in HA, HW, HZ, Hb.
  apply linear_backward_ok.
  - rewrite HA. exact batch_not_empty.
  - rewrite HdZ, HZ, HA. reflexivity.
  - exact HW.
  - exact Hb.
Qed.

Lemma backward_layer_step (i : nat) (grads : gmap string (ndarray num)) :
  S i < length caches ->
  gradients_stored caches grads (S i) ->
  exists grads',
    backward_layer caches i grads = Ok grads' /\
    gradients_stored caches grads' i.
Proof.
  intros Hi Hstored.
  destruct (lookup_lt_is_Some_2 caches i) as [[[[A W] b] Z] Hc]; [lia|].
  destruct (lookup_lt_is_Some_2 caches (S i) Hi) as [[[[A' W'] b'] Z'] Hc'].
  destruct (Hstored (S i) A' W' b' Z' (le_n _) Hc')
    as (dA' & dW' & db' & HdA' & HsdA' & _).
  replace (S i + 1) with (i + 2) in HdA' by lia.
  pose proof (chained i _ _ Hc Hc') as Hchain. simpl in Hchain.
  assert (Hs : shape dA' = shape Z) by congruence.
  assert (Hcr : cache_ready m ((A, W, b), Z)).
  { apply (proj1 (List.Forall_forall _ _) ready).
    apply list_elem_of_In. eapply list_elem_of_lookup_2. exact Hc. }
  destruct (cache_ready_backward (relu_mask dA' Z) A W b Z Hcr)
    as (dA & dW & db & Hlin & HsA & HsW & Hsb); [exact Hs|].
  rewrite (backward_layer_ok caches i A W b Z dA' grads Hc HdA' Hs), Hlin.
  eexists. split; [reflexivity|].
  intros j Aj Wj bj Zj Hj Hcj.
  destruct (decide (j = i)) as [-> | Hne].
  - assert (E : (Aj, Wj, bj, Zj) = (A, W, b, Z)) by congruence.
    injection E as -> -> -> ->.
    exists dA, dW, db. grad_lookup. auto 10.
  - destruct (Hstored j Aj Wj bj Zj) as (dAj & dWj & dbj & HdAj & HsdAj & HdWj
                                         & HsdWj & Hdbj & Hsdbj); [lia | exact Hcj |].
    destruct (decide (j = S i)) as [-> | Hne'].
    + replace (S i + 1) with (i + 2) in * by lia.
      assert (E : (Aj, Wj, bj, Zj) = (A', W', b', Z')) by congruence.
      injection E as -> -> -> ->.
      exists (relu_mask dA' Z), dWj, dbj. grad_lookup.
      repeat split; assumption.
    + exists dAj, dWj, dbj. grad_lookup. auto 10.
Qed.

Lemma backward_loop (n : nat) :
  forall grads : gmap string (ndarray num),
  n < length caches ->
  gradients_stored caches grads n ->
  exists grads',
    for_in (rev (seq 0 n)) (backward_layer caches) grads = Ok grads' /\
    gradients_stored caches grads' 0.
Proof.
  induction n as [|n IH]; intros grads Hn Hstored.
  - exists grads. split; [reflexivity | exact Hstored].
  - rewrite seq_S, rev_app_distr. simpl. 
    destruct (backward_layer_step n grads Hn Hstored) as (grads1 & Hstep & Hstored1).
    rewrite Hstep. simpl. apply IH; [lia | exact Hstored1].
Qed.

Lemma L_model_backward_returns (AL Y : ndarray num) (c : cache num) :
  last caches = Some c ->
  shape AL = shape (snd c) ->
  nrows Y * ncols Y = nrows AL * ncols AL ->
  exists grads,
    L_model_backward AL Y caches = Ok grads /\
    gradients_stored caches grads 0.
Proof.
  destruct c as [[[A W] b] Z]. simpl. intros Hlast HAL HY.
  assert (Hlen : length caches <> 0).
  { destruct caches; [discriminate | simpl; lia]. }
  assert (Hc : caches !! (length caches - 1) = Some ((A, W, b), Z)).
  { rewrite last_lookup in Hlast. replace (length caches - 1) with (pred (length caches))
      by lia. exact Hlast. }
  assert (Hcr : cache_ready m ((A, W, b), Z)).
  { apply (proj1 (List.Forall_forall _ _) ready).
    apply list_elem_of_In. eapply list_elem_of_lookup_2. exact Hc. }
  unfold L_model_backward, reshape.
  rewrite (proj2 (Nat.eqb_eq _ _) HY). cbn [mbind result_bind].
  rewrite output_gradient_ok by reflexivity. cbn [mbind result_bind].
  unfold last_item. rewrite Hlast. cbn [mbind result_bind].
  unfold linear_activation_backward.
  rewrite softmax_backward_ok by (rewrite <- HAL; reflexivity).
  cbn [mbind result_bind].
  match goal with
  | |- context [linear_backward ?dZ (A, W, b)] =>
      destruct (cache_ready_backward dZ A W b Z Hcr eq_refl)
        as (dA & dW & db & Hlin & HsA & HsW & Hsb)
  end.
  rewrite Hlin. cbn [mbind result_bind].
  apply backward_loop; [lia|].
  intros j Aj Wj bj Zj Hj Hcj.
  assert (j = length caches - 1) as ->.
  { apply lookup_lt_Some in Hcj. lia. }
  assert (E : (Aj, Wj, bj, Zj) = (A, W, b, Z)) by congruence.
  injection E as -> -> -> ->.
  replace (length caches - 1 + 1) with (length caches) by lia.
  exists dA, dW, db. grad_lookup. auto 10.
Qed.

End BackwardReturns.

Section BackwardGradients.
Context {num : Type} `{Arith num} `{Transcendental num}.

Lemma L_model_backward_gradients (layers_dim : list nat)
    (W_b_dict : gmap string (ndarray num)) (use_batchnorm : bool)
    (X Y AL : ndarray num) (caches : list (cache num)) :
  well_shaped layers_dim W_b_dict ->
  L_model_forward X W_b_dict use_batchnorm = Ok (AL, caches) ->
  ncols X <> 0 ->
  nrows Y * ncols Y = nrows AL * ncols AL ->
  exists grads,
    L_model_backward AL Y caches = Ok grads /\
    gradients_for (length layers_dim - 1) W_b_dict grads.
Proof.
  intros Hshaped Hrun Hm HY.
  pose proof (L_model_forward_Ok_layers _ _ _ _ _ Hrun) as HL.
  apply (L_model_forward_iff _ _ _ _ _ _ eq_refl HL) in Hrun.
  rewrite (well_shaped_size layers_dim W_b_dict Hshaped) in Hrun, HL.
  destruct (forward_pass_ready layers_dim W_b_dict use_batchnorm Hshaped X AL caches)
    as (Hlen & Hready & Hchained & (c & Hlast & HAL) & Hkeys); [lia | exact Hrun |].
  destruct (L_model_backward_returns (ncols X) caches Hm Hready Hchained AL Y c
              Hlast HAL HY) as (grads & Hback & Hstored).
  exists grads. split; [exact Hback|].
  intros l W b Hl HW Hb.
  destruct (lookup_lt_is_Some_2 caches (l - 1)) as [[[[A W'] b'] Z] Hc]; [lia|].
  destruct (Hkeys _ _ Hc) as [HW' Hb']. simpl in HW', Hb'.
  replace (l - 1 + 1) with l in HW', Hb' by lia.
  assert (W' = W) as -> by congruence. assert (b' = b) as -> by congruence.
  destruct (Hstored (l - 1) A W b Z) as (dA & dW & db & _ & _ & HdW & HsW & Hdb & Hsb);
    [lia | exact Hc |].
  replace (l - 1 + 1) with l in HdW, Hdb by lia.
  exists dW, db. auto.
Qed.

End BackwardGradients.

(** ** The gradients that the backward pass computes *)

Section ChainFacts.
Context {num : Type} `{Arith num} `{Transcendental num}.
Variables AL Y : ndarray num.

Lemma unnormalized_chain_cons (c c' : cache num) (rest : list (cache num)) :
  unnormalized_chain AL Y (c :: c' :: rest) =
    match unnormalized_chain AL Y (c' :: rest) with
    | [] => []
    | dZ' :: dZs =>
        relu_mask (dA_prev_formula dZ' (snd (fst (fst c')))) (snd c) :: dZ' :: dZs
    end.
Proof. reflexivity. Qed.

Lemma unnormalized_chain_nonempty (above : list (cache num)) :
  forall c, unnormalized_chain AL Y (c :: above) <> [].
Proof.
  induction above as [|c' rest IH]; intros c; [discriminate|].
  rewrite unnormalized_chain_cons.
  destruct (unnormalized_chain AL Y (c' :: rest)) eqn:E; [|discriminate].
  exfalso. exact (IH c' E).
Qed.

Lemma unnormalized_chain_above (c c' : cache num) (rest : list (cache num)) :
  exists dZ' dZs,
    unnormalized_chain AL Y (c' :: rest) = dZ' :: dZs /\
    unnormalized_chain AL Y (c :: c' :: rest) =
      relu_mask (dA_prev_formula dZ' (snd (fst (fst c')))) (snd c) :: dZ' :: dZs.
Proof.
  rewrite unnormalized_chain_cons.
  destruct (unnormalized_chain AL Y (c' :: rest)) as [|dZ' dZs] eqn:E.
  - exfalso. exact (unnormalized_chain_nonempty rest c' E).
  - exists dZ', dZs. split; reflexivity.
Qed.

(** The chain starts at the last cache, with the softmax step. *)
Lemma unnormalized_chain_last (caches : list (cache num)) (c : cache num) :
  last caches = Some c ->
  unnormalized_chain AL Y caches !! (length caches - 1)
  = Some (surrogate_formula (dAL_formula AL Y) (snd c)).
Proof.
  induction caches as [|c0 above IH]; [discriminate|].
  destruct above as [|c' rest].
  - intros [= <-]. reflexivity.
  - intros Hlast. change (last (c' :: rest) = Some c) in Hlast.
    destruct (unnormalized_chain_above c0 c' rest) as (dZ' & dZs & Eabove & ->).
    rewrite Eabove in IH.
    replace (length (c0 :: c' :: rest) - 1) with (S (length (c' :: rest) - 1))
      by (simpl; lia).
    apply IH. exact Hlast.
Qed.

(** Every step down masks what the layer above hands down by the cached
    [Z] of the layer itself. *)
Lemma unnormalized_chain_step (caches : list (cache num)) :
  forall i c c' dZ',
  caches !! i = Some c -> caches !! S i = Some c' ->
  unnormalized_chain AL Y caches !! S i = Some dZ' ->
  unnormalized_chain AL Y caches !! i
  = Some (relu_mask (dA_prev_formula dZ' (snd (fst (fst c')))) (snd c)).
Proof.
  induction caches as [|c0 above IH]; intros i c c' dZ' Hc Hc' HdZ';
    [discriminate|].
  destruct above as [|c1 rest]; [destruct i; discriminate|].
  destruct (unnormalized_chain_above c0 c1 rest) as (dZ1 & dZs & Eabove & E).
  rewrite E in HdZ' |- *. destruct i as [|i].
  - injection Hc as <-. injection Hc' as <-. injection HdZ' as <-. reflexivity.
  - change ((c1 :: rest) !! i = Some c) in Hc.
    change ((c1 :: rest) !! S i = Some c') in Hc'.
    change ((dZ1 :: dZs) !! S i = Some dZ') in HdZ'.
    change ((dZ1 :: dZs) !! i
            = Some (relu_mask (dA_prev_formula dZ' (snd (fst (fst c')))) (snd c))).
    rewrite <- Eabove in HdZ' |- *. exact (IH i c c' dZ' Hc Hc' HdZ').
Qed.

End ChainFacts.

Section BackwardValues.
Context {num : Type} `{Arith num} `{Transcendental num}.
Variables (m : nat) (caches : list (cache num)) (AL Y : ndarray num).
Hypothesis batch_not_empty : m <> 0.
Hypothesis ready : Forall (cache_ready m) caches.
Hypothesis chained : caches_chained caches.

Lemma linear_backward_values (dZ A W b Z : ndarray num) :
  cache_ready m ((A, W, b), Z) -> shape dZ = shape Z ->
  linear_backward dZ (A, W, b)
  = Ok (dA_prev_formula dZ W, dW_formula dZ A, db_formula dZ A).
Proof.
  intros (HA & HW & HZ & Hb) HdZ. simpl in HA, HW, HZ, Hb.
  rewrite HZ in HdZ. unfold shape in HdZ, Hb.
  injection HdZ as HdZr HdZc. injection Hb as Hbr Hbc.
  unfold linear_backward.
  rewrite np_dot_ok by (simpl; congruence). cbn [mbind result_bind].
  destruct (Nat.eqb_spec (ncols A) 0) as [E|_]; [congruence|].
  rewrite np_dot_ok by (simpl; congruence). cbn [mbind result_bind].
  rewrite scale_fromfunction.
  unfold np_sum_axis1_keepdims. rewrite scale_fromfunction.
  unfold dA_prev_formula, dW_formula, db_formula.
  rewrite !shape_fromfunction. unfold shape. simpl.
  rewrite HdZc, HdZr, HW, Hbr, Hbc, <- HA, !shape_eqb_refl.
  cbn [mbind result_bind assert].
  do 3 f_equal.
  - apply fromfunction_ext. intros i j Hi Hj.
    apply sum_upto_ext. intros k Hk.
    rewrite item_transpose by lia. reflexivity.
  - apply fromfunction_ext. intros i j Hi Hj.
    f_equal. apply sum_upto_ext. intros k Hk.
    rewrite item_transpose by lia. reflexivity.
Qed.

Lemma backward_layer_values (i : nat) (grads : gmap string (ndarray num)) :
  S i < length caches ->
  gradients_chained AL Y caches (S i) grads ->
  exists grads',
    backward_layer caches i grads = Ok grads' /\
    gradients_chained AL Y caches i grads'.
Proof.
  intros Hi Hinv.
  destruct (lookup_lt_is_Some_2 caches i) as [[[[A W] b] Z] Hc]; [lia|].
  destruct (lookup_lt_is_Some_2 caches (S i) Hi) as [[[[A' W'] b'] Z'] Hc'].
  destruct (Hinv (S i) A' W' b' Z' (le_n _) Hc')
    as (dZ' & Hch' & Hs' & _ & _ & HdA' & _).
  specialize (HdA' eq_refl).
  replace (S i + 1) with (i + 2) in HdA' by lia.
  pose proof (chained i _ _ Hc Hc') as Hchain. simpl in Hchain.
  assert (Hcr : cache_ready m ((A, W, b), Z)).
  { apply (proj1 (List.Forall_forall _ _) ready).
    apply list_elem_of_In. eapply list_elem_of_lookup_2. exact Hc. }
  assert (Hcr' : cache_ready m ((A', W', b'), Z')).
  { apply (proj1 (List.Forall_forall _ _) ready).
    apply list_elem_of_In. eapply list_elem_of_lookup_2. exact Hc'. }
  assert (Hs : shape (dA_prev_formula dZ' W') = shape Z).
  { destruct Hcr' as (HA' & HW' & HZ' & _). simpl in HA', HW', HZ'.
    rewrite HZ' in Hs'. unfold shape in Hs'. injection Hs' as _ Hc1.
    rewrite <- Hchain. unfold dA_prev_formula.
    rewrite shape_fromfunction. unfold shape. congruence. }
  pose proof (unnormalized_chain_step AL Y caches i _ _ dZ' Hc Hc' Hch') as Hch.
  simpl in Hch.
  assert (Hsm : shape (relu_mask (dA_prev_formula dZ' W') Z) = shape Z).
  { rewrite <- Hs. unfold relu_mask. apply shape_fromfunction. }
  rewrite (backward_layer_ok caches i A W b Z _ grads Hc HdA' Hs).
  rewrite (linear_backward_values _ A W b Z Hcr Hsm). cbn [mbind result_bind].
  eexists. split; [reflexivity|].
  intros j Aj Wj bj Zj Hj Hcj.
  destruct (decide (j = i)) as [-> | Hne].
  - assert (E : (Aj, Wj, bj, Zj) = (A, W, b, Z)) by congruence.
    injection E as -> -> -> ->.
    exists (relu_mask (dA_prev_formula dZ' W') Z).
    split; [exact Hch|]. split; [exact Hsm|].
    grad_lookup. repeat split; try reflexivity.
    intros k Hk Hle. lia.
  - destruct (Hinv j Aj Wj bj Zj) as (dZj & Hchj & Hsj & HdWj & Hdbj & HdAj & Hbelow);
      [lia | exact Hcj |].
    exists dZj. split; [exact Hchj|]. split; [exact Hsj|].
    grad_lookup. split; [exact HdWj|]. split; [exact Hdbj|].
    split; [intros ->; contradiction|].
    intros k -> Hk. destruct (decide (k = i)) as [-> | Hki].
    + replace (S i + 1) with (i + 2) by lia. grad_lookup.
      symmetry. exact Hch.
    + grad_lookup. apply Hbelow; [reflexivity | lia].
Qed.

Lemma backward_values_loop (n : nat) :
  forall grads : gmap string (ndarray num),
  n < length caches ->
  gradients_chained AL Y caches n grads ->
  exists grads',
    for_in (rev (seq 0 n)) (backward_layer caches) grads = Ok grads' /\
    gradients_chained AL Y caches 0 grads'.
Proof.
  induction n as [|n IH]; intros grads Hn Hinv.
  - exists grads. split; [reflexivity | exact Hinv].
  - rewrite seq_S, rev_app_distr. simpl.
    destruct (backward_layer_values n grads Hn Hinv) as (grads1 & Hstep & Hinv1).
    rewrite Hstep. simpl. apply IH; [lia | exact Hinv1].
Qed.

Lemma L_model_backward_values (c : cache num) :
  last caches = Some c ->
  shape AL = shape (snd c) ->
  shape Y = shape AL ->
  exists grads,
    L_model_backward AL Y caches = Ok grads /\
    unnormalized_gradients AL Y caches grads.
Proof.
  destruct c as [[[A W] b] Z]. simpl. intros Hlast HAL HY.
  assert (Hlen : length caches <> 0).
  { destruct caches; [discriminate | simpl; lia]. }
  assert (Hc : caches !! (length caches - 1) = Some ((A, W, b), Z)).
  { rewrite last_lookup in Hlast. replace (length caches - 1) with (pred (length caches))
      by lia. exact Hlast. }
  assert (Hcr : cache_ready m ((A, W, b), Z)).
  { apply (proj1 (List.Forall_forall _ _) ready).
    apply list_elem_of_In. eapply list_elem_of_lookup_2. exact Hc. }
  pose proof (unnormalized_chain_last AL Y caches _ Hlast) as Hch. simpl in Hch.
  assert (Hreshape : reshape Y (nrows AL) (ncols AL)
                     = Ok (fromfunction (nrows Y) (ncols Y) (fun i j => item Y i j))).
  { unfold shape in HY. injection HY as Hr Hc0.
    rewrite <- Hr, <- Hc0. apply reshape_same_shape. }
  assert (HdAL : forall Y', shape Y' = shape AL ->
            (forall i j, i < nrows AL -> j < ncols AL -> item Y' i j = item Y i j) ->
            output_gradient AL Y' = Ok (dAL_formula AL Y)).
  { intros Y' Hs Hitems. rewrite (output_gradient_ok AL Y' Hs).
    f_equal. apply dAL_formula_ext. exact Hitems. }
  unfold L_model_backward. rewrite Hreshape. cbn [mbind result_bind].
  rewrite HdAL.
  2:{ rewrite shape_fromfunction. exact HY. }
  2:{ intros i j Hi Hj. unfold shape in HY. injection HY as Hr Hc0.
      rewrite item_fromfunction by congruence. reflexivity. }
  cbn [mbind result_bind].
  unfold last_item. rewrite Hlast. cbn [mbind result_bind].
  unfold linear_activation_backward.
  rewrite softmax_backward_ok by (rewrite <- HAL; reflexivity).
  cbn [mbind result_bind].
  assert (Hsm : shape (surrogate_formula (dAL_formula AL Y) Z) = shape Z)
    by (unfold surrogate_formula; apply shape_fromfunction).
  rewrite (linear_backward_values _ A W b Z Hcr Hsm). cbn [mbind result_bind].
  unfold range. rewrite Nat.sub_0_r.
  match goal with
  | |- exists grads, for_in _ _ ?g0 = Ok grads /\ _ =>
      destruct (backward_values_loop (length caches - 1) g0) as (grads & Hrun & Hinv)
  end.
  - lia.
  - intros j Aj Wj bj Zj Hj Hcj.
    assert (j = length caches - 1) as ->.
    { apply lookup_lt_Some in Hcj. lia. }
    assert (E : (Aj, Wj, bj, Zj) = (A, W, b, Z)) by congruence.
    injection E as -> -> -> ->.
    replace (length caches - 1 + 1) with (length caches) by lia.
    exists (surrogate_formula (dAL_formula AL Y) Z).
    split; [exact Hch|]. split; [exact Hsm|].
    grad_lookup. repeat split; try reflexivity.
    intros k Hk Hle. lia.
  - exists grads. split; [exact Hrun|].
    intros i Ai Wi bi Zi Hci.
    destruct (Hinv i Ai Wi bi Zi (Nat.le_0_l i) Hci)
      as (dZ & Hchi & _ & HdW & Hdb & HdA & Hbelow).
    exists dZ. split; [exact Hchi|]. split; [exact HdW|]. split; [exact Hdb|].
    split; [exact HdA|]. intros k Hk. apply Hbelow; [exact Hk | lia].
Qed.

End BackwardValues.

(** C10: [L_model_backward] takes the output, the labels and the caches,
    and no flag.  The caches a forward pass returns hold, for every layer,
    the pre-activation [Z = W . A + b] as it was before any normalisation,
    while with [use_batchnorm] the input cached by the next layer is the
    normalised [maximum(0, Z)].  On these caches the backward pass returns,
    for either setting of the flag, the gradients of the chain without
    normalisation: [dZ = dAL * A * (1 - A)] at the softmax, below it
    [dZ = W'.T . dZ'] of the layer above set to 0 where the cached [Z] is not
    positive, and for every layer [dW = (1/m) dZ . A.T] and
    [db = (1/m) *] the row sums of [dZ]. *)
Theorem backward_ignores_batchnorm {num : Type} `{Arith num}
    `{Transcendental num} (layers_dim : list nat)
    (W_b_dict : gmap string (ndarray num)) (use_batchnorm : bool)
    (X Y AL : ndarray num) (caches : list (cache num)) :
  well_shaped layers_dim W_b_dict ->
  L_model_forward X W_b_dict use_batchnorm = Ok (AL, caches) ->
  ncols X <> 0 ->
  shape Y = shape AL ->
  (forall i A_i W_i b_i Z_i A_n W_n b_n Z_n,
     caches !! i = Some ((A_i, W_i, b_i), Z_i) ->
     caches !! S i = Some ((A_n, W_n, b_n), Z_n) ->
     linear_forward A_i W_i b_i = Ok (Z_i, (A_i, W_i, b_i)) /\
     A_n = if use_batchnorm
           then batchnorm_formula (np_map (np_maximum zero) Z_i)
           else np_map (np_maximum zero) Z_i) /\
  exists grads,
    L_model_backward AL Y caches = Ok grads /\
    unnormalized_gradients AL Y caches grads.
Proof.
  intros Hshaped Hrun Hm HY.
  pose proof (L_model_forward_Ok_layers _ _ _ _ _ Hrun) as HL.
  apply (L_model_forward_iff _ _ _ _ _ _ eq_refl HL) in Hrun as Hpass.
  split.
  - destruct Hpass as (hidden & A & W & b & Z & -> & _ & Hhid & _).
    apply (hidden_layers_chain _ _ _ _ _ _ _ Hhid). reflexivity.
  - rewrite (well_shaped_size layers_dim W_b_dict Hshaped) in Hpass, HL.
    destruct (forward_pass_ready layers_dim W_b_dict use_batchnorm Hshaped X AL
                caches) as (_ & Hready & Hchained & (c & Hlast & HAL) & _);
      [lia | exact Hpass |].
    exact (L_model_backward_values (ncols X) caches AL Y Hm Hready Hchained c
             Hlast HAL HY).
Qed.


(** X9: on parameters with the shapes that the layer widths prescribe, for
    at least two layers, and an input with one row per feature, the forward
    pass returns: one cache per layer and an output with one row per class
    and one column per sample, with or without batch normalisation. *)
Theorem forward_pass_returns {num : Type} `{Arith num} `{Transcendental num}
    (layers_dim : list nat) (W_b_dict : gmap string (ndarray num))
    (use_batchnorm : bool) (X : ndarray num) (n0 : nat) :
  well_shaped layers_dim W_b_dict ->
  3 <= length layers_dim ->
  layers_dim !! 0 = Some n0 -> shape X = (n0, ncols X) ->
  exists AL caches nL,
    L_model_forward X W_b_dict use_batchnorm = Ok (AL, caches) /\
    length caches = length layers_dim - 1 /\
    last layers_dim = Some nL /\ shape AL = (nL, ncols X).
Proof. intros Hshaped. apply L_model_forward_returns. exact Hshaped. Qed.

Lemma sample_network_shaped : well_shaped [2; 2; 2] sample_network.
Proof.
  split.
  - split.
    + unfold sample_network.
      rewrite !map_size_insert_None, map_size_empty; [reflexivity|..];
        rewrite ?lookup_insert_ne by discriminate; apply lookup_empty.
    + intros l Hl. simpl in Hl.
      assert (l = 1 \/ l = 2) as [-> | ->] by lia; split; eexists; reflexivity.
  - intros l n n_prev Hl Hn Hprev.
    destruct l as [|[|[|l]]]; [lia | | | discriminate].
    + injection Hn as <-. injection Hprev as <-.
      exists sample_dA, sample_b. repeat split; reflexivity.
    + injection Hn as <-. injection Hprev as <-.
      exists sample_Z, sample_b. repeat split; reflexivity.
Qed.

Lemma forward_pass_returns_witness :
  exists AL caches nL,
    L_model_forward sample_X sample_network false = Ok (AL, caches) /\
    length caches = length [2; 2; 2] - 1 /\
    last [2; 2; 2] = Some nL /\ shape AL = (nL, ncols sample_X).
Proof.
  apply (forward_pass_returns [2; 2; 2] sample_network false sample_X 2).
  - exact sample_network_shaped.
  - simpl. lia.
  - reflexivity.
  - reflexivity.
Defined.

(** X10: after a forward pass over well-shaped parameters on a batch that is
    not empty, with labels that have as many entries as the output, the
    backward pass returns, and its dictionary holds for every layer the
    gradients ["dW"] and ["db"] with the shapes of ["W"] and ["b"]. *)
Theorem backward_pass_returns {num : Type} `{Arith num} `{Transcendental num}
    (layers_dim : list nat) (W_b_dict : gmap string (ndarray num))
    (use_batchnorm : bool) (X Y AL : ndarray num) (caches : list (cache num)) :
  well_shaped layers_dim W_b_dict ->
  L_model_forward X W_b_dict use_batchnorm = Ok (AL, caches) ->
  ncols X <> 0 ->
  nrows Y * ncols Y = nrows AL * ncols AL ->
  exists grads,
    L_model_backward AL Y caches = Ok grads /\
    gradients_for (length layers_dim - 1) W_b_dict grads.
Proof. apply L_model_backward_gradients. Qed.

Lemma backward_pass_returns_witness :
  exists grads,
    L_model_backward sample_output sample_Y sample_caches = Ok grads /\
    gradients_for (length [2; 2; 2] - 1) sample_network grads.
Proof.
  apply (backward_pass_returns [2; 2; 2] sample_network true sample_X sample_Y
           sample_output sample_caches).
  - exact sample_network_shaped.
  - exact sample_forward_pass.
  - simpl. lia.
  - reflexivity.
Defined.

Lemma backward_ignores_batchnorm_witness :
  (forall i A_i W_i b_i Z_i A_n W_n b_n Z_n,
     sample_caches !! i = Some ((A_i, W_i, b_i), Z_i) ->
     sample_caches !! S i = Some ((A_n, W_n, b_n), Z_n) ->
     linear_forward A_i W_i b_i = Ok (Z_i, (A_i, W_i, b_i)) /\
     A_n = batchnorm_formula (np_map (np_maximum zero) Z_i)) /\
  exists grads,
    L_model_backward sample_output sample_Y sample_caches = Ok grads /\
    unnormalized_gradients sample_output sample_Y sample_caches grads.
Proof.
  apply (backward_ignores_batchnorm [2; 2; 2] sample_network true sample_X
           sample_Y sample_output sample_caches).
  - exact sample_network_shaped.
  - exact sample_forward_pass.
  - simpl. lia.
  - reflexivity.
Defined.

(** ** The training step *)

Section Loops.
Context {I S : Type}.

(** A loop whose body returns and takes the invariant from one position of
    the list to the next, returns with the invariant at the end. *)
Lemma for_in_steps (body : I -> S -> result S) (ls : list I) :
  forall (Inv : nat -> S -> Prop) (s : S),
  Inv 0 s ->
  (forall k i s, ls !! k = Some i -> Inv k s ->
     exists s', body i s = Ok s' /\ Inv (Datatypes.S k) s') ->
  exists s', for_in ls body s = Ok s' /\ Inv (length ls) s'.
Proof.
  induction ls as [|i ls IH]; intros Inv s H0 Hstep.
  - exists s. split; [reflexivity | exact H0].
  - destruct (Hstep 0 i s eq_refl H0) as (s1 & Hbody & H1).
    destruct (IH (fun k => Inv (Datatypes.S k)) s1 H1) as (s' & Hrun & Hend).
    { intros k i' s2 Hk Hinv. apply (Hstep (Datatypes.S k) i' s2 Hk Hinv). }
    exists s'. rewrite for_in_cons, Hbody. split; [exact Hrun | exact Hend].
Qed.

End Loops.

Section UpdateKeys.
Context {num : Type} `{Arith num}.

Lemma dict_get_inv {V : Type} (d : gmap string V) (k : string) (r : result V) :
  dict_get d k = r ->
  (exists v, d !! k = Some v /\ r = Ok v) \/ (d !! k = None /\ r = Raise KeyError).
Proof.
  unfold dict_get. destruct (d !! k) as [v|]; intros <-; [left; eauto | right; auto].
Qed.

(** One step of the update overwrites two keys that are there. *)
Lemma update_layer_keys (grads W_b_dict W_b_dict' : gmap string (ndarray num))
    (learning_rate : num) (L2_norm : bool) (l : nat) :
  update_layer grads learning_rate L2_norm l W_b_dict = Ok W_b_dict' ->
  dom W_b_dict' = dom W_b_dict.
Proof.
  unfold update_layer. intros Hrun.
  apply bind_Ok in Hrun as (P1 & HW & Hrun).
  assert (HP1 : dom P1 = dom W_b_dict).
  { destruct L2_norm.
    - apply bind_Ok in HW as (W & HgW & HW).
      apply bind_Ok in HW as (dW & _ & HW).
      apply bind_Ok in HW as (W' & _ & HW).
      apply bind_Ok in HW as (G & _ & HW).
      apply bind_Ok in HW as (W_new & _ & HW).
      injection HW as <-. apply dict_get_Ok in HgW.
      rewrite dom_insert_L.
      apply subseteq_union_1_L, singleton_subseteq_l, elem_of_dom. eauto.
    - apply bind_Ok in HW as (W & HgW & HW).
      apply bind_Ok in HW as (dW & _ & HW).
      apply bind_Ok in HW as (W_new & _ & HW).
      injection HW as <-. apply dict_get_Ok in HgW.
      rewrite dom_insert_L.
      apply subseteq_union_1_L, singleton_subseteq_l, elem_of_dom. eauto. }
  apply bind_Ok in Hrun as (b & Hgb & Hrun).
  apply bind_Ok in Hrun as (db & _ & Hrun).
  apply bind_Ok in Hrun as (b_new & _ & Hrun).
  injection Hrun as <-. apply dict_get_Ok in Hgb.
  rewrite dom_insert_L, <- HP1.
  apply subseteq_union_1_L, singleton_subseteq_l, elem_of_dom. eauto.
Qed.

Lemma update_loop_keys (grads : gmap string (ndarray num)) (learning_rate : num)
    (L2_norm : bool) (ls : list nat) :
  forall W_b_dict W_b_dict' : gmap string (ndarray num),
  for_in ls (update_layer grads learning_rate L2_norm) W_b_dict = Ok W_b_dict' ->
  dom W_b_dict' = dom W_b_dict.
Proof.
  induction ls as [|l ls IH]; intros P P' Hrun.
  - injection Hrun as <-. reflexivity.
  - rewrite for_in_cons in Hrun. apply bind_Ok in Hrun as (P1 & Hstep & Hrun).
    rewrite (IH _ _ Hrun). eapply update_layer_keys. exact Hstep.
Qed.

End UpdateKeys.

Section UpdateShapes.

Lemma shape_updated_weight (learning_rate : R) (L2_norm : bool) (W dW : ndarray R) :
  shape (updated_weight learning_rate L2_norm W dW) = shape W.
Proof. reflexivity. Qed.

Lemma shape_updated_bias (learning_rate : R) (b db : ndarray R) :
  shape (updated_bias learning_rate b db) = shape b.
Proof. reflexivity. Qed.

Lemma update_parameters_shaped (layers_dim : list nat)
    (W_b_dict grads : gmap string (ndarray R)) (learning_rate : R)
    (L2_norm : bool) :
  well_shaped layers_dim W_b_dict ->
  gradients_for (length layers_dim - 1) W_b_dict grads ->
  exists W_b_dict',
    update_parameters W_b_dict grads learning_rate L2_norm = Ok W_b_dict' /\
    well_shaped layers_dim W_b_dict'.
Proof.
  intros [[Hsize Hkeys] Hshapes] Hgrads. unfold update_parameters.
  rewrite Hsize, Nat.mul_comm, Nat.div_mul by lia.
  set (L := length layers_dim - 1) in *.
  replace (L + 1) with (1 + L) by lia. rewrite range_S.
  destruct (update_loop grads learning_rate L2_norm (seq 1 L) W_b_dict)
    as (P' & Hrun & HWs & Hbs & _).
  { apply NoDup_seq. }
  { intros l Hl. apply elem_of_seq in Hl.
    destruct (Hkeys l) as [[W HW] [b Hb]]; [lia|].
    destruct (Hgrads l W b) as (dW & db & HdW & Hdb & HsW & Hsb); [lia | assumption..|].
    exists W, b, dW, db. auto 10. }
  exists P'. split; [exact Hrun|].
  assert (Hnew : forall l, 1 <= l <= L -> exists W b dW db,
            W_b_dict !! ("W" +:+ str l) = Some W /\
            W_b_dict !! ("b" +:+ str l) = Some b /\
            P' !! ("W" +:+ str l) = Some (updated_weight learning_rate L2_norm W dW) /\
            P' !! ("b" +:+ str l) = Some (updated_bias learning_rate b db)).
  { intros l Hl.
    destruct (Hkeys l Hl) as [[W HW] [b Hb]].
    destruct (Hgrads l W b Hl HW Hb) as (dW & db & HdW & Hdb & _).
    assert (Hin : l ∈ seq 1 L) by (apply elem_of_seq; lia).
    exists W, b, dW, db. repeat split; try assumption.
    - apply HWs; assumption.
    - apply Hbs; assumption. }
  split; [split|].
  - pose proof (update_loop_keys _ _ _ _ _ _ Hrun) as Hdom.
    change (size P' = 2 * L). rewrite <- Hsize, <- !size_dom, Hdom. reflexivity.
  - intros l Hl. destruct (Hnew l Hl) as (W & b & dW & db & _ & _ & HW' & Hb').
    split; eexists; eassumption.
  - intros l n n_prev Hl Hn Hprev.
    assert (HlL : 1 <= l <= L).
    { apply lookup_lt_Some in Hn. unfold L. lia. }
    destruct (Hnew l HlL) as (W & b & dW & db & HW & Hb & HW' & Hb').
    destruct (Hshapes l n n_prev Hl Hn Hprev) as (W0 & b0 & HW0 & Hb0 & HsW & Hsb).
    assert (W0 = W) as -> by congruence. assert (b0 = b) as -> by congruence.
    eexists _, _. split; [exact HW'|]. split; [exact Hb'|].
    rewrite shape_updated_weight, shape_updated_bias. auto.
Qed.

End UpdateShapes.

(** X11: [update_parameters], whenever it returns, has neither added nor
    removed a key: the dictionary it returns has the keys of the one it
    was given, whatever the gradients and the number type. *)
Theorem update_parameters_keeps_keys {num : Type} `{Arith num}
    (W_b_dict grads W_b_dict' : gmap string (ndarray num)) (learning_rate : num)
    (L2_norm : bool) :
  update_parameters W_b_dict grads learning_rate L2_norm = Ok W_b_dict' ->
  dom W_b_dict' = dom W_b_dict /\ size W_b_dict' = size W_b_dict.
Proof.
  unfold update_parameters. intros Hrun.
  pose proof (update_loop_keys _ _ _ _ _ _ Hrun) as Hdom.
  split; [exact Hdom|]. rewrite <- !size_dom, Hdom. reflexivity.
Qed.

Lemma sample_network_grads_match :
  gradients_for (length [2; 2; 2] - 1) sample_network sample_network_grads.
Proof.
  intros l W b Hl. simpl in Hl.
  assert (l = 1 \/ l = 2) as [-> | ->] by lia.
  - intros [= <-] [= <-]. exists sample_Z, sample_b. repeat split; reflexivity.
  - intros [= <-] [= <-]. exists sample_dA, sample_b. repeat split; reflexivity.
Qed.

Lemma update_parameters_keeps_keys_witness :
  exists W_b_dict',
    update_parameters sample_network sample_network_grads (1 / 2)%R false
      = Ok W_b_dict' /\
    dom W_b_dict' = dom sample_network /\ size W_b_dict' = size sample_network.
Proof.
  destruct (update_parameters_shaped [2; 2; 2] sample_network sample_network_grads
              (1 / 2)%R false sample_network_shaped sample_network_grads_match)
    as (P' & Hrun & _).
  exists P'. split; [exact Hrun|].
  apply (update_parameters_keeps_keys sample_network sample_network_grads P'
           (1 / 2)%R false Hrun).
Defined.

(** X12: on parameters with the shapes that the layer widths prescribe and
    gradients shaped like them, [update_parameters] returns parameters with
    the same shapes: a training step leaves the network fit for the next
    one. *)
Theorem update_parameters_keeps_shapes (layers_dim : list nat)
    (W_b_dict grads : gmap string (ndarray R)) (learning_rate : R)
    (L2_norm : bool) :
  well_shaped layers_dim W_b_dict ->
  gradients_for (length layers_dim - 1) W_b_dict grads ->
  exists W_b_dict',
    update_parameters W_b_dict grads learning_rate L2_norm = Ok W_b_dict' /\
    well_shaped layers_dim W_b_dict'.
Proof. apply update_parameters_shaped. Qed.

Lemma update_parameters_keeps_shapes_witness :
  exists W_b_dict',
    update_parameters sample_network sample_network_grads (1 / 2)%R true
      = Ok W_b_dict' /\
    well_shaped [2; 2; 2] W_b_dict'.
Proof.
  apply (update_parameters_keeps_shapes [2; 2; 2] sample_network
           sample_network_grads (1 / 2)%R true).
  - exact sample_network_shaped.
  - exact sample_network_grads_match.
Defined.

Section TrainingStep.
Variables (layers_dim : list nat) (learning_rate : R) (use_batchnorm L2_norm : bool).
Hypothesis deep : 3 <= length layers_dim.

Lemma logged_cost_returns (AL Y : ndarray R) (W_b_dict : gmap string (ndarray R)) :
  shape AL = shape Y -> ncols Y <> 0 -> well_shaped layers_dim W_b_dict ->
  exists cost,
    logged_cost AL Y W_b_dict layers_dim learning_rate L2_norm = Ok cost.
Proof.
  intros Hs Hm [[_ Hkeys] _]. unfold logged_cost.
  rewrite (compute_cost_ok AL Y Hs Hm). cbn [mbind result_bind].
  destruct L2_norm; [|eauto].
  match goal with
  | |- exists cost, for_in ?ls ?body ?s = Ok cost =>
      destruct (for_in_steps body ls (fun _ _ => True) s I) as (cost & Hrun & _);
        [|exists cost; exact Hrun]
  end.
  intros k i s Hk _. unfold range in Hk. apply lookup_seq in Hk as [-> Hk].
  destruct (Hkeys (0 + k + 1)) as [[W HW] _]; [lia|].
  rewrite (dict_get_Some _ _ _ HW). cbn [mbind result_bind].
  rewrite broadcast_same_shape by reflexivity. cbn [mbind result_bind].
  eexists. split; [reflexivity | exact I].
Qed.

Lemma train_batch_returns (X_batches Y_batches : list (ndarray R)) (j : nat)
    (st : training_state) (X Y : ndarray R) :
  well_shaped layers_dim (W_b_dict_of st) ->
  X_batches !! j = Some X -> Y_batches !! j = Some Y ->
  batch_for layers_dim X Y ->
  exists st',
    train_batch X_batches Y_batches layers_dim learning_rate use_batchnorm
                L2_norm j st = Ok st' /\
    well_shaped layers_dim (W_b_dict_of st') /\
    batch_so_far st' = batch_so_far st + 1 /\
    ((batch_so_far st + 1) mod 100 = 0 ->
       exists cost, costs st' = costs st ++ [cost]) /\
    ((batch_so_far st + 1) mod 100 <> 0 -> costs st' = costs st).
Proof.
  intros Hshaped HX HY (n0 & nL & Hn0 & HnL & HsX & HsY & Hm).
  destruct (L_model_forward_returns layers_dim (W_b_dict_of st) use_batchnorm
              Hshaped X n0 deep Hn0 HsX)
    as (AL & caches & nL' & Hfwd & _ & HnL' & HsAL).
  assert (nL' = nL) as -> by congruence.
  assert (HAY : shape AL = shape Y) by congruence.
  assert (HmY : ncols Y <> 0).
  { unfold shape in HsY. injection HsY as _ ->. exact Hm. }
  destruct (L_model_backward_gradients layers_dim (W_b_dict_of st) use_batchnorm
              X Y AL caches Hshaped Hfwd Hm) as (grads & Hback & Hgrads).
  { unfold shape in HAY. injection HAY as -> ->. reflexivity. }
  destruct (update_parameters_shaped layers_dim (W_b_dict_of st) grads
              learning_rate L2_norm Hshaped Hgrads) as (P' & Hupd & Hshaped').
  destruct (logged_cost_returns AL Y P' HAY HmY Hshaped') as (cost & Hcost).
  unfold train_batch, getitem. rewrite HX. cbn [mbind result_bind].
  rewrite Hfwd. cbn [mbind result_bind]. rewrite HY. cbn [mbind result_bind].
  rewrite Hback. cbn [mbind result_bind]. rewrite Hupd. cbn [mbind result_bind].
  destruct (Nat.eqb_spec ((batch_so_far st + 1) mod 100) 0) as [E | E].
  - rewrite Hcost. cbn [mbind result_bind].
    eexists. split; [reflexivity|]. simpl.
    split; [exact Hshaped'|]. split; [reflexivity|].
    split; [eauto | contradiction].
  - eexists. split; [reflexivity|]. simpl.
    split; [exact Hshaped'|]. split; [reflexivity|].
    split; [contradiction | reflexivity].
Qed.

End TrainingStep.

Lemma hundredth_step (a : nat) :
  (a + 1) / 100 = a / 100 + (if (a + 1) mod 100 =? 0 then 1 else 0).
Proof.
  pose proof (Nat.div_mod_eq a 100) as Ha.
  pose proof (Nat.div_mod_eq (a + 1) 100) as Ha1.
  pose proof (Nat.mod_upper_bound a 100) as Hr.
  pose proof (Nat.mod_upper_bound (a + 1) 100) as Hr1.
  destruct (Nat.eqb_spec ((a + 1) mod 100) 0) as [E | E]; lia.
Qed.

Section TrainingEpoch.
Variables (layers_dim : list nat) (learning_rate : R) (use_batchnorm L2_norm : bool).
Hypothesis deep : 3 <= length layers_dim.
Variables X_batches Y_batches : list (ndarray R).
Hypothesis batches :
  forall j X, X_batches !! j = Some X ->
    exists Y, Y_batches !! j = Some Y /\ batch_for layers_dim X Y.

Lemma train_epoch_returns (st : training_state) :
  well_shaped layers_dim (W_b_dict_of st) ->
  exists st',
    train_epoch X_batches Y_batches layers_dim learning_rate use_batchnorm
                L2_norm st = Ok st' /\
    well_shaped layers_dim (W_b_dict_of st') /\
    batch_so_far st' = batch_so_far st + length X_batches /\
    exists logged,
      costs st' = costs st ++ logged /\
      length logged =
        (batch_so_far st + length X_batches) / 100 - batch_so_far st / 100.
Proof.
  intros Hshaped. unfold train_epoch.
  set (n := batch_so_far st).
  destruct (for_in_steps
              (train_batch X_batches Y_batches layers_dim learning_rate
                           use_batchnorm L2_norm)
              (range 0 (length X_batches))
              (fun k s =>
                 well_shaped layers_dim (W_b_dict_of s) /\
                 batch_so_far s = n + k /\
                 exists logged, costs s = costs st ++ logged /\
                                length logged = (n + k) / 100 - n / 100) st)
    as (st' & Hrun & Hend).
  - split; [exact Hshaped|]. split; [unfold n; lia|].
    exists []. rewrite app_nil_r, Nat.add_0_r, Nat.sub_diag. auto.
  - intros k i s Hk (Hs & Hcount & logged & Hcosts & Hlen).
    unfold range in Hk. apply lookup_seq in Hk as [-> Hk].
    destruct (lookup_lt_is_Some_2 X_batches k) as [X HX]; [lia|].
    destruct (batches k X HX) as (Y & HY & Hbatch).
    destruct (train_batch_returns layers_dim learning_rate use_batchnorm L2_norm
                deep X_batches Y_batches k s X Y Hs HX HY Hbatch)
      as (s' & Hstep & Hs' & Hcount' & Hlog & Hnolog).
    exists s'. split; [exact Hstep|]. split; [exact Hs'|].
    split; [lia|].
    pose proof (hundredth_step (n + k)) as Hdiv.
    assert (Hmono : n / 100 <= (n + k) / 100) by (apply Nat.Div0.div_le_mono; lia).
    replace (n + S k) with (n + k + 1) by lia.
    rewrite Hcount in Hlog, Hnolog. revert Hdiv.
    destruct (Nat.eqb_spec ((n + k + 1) mod 100) 0) as [E | E]; intros Hdiv.
    + destruct (Hlog E) as (cost & Hcost).
      exists (logged ++ [cost]). rewrite Hcost, Hcosts, <- app_assoc.
      split; [reflexivity|]. rewrite length_app. cbn [length]. lia.
    + exists logged. rewrite (Hnolog E). split; [exact Hcosts | lia].
  - unfold range in Hend. rewrite length_seq, Nat.sub_0_r in Hend.
    exists st'. split; [exact Hrun|]. exact Hend.
Qed.

End TrainingEpoch.

Section Scoring.
Variable layers_dim : list nat.
Hypothesis deep : 3 <= length layers_dim.
Hypothesis positive_units : Forall (fun n => 0 < n) layers_dim.

Lemma count_equal_le (p y : list nat) :
  length p = length y ->
  exists correct, count_equal p y = Ok correct /\ correct <= length p.
Proof.
  intros Hlen. unfold count_equal. rewrite <- Hlen, broadcast_dim_same.
  cbn [mbind result_bind]. eexists. split; [reflexivity|].
  etransitivity; [apply length_filter|]. rewrite length_seq. reflexivity.
Qed.

Lemma np_argmax_axis0_ok {num : Type} `{Arith num} (A : ndarray num) :
  nrows A <> 0 ->
  exists p, np_argmax_axis0 A = Ok p /\ length p = ncols A.
Proof.
  intros Hr. unfold np_argmax_axis0.
  destruct (Nat.eqb_spec (nrows A) 0) as [|_]; [contradiction|].
  eexists. split; [reflexivity|]. rewrite length_map, length_seq. reflexivity.
Qed.

Lemma predict_returns (X Y : ndarray R) (W_b_dict : gmap string (ndarray R))
    (use_batchnorm : bool) (n0 nL : nat) :
  well_shaped layers_dim W_b_dict ->
  layers_dim !! 0 = Some n0 -> last layers_dim = Some nL ->
  shape X = (n0, ncols X) -> shape Y = (nL, ncols X) ->
  exists accuracy,
    predict X Y W_b_dict use_batchnorm = Ok accuracy /\
    (ncols X <> 0 -> (0 <= accuracy <= 1)%R).
Proof.
  intros Hshaped Hn0 HnL HsX HsY.
  destruct (L_model_forward_returns layers_dim W_b_dict use_batchnorm
              Hshaped X n0 deep Hn0 HsX)
    as (AL & caches & nL' & Hfwd & _ & HnL' & HsAL).
  assert (nL' = nL) as -> by congruence.
  assert (HnLpos : 0 < nL).
  { apply (proj1 (List.Forall_forall _ _) positive_units).
    apply list_elem_of_In. rewrite last_lookup in HnL.
    eapply list_elem_of_lookup_2. exact HnL. }
  unfold shape in HsAL, HsY. injection HsAL as HALr HALc. injection HsY as HYr HYc.
  destruct (np_argmax_axis0_ok AL) as (p & Hp & Hlp); [lia|].
  destruct (np_argmax_axis0_ok Y) as (y & Hy & Hly); [lia|].
  destruct (count_equal_le p y) as (correct & Hcount & Hle); [congruence|].
  rewrite predict_forward, Hfwd. cbn [mbind result_bind].
  rewrite Hp. cbn [mbind result_bind]. rewrite Hy. cbn [mbind result_bind].
  rewrite Hcount. cbn [mbind result_bind].
  eexists. split; [reflexivity|]. intros Hm.
  cbn [num_div of_nat R_arith].
  assert (Hpos : (0 < INR (ncols X))%R) by (apply lt_0_INR; lia).
  assert (Hc0 : (0 <= INR correct)%R) by apply pos_INR.
  assert (Hc1 : (INR correct <= INR (ncols X))%R) by (apply le_INR; lia).
  split.
  - apply Rmult_le_pos; [exact Hc0|]. apply Rlt_le, Rinv_0_lt_compat. exact Hpos.
  - apply (Rmult_le_reg_r (INR (ncols X))); [exact Hpos|].
    unfold Rdiv. rewrite Rmult_assoc, Rinv_l by lra. lra.
Qed.

End Scoring.

(** ** The trainer as a whole *)

Section EpochLoop.
Context {num : Type} `{Arith num} {state : Type}.
Variable train_batches : state -> result state.
Variable validation_accuracy : state -> result num.
Variable Inv : nat -> state -> Prop.
Hypothesis train_returns :
  forall k st, Inv k st -> exists st', train_batches st = Ok st' /\ Inv (S k) st'.
Hypothesis validation_returns :
  forall k st, Inv k st -> exists accuracy, validation_accuracy st = Ok accuracy.

(** When every training pass and every scoring returns, so does the loop
    over the epochs: after at most [num_iterations] passes, after all of
    them unless the flag is set, and after one at least when one is asked
    for. *)
Lemma epoch_loop_returns (num_iterations : nat) :
  forall (k : nat) (st : state) (prev_accuracy : num),
  Inv k st ->
  exists st' stop_sign passes,
    epoch_loop train_batches validation_accuracy num_iterations st prev_accuracy
      = Ok (st', stop_sign, passes) /\
    Inv (k + passes) st' /\
    passes <= num_iterations /\
    (1 <= num_iterations -> 1 <= passes) /\
    (stop_sign = false -> passes = num_iterations).
Proof.
  induction num_iterations as [|N IH]; intros k st prev Hinv.
  - exists st, false, 0. simpl. rewrite Nat.add_0_r.
    repeat split; [exact Hinv | lia | lia].
  - destruct (train_returns k st Hinv) as (st1 & Htrain & Hinv1).
    destruct (validation_returns (S k) st1 Hinv1) as (acc & Hval).
    simpl. rewrite Htrain. cbn [mbind result_bind].
    rewrite Hval. cbn [mbind result_bind].
    destruct (acc - prev <? threshold)%num.
    + exists st1, true, 1. replace (k + 1) with (S k) by lia.
      repeat split; [exact Hinv1 | lia | lia | discriminate].
    + destruct (IH (S k) st1 acc Hinv1) as (st' & stop & t & Hrun & Hinv' & Hle & _ & Hall).
      exists st', stop, (S t). rewrite Hrun. cbn [mbind result_bind].
      replace (k + S t) with (S k + t) by lia.
      repeat split; [exact Hinv' | lia | lia |].
      intros Hstop. rewrite (Hall Hstop). reflexivity.
Qed.

End EpochLoop.

Section TrainerReturns.
Context {rng : Type} `{RandomState R rng}.
Hypothesis unit_interval :
  forall g : rng, (0 <= fst (random_sample g) < 1)%R.
Variables (layers_dim : list nat) (learning_rate : R) (use_batchnorm L2_norm : bool).
Hypothesis deep : 3 <= length layers_dim.
Hypothesis positive_units : Forall (fun n => 0 < n) layers_dim.

Lemma initialize_parameters_shaped (g : rng) :
  exists W_b_dict g',
    initialize_parameters layers_dim g = Ok (W_b_dict, g') /\
    well_shaped layers_dim W_b_dict.
Proof.
  destruct (initialize_parameters_ok layers_dim g) as (P & Hrun & Hkeys & Hall);
    [lia|].
  exists P, (generator_at layers_dim g (length layers_dim)).
  split; [exact Hrun|]. split; [exact Hkeys|].
  intros l n n_prev Hl Hn Hprev.
  destruct (Hall l) as (n' & n_prev' & W & b & Hn' & Hprev' & HW & Hb & _ & HsW
                        & _ & Hsb).
  { apply lookup_lt_Some in Hn. lia. }
  assert (n' = n) as -> by congruence.
  assert (n_prev' = n_prev) as -> by congruence.
  exists W, b. auto.
Qed.

Variables (X Y X_val Y_val : ndarray R) (X_batches Y_batches : list (ndarray R)).
Variables n0 nL : nat.
Hypothesis features : layers_dim !! 0 = Some n0.
Hypothesis classes : last layers_dim = Some nL.
Hypothesis data : shape X = (n0, ncols X) /\ shape Y = (nL, ncols X).
Hypothesis held_out : shape X_val = (n0, ncols X_val) /\ shape Y_val = (nL, ncols X_val).
Hypothesis batches :
  forall j X_j, X_batches !! j = Some X_j ->
    exists Y_j, Y_batches !! j = Some Y_j /\ batch_for layers_dim X_j Y_j.

Lemma trained_state (num_iterations : nat) (W_b_dict : gmap string (ndarray R)) :
  well_shaped layers_dim W_b_dict ->
  exists st stop_sign passes training_accuracy val_accuracy,
    epoch_loop
      (train_epoch X_batches Y_batches layers_dim learning_rate
                   use_batchnorm L2_norm)
      (fun st => predict X_val Y_val (W_b_dict_of st) use_batchnorm)
      num_iterations (mk_training_state W_b_dict 0 []) zero
    = Ok (st, stop_sign, passes) /\
    predict X Y (W_b_dict_of st) use_batchnorm = Ok training_accuracy /\
    predict X_val Y_val (W_b_dict_of st) use_batchnorm = Ok val_accuracy /\
    well_shaped layers_dim (W_b_dict_of st) /\
    passes <= num_iterations /\
    (1 <= num_iterations -> 1 <= passes) /\
    (stop_sign = false -> passes = num_iterations) /\
    length (costs st) = (passes * length X_batches) / 100 /\
    (ncols X <> 0 -> (0 <= training_accuracy <= 1)%R) /\
    (ncols X_val <> 0 -> (0 <= val_accuracy <= 1)%R).
Proof.
  intros Hshaped. destruct data as [HsX HsY]. destruct held_out as [HsXv HsYv].
  set (B := length X_batches).
  destruct (epoch_loop_returns
              (train_epoch X_batches Y_batches layers_dim learning_rate
                           use_batchnorm L2_norm)
              (fun st => predict X_val Y_val (W_b_dict_of st) use_batchnorm)
              (fun k st => well_shaped layers_dim (W_b_dict_of st) /\
                           batch_so_far st = k * B /\
                           length (costs st) = (k * B) / 100))
    with (num_iterations := num_iterations) (k := 0)
         (st := mk_training_state W_b_dict 0 []) (prev_accuracy := (zero : R))
    as (st & stop & t & Hrun & (Hst & _ & Hcosts) & Hle & Hone & Hall).
  - intros k s (Hs & Hcount & Hlen).
    destruct (train_epoch_returns layers_dim learning_rate use_batchnorm L2_norm
                deep X_batches Y_batches batches s Hs)
      as (s' & Hstep & Hs' & Hcount' & logged & Hlog & Hlogged).
    exists s'. split; [exact Hstep|]. split; [exact Hs'|].
    fold B in Hcount', Hlogged. rewrite Hcount in Hcount', Hlogged.
    replace (S k * B) with (k * B + B) by lia.
    split; [exact Hcount'|].
    assert (Hmono : (k * B) / 100 <= (k * B + B) / 100)
      by (apply Nat.Div0.div_le_mono; lia).
    rewrite Hlog, length_app. lia.
  - intros k s (Hs & _).
    destruct (predict_returns layers_dim deep positive_units X_val Y_val
                (W_b_dict_of s) use_batchnorm n0 nL Hs features classes HsXv HsYv)
      as (a & Ha & _).
    exists a. exact Ha.
  - split; [exact Hshaped|]. split; reflexivity.
  - destruct (predict_returns layers_dim deep positive_units X Y
                (W_b_dict_of st) use_batchnorm n0 nL Hst features classes HsX HsY)
      as (ta & Hta & Htr).
    destruct (predict_returns layers_dim deep positive_units X_val Y_val
                (W_b_dict_of st) use_batchnorm n0 nL Hst features classes HsXv HsYv)
      as (va & Hva & Hvr).
    exists st, stop, t, ta, va. simpl in Hcosts. auto 12.
Qed.

End TrainerReturns.

Lemma sample_batch : batch_for [2; 2; 2] sample_X sample_Y.
Proof.
  exists 2, 2. repeat split; try reflexivity. simpl. lia.
Qed.

Lemma sample_batches (j : nat) (X_j : ndarray R) :
  [sample_X; sample_X] !! j = Some X_j ->
  exists Y_j, [sample_Y; sample_Y] !! j = Some Y_j /\ batch_for [2; 2; 2] X_j Y_j.
Proof.
  destruct j as [|[|j]]; [| |discriminate];
    intros [= <-]; exists sample_Y; (split; [reflexivity | exact sample_batch]).
Qed.

(** X13: one training step on a batch of the network's widths, from
    well-shaped parameters of at least two layers, completes: forward pass, backward pass and update
    return, the parameters stay well shaped, the count of batches goes up by
    one, and a cost is appended to the record exactly when the new count is
    a multiple of 100. *)
Theorem train_batch_step (layers_dim : list nat) (learning_rate : R)
    (use_batchnorm L2_norm : bool) (X_batches Y_batches : list (ndarray R))
    (j : nat) (st : training_state) (X Y : ndarray R) :
  3 <= length layers_dim ->
  well_shaped layers_dim (W_b_dict_of st) ->
  X_batches !! j = Some X -> Y_batches !! j = Some Y ->
  batch_for layers_dim X Y ->
  exists st',
    train_batch X_batches Y_batches layers_dim learning_rate use_batchnorm
                L2_norm j st = Ok st' /\
    well_shaped layers_dim (W_b_dict_of st') /\
    batch_so_far st' = batch_so_far st + 1 /\
    ((batch_so_far st + 1) mod 100 = 0 ->
       exists cost, costs st' = costs st ++ [cost]) /\
    ((batch_so_far st + 1) mod 100 <> 0 -> costs st' = costs st).
Proof. intros Hdeep. apply train_batch_returns. exact Hdeep. Qed.

Lemma train_batch_step_witness :
  exists st',
    train_batch [sample_X] [sample_Y] [2; 2; 2] (1 / 2)%R true true 0 sample_state
      = Ok st' /\
    well_shaped [2; 2; 2] (W_b_dict_of st') /\
    batch_so_far st' = batch_so_far sample_state + 1 /\
    ((batch_so_far sample_state + 1) mod 100 = 0 ->
       exists cost, costs st' = costs sample_state ++ [cost]) /\
    ((batch_so_far sample_state + 1) mod 100 <> 0 -> costs st' = costs sample_state).
Proof.
  apply (train_batch_step [2; 2; 2] (1 / 2)%R true true [sample_X] [sample_Y] 0
           sample_state sample_X sample_Y).
  - simpl. lia.
  - exact sample_network_shaped.
  - reflexivity.
  - reflexivity.
  - exact sample_batch.
Defined.

(** X14: for a network of at least two layers, one pass over the batches,
    each of the network's widths and with its labels, completes from
    well-shaped parameters and leaves them well shaped; the count of batches grows by the number of batches, and the
    record of costs grows at its end by one cost for every multiple of 100
    that the count has passed. *)
Theorem train_epoch_counts (layers_dim : list nat) (learning_rate : R)
    (use_batchnorm L2_norm : bool) (X_batches Y_batches : list (ndarray R))
    (st : training_state) :
  3 <= length layers_dim ->
  (forall j X, X_batches !! j = Some X ->
     exists Y, Y_batches !! j = Some Y /\ batch_for layers_dim X Y) ->
  well_shaped layers_dim (W_b_dict_of st) ->
  exists st',
    train_epoch X_batches Y_batches layers_dim learning_rate use_batchnorm
                L2_norm st = Ok st' /\
    well_shaped layers_dim (W_b_dict_of st') /\
    batch_so_far st' = batch_so_far st + length X_batches /\
    exists logged,
      costs st' = costs st ++ logged /\
      length logged =
        (batch_so_far st + length X_batches) / 100 - batch_so_far st / 100.
Proof. intros Hdeep Hbatches. apply train_epoch_returns; assumption. Qed.

Lemma train_epoch_counts_witness :
  exists st',
    train_epoch [sample_X; sample_X] [sample_Y; sample_Y] [2; 2; 2] (1 / 2)%R
                true false sample_state = Ok st' /\
    well_shaped [2; 2; 2] (W_b_dict_of st') /\
    batch_so_far st' = batch_so_far sample_state + length [sample_X; sample_X] /\
    exists logged,
      costs st' = costs sample_state ++ logged /\
      length logged =
        (batch_so_far sample_state + length [sample_X; sample_X]) / 100
        - batch_so_far sample_state / 100.
Proof.
  apply (train_epoch_counts [2; 2; 2] (1 / 2)%R true false
           [sample_X; sample_X] [sample_Y; sample_Y] sample_state).
  - simpl. lia.
  - exact sample_batches.
  - exact sample_network_shaped.
Defined.

(** X15: on well-shaped parameters of at least two layers with positive
    widths, [predict] returns for data of the network's widths that is not
    empty, and the accuracy it returns lies between 0 and 1. *)
Theorem predict_accuracy_range (layers_dim : list nat) (X Y : ndarray R)
    (W_b_dict : gmap string (ndarray R)) (use_batchnorm : bool) :
  3 <= length layers_dim ->
  Forall (fun n => 0 < n) layers_dim ->
  well_shaped layers_dim W_b_dict ->
  batch_for layers_dim X Y ->
  exists accuracy,
    predict X Y W_b_dict use_batchnorm = Ok accuracy /\
    (0 <= accuracy <= 1)%R.
Proof.
  intros Hdeep Hpos Hshaped (n0 & nL & Hn0 & HnL & HsX & HsY & Hm).
  destruct (predict_returns layers_dim Hdeep Hpos X Y W_b_dict use_batchnorm
              n0 nL Hshaped Hn0 HnL HsX HsY) as (a & Ha & Hrange).
  exists a. split; [exact Ha | exact (Hrange Hm)].
Qed.

Lemma predict_accuracy_range_witness :
  exists accuracy,
    predict sample_X sample_Y sample_network true = Ok accuracy /\
    (0 <= accuracy <= 1)%R.
Proof.
  apply (predict_accuracy_range [2; 2; 2] sample_X sample_Y sample_network true).
  - simpl. lia.
  - repeat constructor.
  - exact sample_network_shaped.
  - exact sample_batch.
Defined.

(** X16: the trainer returns.  For at least two layers of positive widths,
    a generator that draws from the half-open unit interval, data and
    held-out data of the network's widths, batches of the network's widths
    with their labels, and one epoch or one batch at least, [L_layer_model]
    returns well-shaped parameters after at most [num_iterations] passes:
    all of them unless the flag is set, one at least when one is asked for.
    The record holds one cost for every 100 batches trained on, and the two
    accuracies lie between 0 and 1 when their data is not empty. *)
Theorem L_layer_model_returns {rng : Type} `{RandomState R rng}
    (X Y X_val Y_val : ndarray R) (X_batches Y_batches : list (ndarray R))
    (layers_dim : list nat) (learning_rate : R) (num_iterations : nat)
    (use_batchnorm L2_norm : bool) (g : rng) (n0 nL : nat) :
  (forall g : rng, (0 <= fst (random_sample g) < 1)%R) ->
  3 <= length layers_dim ->
  Forall (fun n => 0 < n) layers_dim ->
  layers_dim !! 0 = Some n0 -> last layers_dim = Some nL ->
  shape X = (n0, ncols X) /\ shape Y = (nL, ncols X) ->
  shape X_val = (n0, ncols X_val) /\ shape Y_val = (nL, ncols X_val) ->
  (forall j X_j, X_batches !! j = Some X_j ->
     exists Y_j, Y_batches !! j = Some Y_j /\ batch_for layers_dim X_j Y_j) ->
  1 <= num_iterations \/ 1 <= length X_batches ->
  exists W_b_dict costs training_accuracy val_accuracy stop_sign passes,
    L_layer_model X Y X_val Y_val X_batches Y_batches layers_dim learning_rate
                  num_iterations use_batchnorm L2_norm g
    = Ok (W_b_dict, costs, training_accuracy, val_accuracy, stop_sign, passes) /\
    well_shaped layers_dim W_b_dict /\
    passes <= num_iterations /\
    (1 <= num_iterations -> 1 <= passes) /\
    (stop_sign = false -> passes = num_iterations) /\
    length costs = (passes * length X_batches) / 100 /\
    (ncols X <> 0 -> (0 <= training_accuracy <= 1)%R) /\
    (ncols X_val <> 0 -> (0 <= val_accuracy <= 1)%R).
Proof.
  intros Hunit Hdeep Hpos Hn0 HnL Hdata Hval Hbatches Hwork.
  destruct (initialize_parameters_shaped layers_dim Hdeep g)
    as (P0 & g' & Hinit & Hshaped).
  destruct (trained_state layers_dim learning_rate use_batchnorm L2_norm Hdeep
              Hpos X Y X_val Y_val X_batches Y_batches n0 nL Hn0 HnL Hdata Hval
              Hbatches num_iterations P0 Hshaped)
    as (st & stop & t & ta & va & Hrun & Hta & Hva & Hst & Hle & Hone & Hall
        & Hcosts & Htr & Hvr).
  exists (W_b_dict_of st), (costs st), ta, va, stop, t.
  split; [|auto 10].
  unfold L_layer_model. rewrite Hinit. cbn [mbind result_bind].
  rewrite Hrun. cbn [mbind result_bind]. rewrite Hta. cbn [mbind result_bind].
  rewrite Hva. cbn [mbind result_bind].
  destruct (Nat.eqb_spec (length X_batches) 0) as [E0 | _]; [|reflexivity].
  destruct (Nat.eqb_spec num_iterations 0) as [E1 | _]; [lia | reflexivity].
Qed.

Lemma L_layer_model_returns_witness :
  exists W_b_dict costs training_accuracy val_accuracy stop_sign passes,
    L_layer_model sample_X sample_Y sample_X sample_Y [sample_X; sample_X]
                  [sample_Y; sample_Y] [2; 2; 2] (1 / 2)%R 3 true true 0
    = Ok (W_b_dict, costs, training_accuracy, val_accuracy, stop_sign, passes) /\
    well_shaped [2; 2; 2] W_b_dict /\
    passes <= 3 /\
    (1 <= 3 -> 1 <= passes) /\
    (stop_sign = false -> passes = 3) /\
    length costs = (passes * length [sample_X; sample_X]) / 100 /\
    (ncols sample_X <> 0 -> (0 <= training_accuracy <= 1)%R) /\
    (ncols sample_X <> 0 -> (0 <= val_accuracy <= 1)%R).
Proof.
  apply (L_layer_model_returns sample_X sample_Y sample_X sample_Y
           [sample_X; sample_X] [sample_Y; sample_Y] [2; 2; 2] (1 / 2)%R 3
           true true 0 2 2).
  - exact counting_generator_unit.
  - simpl. lia.
  - repeat constructor.
  - reflexivity.
  - reflexivity.
  - split; reflexivity.
  - split; reflexivity.
  - exact sample_batches.
  - left. lia.
Defined.



(** ** The error at the output *)

Section OutputError.
Local Open Scope R_scope.

Lemma Rsum_term_lt (n i : nat) (f : nat -> R) :
  (2 <= n)%nat -> (i < n)%nat -> (forall k, (k < n)%nat -> 0 < f k) ->
  f i < sum_upto n f.
Proof.
  intros Hn Hi Hf. destruct n as [|n]; [lia|]. rewrite Rsum_S.
  pose proof (Hf n (Nat.lt_succ_diag_r n)) as Hlast.
  destruct (Nat.eq_dec i n) as [-> | Hne].
  - assert (0 < sum_upto n f)
      by (apply Rsum_pos; [lia | intros k Hk; apply Hf; lia]).
    lra.
  - assert (f i <= sum_upto n f)
      by (apply Rsum_term_le; [lia | intros k Hk; apply Rlt_le, Hf; lia]).
    lra.
Qed.

Lemma Rsum_two_terms (n i k : nat) (f : nat -> R) :
  (i < n)%nat -> (k < n)%nat -> i <> k -> (forall l, (l < n)%nat -> 0 <= f l) ->
  f i + f k <= sum_upto n f.
Proof.
  induction n as [|n IH]; intros Hi Hk Hne Hf; [lia|]. rewrite Rsum_S.
  pose proof (Hf n (Nat.lt_succ_diag_r n)) as Hlast.
  assert (Hrest : forall l, (l < n)%nat -> 0 <= f l) by (intros l Hl; apply Hf; lia).
  destruct (Nat.eq_dec i n) as [-> | Hin].
  - assert (f k <= sum_upto n f) by (apply Rsum_term_le; [lia | exact Hrest]).
    lra.
  - destruct (Nat.eq_dec k n) as [-> | Hkn].
    + assert (f i <= sum_upto n f) by (apply Rsum_term_le; [lia | exact Hrest]).
      lra.
    + assert (f i + f k <= sum_upto n f) by (apply IH; [lia | lia | exact Hne | exact Hrest]).
      lra.
Qed.

Lemma ratio_margin (a S l u : R) :
  0 < l <= u -> 0 < a <= u -> a + l <= S -> a / S <= 1 - l / (2 * u).
Proof.
  intros [Hl Hlu] [Ha Hau] HS.
  assert (HSpos : 0 < S) by lra.
  apply (Rmult_le_reg_r S); [exact HSpos|].
  unfold Rdiv at 1. rewrite Rmult_assoc, Rinv_l, Rmult_1_r by lra.
  apply (Rmult_le_reg_r (2 * u)); [lra|].
  replace ((1 - l / (2 * u)) * S * (2 * u)) with ((2 * u - l) * S) by (field; lra).
  nra.
Qed.

(** With at least two classes and pre-activations between [-B] and [B], no
    entry of the softmax comes closer to 1 than [exp (-B) / (2 * exp B)]. *)
Lemma softmax_formula_margin (Z : ndarray R) (B : R) (i j : nat) :
  (2 <= nrows Z)%nat -> (i < nrows Z)%nat -> (j < ncols Z)%nat ->
  (forall k, (k < nrows Z)%nat -> - B <= item Z k j <= B) ->
  item (softmax_formula Z) i j <= 1 - exp (- B) / (2 * exp B).
Proof.
  intros Hr Hi Hj Hbound.
  unfold softmax_formula. rewrite item_fromfunction by assumption.
  cbn [np_exp R_transcendental num_div R_arith].
  assert (Hexp : forall k, (k < nrows Z)%nat ->
            exp (- B) <= exp (item Z k j) <= exp B).
  { intros k Hk. destruct (Hbound k Hk). split; apply exp_monotone; assumption. }
  pose proof (exp_pos (- B)) as HemB.
  set (k := if Nat.eq_dec i 0%nat then 1%nat else 0%nat).
  assert (Hk : (k < nrows Z)%nat) by (unfold k; destruct (Nat.eq_dec i 0%nat); lia).
  assert (Hik : i <> k) by (unfold k; destruct (Nat.eq_dec i 0%nat); lia).
  pose proof (Rsum_two_terms (nrows Z) i k (fun l => exp (item Z l j)) Hi Hk Hik)
    as Htwo.
  assert (Hsum : exp (item Z i j) + exp (item Z k j)
                 <= sum_upto (nrows Z) (fun l => exp (item Z l j)))
    by (apply Htwo; intros l _; apply Rlt_le, exp_pos).
  destruct (Hexp i Hi) as [Hli Hui]. destruct (Hexp k Hk) as [Hlk _].
  apply ratio_margin.
  - split; [exact HemB | lra].
  - split; [apply exp_pos | exact Hui].
  - lra.
Qed.

Lemma error_signal (y a : R) :
  0 < a < 1 -> - (y / a - (1 - y) / (1 - a)) * a * (1 - a) = a - y.
Proof. intros Ha. field. lra. Qed.

Lemma output_error (Z Y : ndarray R) (B : R) :
  (2 <= nrows Z)%nat -> shape Y = shape Z ->
  (forall i j, (i < nrows Z)%nat -> (j < ncols Z)%nat -> - B <= item Z i j <= B) ->
  exists AL dAL dZ,
    softmax Z = Ok (AL, Z) /\
    output_gradient AL Y = Ok dAL /\
    softmax_backward dAL Z = Ok dZ /\
    shape dZ = shape Z /\
    forall i j, (i < nrows Z)%nat -> (j < ncols Z)%nat ->
      0 < exp (- B) / (INR (nrows Z) * exp B) <= item AL i j /\
      item AL i j <= 1 - exp (- B) / (2 * exp B) /\
      0 < exp (- B) / (2 * exp B) /\
      item dZ i j = item AL i j - item Y i j.
Proof.
  intros Hr HY Hbound.
  exists (softmax_formula Z), (dAL_formula (softmax_formula Z) Y),
         (surrogate_formula (dAL_formula (softmax_formula Z) Y) Z).
  split; [unfold softmax; rewrite softmax_values_ok; reflexivity|].
  split; [apply output_gradient_ok; rewrite HY; reflexivity|].
  split; [apply softmax_backward_ok; reflexivity|].
  split; [reflexivity|].
  intros i j Hi Hj.
  assert (Hcol : forall k, (k < nrows Z)%nat -> - B <= item Z k j <= B)
    by (intros k Hk; apply Hbound; assumption).
  pose proof (softmax_formula_floor Z B i j Hi Hj Hcol) as Hfloor.
  pose proof (softmax_formula_margin Z B i j Hr Hi Hj Hcol) as Hmargin.
  assert (Hgap : 0 < exp (- B) / (2 * exp B)).
  { apply Rdiv_lt_0_compat; [apply exp_pos|].
    pose proof (exp_pos B). lra. }
  split; [exact Hfloor|]. split; [exact Hmargin|]. split; [exact Hgap|].
  unfold surrogate_formula. rewrite item_fromfunction by assumption.
  unfold dAL_formula. rewrite item_fromfunction by assumption.
  apply error_signal. lra.
Qed.

End OutputError.

(** X18: the backward pass starts from the prediction error.  For
    pre-activations [Z] of at least two classes with every entry between
    -15 and 15, and labels of their shape, every entry of the softmax output
    [AL] stays away from 0 and from 1, by [exp (-15) / (n * exp 15)] and
    [exp (-15) / (2 * exp 15)], so that [output_gradient] divides by neither
    0 nor a rounded 0, and the gradient it computes, passed through
    [softmax_backward], is [AL - Y] in every entry. *)
Theorem backward_starts_from_error (Z Y : ndarray R) :
  2 <= nrows Z -> shape Y = shape Z ->
  (forall i j, i < nrows Z -> j < ncols Z -> (-15 <= item Z i j <= 15)%R) ->
  exists AL dAL dZ,
    softmax Z = Ok (AL, Z) /\
    output_gradient AL Y = Ok dAL /\
    softmax_backward dAL Z = Ok dZ /\
    shape dZ = shape Z /\
    forall i j, i < nrows Z -> j < ncols Z ->
      (0 < exp (-15) / (INR (nrows Z) * exp 15) <= item AL i j)%R /\
      (item AL i j <= 1 - exp (-15) / (2 * exp 15))%R /\
      (0 < exp (-15) / (2 * exp 15))%R /\
      item dZ i j = (item AL i j - item Y i j)%R.
Proof. intros Hr HY Hbound. exact (output_error Z Y 15 Hr HY Hbound). Qed.

Lemma backward_starts_from_error_witness :
  exists AL dAL dZ,
    softmax sample_Z = Ok (AL, sample_Z) /\
    output_gradient AL sample_Y = Ok dAL /\
    softmax_backward dAL sample_Z = Ok dZ /\
    shape dZ = shape sample_Z /\
    forall i j, i < nrows sample_Z -> j < ncols sample_Z ->
      (0 < exp (-15) / (INR (nrows sample_Z) * exp 15) <= item AL i j)%R /\
      (item AL i j <= 1 - exp (-15) / (2 * exp 15))%R /\
      (0 < exp (-15) / (2 * exp 15))%R /\
      item dZ i j = (item AL i j - item sample_Y i j)%R.
Proof.
  apply (backward_starts_from_error sample_Z sample_Y);
    [simpl; lia | reflexivity |].
  intros i j Hi Hj. apply (sample_Z_bounded 15); [lra | assumption..].
Defined.

(** ** Edges of the passes *)

Section PassEdges.
Context {num : Type} `{Arith num} `{Transcendental num}.

Lemma seq_from_one (n : nat) : 1 <= n -> range 1 (n + 1) = 1 :: seq 2 (n - 1).
Proof.
  intros Hn. unfold range. replace (n + 1 - 1) with (S (n - 1)) by lia. reflexivity.
Qed.

Lemma update_layer_missing (W_b_dict grads : gmap string (ndarray num))
    (learning_rate : num) (L2_norm : bool) (l : nat) :
  W_b_dict !! ("W" +:+ str l) = None \/ grads !! ("dW" +:+ str l) = None ->
  update_layer grads learning_rate L2_norm l W_b_dict = Raise KeyError.
Proof.
  intros Hmiss. unfold update_layer, dict_get.
  destruct (W_b_dict !! ("W" +:+ str l)) as [W|] eqn:EW.
  - destruct Hmiss as [Hmiss | Hmiss]; [discriminate|]. rewrite Hmiss.
    destruct L2_norm; reflexivity.
  - destruct L2_norm; reflexivity.
Qed.

Lemma forward_layer_missing (W_b_dict : gmap string (ndarray num))
    (use_batchnorm : bool) (l : nat) (st : forward_state) :
  W_b_dict !! ("W" +:+ str l) = None \/ W_b_dict !! ("b" +:+ str l) = None ->
  forward_layer W_b_dict use_batchnorm l st = Raise KeyError.
Proof.
  intros Hmiss. destruct st as [[A caches] l0]. unfold forward_layer, dict_get.
  destruct (W_b_dict !! ("W" +:+ str l)) as [W|] eqn:EW; [|reflexivity].
  destruct Hmiss as [Hmiss | Hmiss]; [discriminate|]. rewrite Hmiss. reflexivity.
Qed.

End PassEdges.

(** X19: [L_model_backward] looks at the labels before it looks at the
    caches: labels that do not have as many entries as the output raise
    [ValueError] whatever the caches are, and with labels that fit, an empty
    list of caches raises [IndexError]. *)
Theorem L_model_backward_edges {num : Type} `{Arith num} `{Transcendental num}
    (AL Y : ndarray num) :
  (nrows Y * ncols Y <> nrows AL * ncols AL ->
   forall caches, L_model_backward AL Y caches = Raise ValueError) /\
  (nrows Y * ncols Y = nrows AL * ncols AL ->
   L_model_backward AL Y [] = Raise IndexError).
Proof.
  split.
  - intros Hne caches. unfold L_model_backward, reshape.
    destruct (Nat.eqb_spec (nrows Y * ncols Y) (nrows AL * ncols AL)) as [|_];
      [contradiction | reflexivity].
  - intros Heq. unfold L_model_backward, reshape.
    rewrite (proj2 (Nat.eqb_eq _ _) Heq). cbn [mbind result_bind].
    rewrite output_gradient_ok by reflexivity. reflexivity.
Qed.

(** X20: [update_parameters] returns a dictionary of fewer than two entries
    as it is, whatever it holds and whatever the gradients; on a larger one
    it raises [KeyError] when the weights ["W1"] or their gradient ["dW1"]
    are missing. *)
Theorem update_parameters_edges {num : Type} `{Arith num}
    (W_b_dict grads : gmap string (ndarray num)) (learning_rate : num)
    (L2_norm : bool) :
  (size W_b_dict < 2 ->
   update_parameters W_b_dict grads learning_rate L2_norm = Ok W_b_dict) /\
  (2 <= size W_b_dict ->
   W_b_dict !! "W1" = None \/ grads !! "dW1" = None ->
   update_parameters W_b_dict grads learning_rate L2_norm = Raise KeyError).
Proof.
  unfold update_parameters. split.
  - intros Hsize. rewrite Nat.div_small by exact Hsize. reflexivity.
  - intros Hsize Hmiss.
    assert (Hhalf : 1 <= size W_b_dict / 2)
      by (apply Nat.div_le_lower_bound; lia).
    rewrite (seq_from_one _ Hhalf), for_in_cons.
    rewrite update_layer_missing by exact Hmiss. reflexivity.
Qed.

(** X21: on a dictionary of four entries or more, the forward pass raises
    [KeyError] when ["W1"] or ["b1"] is not among them: it counts the
    entries and takes the names of the keys for granted. *)
Theorem L_model_forward_missing_key {num : Type} `{Arith num}
    `{Transcendental num} (X : ndarray num)
    (W_b_dict : gmap string (ndarray num)) (use_batchnorm : bool) :
  4 <= size W_b_dict ->
  W_b_dict !! "W1" = None \/ W_b_dict !! "b1" = None ->
  L_model_forward X W_b_dict use_batchnorm = Raise KeyError.
Proof.
  intros Hsize Hmiss. unfold L_model_forward.
  assert (Hhalf : 2 <= size W_b_dict / 2)
    by (apply Nat.div_le_lower_bound; lia).
  unfold range. replace (size W_b_dict / 2 - 1) with (S (size W_b_dict / 2 - 2)) by lia.
  cbn [seq]. rewrite for_in_cons.
  rewrite forward_layer_missing by exact Hmiss. reflexivity.
Qed.

Lemma L_model_forward_missing_key_witness :
  L_model_forward sample_X
    (<["W2" := sample_Z]> (<["b2" := sample_b]>
       (<["W3" := sample_Z]> (<["b3" := sample_b]> ∅)))) false
  = Raise KeyError.
Proof.
  apply (L_model_forward_missing_key sample_X
           (<["W2" := sample_Z]> (<["b2" := sample_b]>
              (<["W3" := sample_Z]> (<["b3" := sample_b]> ∅)))) false).
  - rewrite !map_size_insert_None, map_size_empty; [lia|..];
      rewrite ?lookup_insert_ne by discriminate; apply lookup_empty.
  - left. reflexivity.
Defined.
